(** * image-tiler: the argument parser, the tile packer, the job runner and
    the scheduler

    A shallow embedding of [src/main.cpp].  The C++ program reads two line
    files into a list of tasks, tiles every image with libvips, merges the
    tile files of each image into one gzip-compressed binary blob with an
    offset index, and writes a metadata descriptor.

    Modelling conventions:
    - [int] is a 32-bit signed integer, [unsigned int] a 32-bit and
      [size_t] a 64-bit unsigned one, all carried as [Z] with the wrap-around
      written out;
    - a [std::filesystem::path] is the list of its elements;
    - the file system is a tree of nodes; a directory keeps its entries in
      the order [directory_iterator] yields them;
    - code that throws lives in a state-and-exception monad over the world
      (the file system and the shared completion counter);
    - zlib and libvips are outside the repository: they are section
      variables. *)

From Stdlib Require Import ZArith String Ascii List Lia Bool DecimalString
  DecimalPos.
From Stdlib.Strings Require Import Byte.
From stdpp Require Import base list sorting strings.

Set Default Proof Using "Type".
Set Warnings "-register-all".

(* ================================================================= *)
(** ** Machine integers *)

Definition INT_MIN : Z := - 2 ^ 31.
Definition INT_MAX : Z := 2 ^ 31 - 1.
Definition SIZE_MAX : Z := 2 ^ 64 - 1.

(** Two's-complement wrap of a signed 32-bit [int].  The C++ standard leaves
    signed overflow undefined; the usual targets wrap. *)
Definition wrap_int (z : Z) : Z := ((z + 2 ^ 31) mod 2 ^ 32 - 2 ^ 31)%Z.

(** Wrap of an unsigned 64-bit [size_t]. *)
Definition wrap_size_t (z : Z) : Z := (z mod 2 ^ 64)%Z.

Definition size_t_add (a b : Z) : Z := wrap_size_t (a + b).
Definition size_t_sub (a b : Z) : Z := wrap_size_t (a - b).

(** [v.size()] of a vector held as a list. *)
Definition vsize {A} (v : list A) : Z := Z.of_nat (length v).

(* ================================================================= *)
(** ** Characters and strings *)

Definition dq : string := String "034"%char EmptyString.
Definition nl : string := String "010"%char EmptyString.

(** [::isdigit] in the C locale. *)
Definition isdigit (c : ascii) : bool :=
  let n := nat_of_ascii c in (48 <=? n)%nat && (n <=? 57)%nat.

(** [::tolower] in the C locale. *)
Definition tolower (c : ascii) : ascii :=
  let n := nat_of_ascii c in
  if (65 <=? n)%nat && (n <=? 90)%nat then ascii_of_nat (n + 32) else c.

Fixpoint string_all (f : ascii -> bool) (s : string) : bool :=
  match s with
  | EmptyString => true
  | String c s' => f c && string_all f s'
  end.

Fixpoint string_map (f : ascii -> ascii) (s : string) : string :=
  match s with
  | EmptyString => EmptyString
  | String c s' => String (f c) (string_map f s')
  end.

(** [std::all_of(name.begin(), name.end(), ::isdigit)]. *)
Definition all_digits (name : string) : bool := string_all isdigit name.

(** Decimal output of [operator<<] for integers. *)
Definition decimal (z : Z) : string := NilZero.string_of_int (Z.to_int z).

(* ================================================================= *)
(** ** Paths *)

Definition path : Type := list string.

(** [p.string()], relative to the root of the modelled tree. *)
Definition path_string (p : path) : string := String.concat "/" p.

Fixpoint split_on (sep : ascii) (s : string) : list string :=
  match s with
  | EmptyString => [EmptyString]
  | String c s' =>
      if Ascii.eqb c sep then EmptyString :: split_on sep s'
      else match split_on sep s' with
           | [] => [String c EmptyString]
           | w :: ws => String c w :: ws
           end
  end.

(** [fs::path(s)]: the non-empty elements between the separators.  The
    paths of the model are relative to the root of the modelled tree and
    normalised: a leading separator is dropped, so that [path_string] prints
    an absolute path without it, and [.] and [..] are names like any other,
    which no directory lists.  On a path with such an element the model
    finds nothing where the program would. *)
Definition path_of_string (s : string) : path :=
  filter (fun w => negb (String.eqb w EmptyString)) (split_on "/"%char s).

Definition filename (p : path) : string := List.last p EmptyString.
Definition parent_path (p : path) : path := removelast p.

(** Splits a string at its rightmost period: what is before it, and the
    rest starting at the period. *)
Fixpoint split_ext (s : string) : option (string * string) :=
  match s with
  | EmptyString => None
  | String c s' =>
      match split_ext s' with
      | Some (st, ex) => Some (String c st, ex)
      | None => if Ascii.eqb c "."%char then Some (EmptyString, s) else None
      end
  end.

Definition is_dot_or_dotdot (fn : string) : bool :=
  String.eqb fn "." || String.eqb fn "..".

(** [path::extension()] of a file name: from the rightmost period on; a
    period that is the first character does not start an extension. *)
Definition extension (fn : string) : string :=
  if is_dot_or_dotdot fn then EmptyString
  else match fn with
       | EmptyString => EmptyString
       | String _ rest =>
           match split_ext rest with
           | Some (_, ex) => ex
           | None => EmptyString
           end
       end.

(** [path::stem()]: the file name without its extension. *)
Definition stem (fn : string) : string :=
  if is_dot_or_dotdot fn then fn
  else match fn with
       | EmptyString => EmptyString
       | String c rest =>
           match split_ext rest with
           | Some (st, _) => String c st
           | None => fn
           end
       end.

(** *** The order of [operator<] on paths

    [path::compare] is lexicographic over the elements of the two paths, and
    two elements compare as strings of unsigned chars. *)

Fixpoint lex_compare {A} (cmp : A -> A -> comparison) (l1 l2 : list A)
  : comparison :=
  match l1, l2 with
  | [], [] => Eq
  | [], _ :: _ => Lt
  | _ :: _, [] => Gt
  | x :: l1', y :: l2' =>
      match cmp x y with
      | Eq => lex_compare cmp l1' l2'
      | c => c
      end
  end.

Definition char_compare (a b : ascii) : comparison :=
  N.compare (N_of_ascii a) (N_of_ascii b).

Definition string_compare (a b : string) : comparison :=
  lex_compare char_compare (list_ascii_of_string a) (list_ascii_of_string b).

Definition path_compare (p q : path) : comparison :=
  lex_compare string_compare p q.

Definition path_le (p q : path) : Prop := path_compare p q <> Gt.

#[global] Instance path_le_dec : RelDecision path_le.
Proof. intros p q. unfold path_le. apply _. Defined.

(** [std::sort(tile_files.begin(), tile_files.end())].  The algorithm behind
    [std::sort] is not fixed by the language; [sort_paths_unique] below shows
    that every sorting algorithm returns this list. *)
Definition sort_paths (tile_files : list path) : list path :=
  merge_sort path_le tile_files.

(** The order the specification words describe, kept for comparison with
    [path_le]: the order of the full path strings. *)
Definition path_string_le (p q : path) : Prop :=
  string_compare (path_string p) (path_string q) <> Gt.

#[global] Instance path_string_le_dec : RelDecision path_string_le.
Proof. intros p q. unfold path_string_le. apply _. Defined.

Definition sort_by_path_string (tile_files : list path) : list path :=
  merge_sort path_string_le tile_files.

(* ================================================================= *)
(** ** The file system *)

(** A regular file carries whether it can be opened for reading and its
    bytes.  [Socket] is a Unix socket: it exists, it is neither a regular
    file nor a directory, [open] refuses it, so that no stream opens on it,
    and [fs::remove] unlinks it.  FIFOs, on which [open] blocks, devices, on
    which it succeeds, and symbolic links are not part of the file systems
    of the model. *)
Inductive node : Type :=
| File (readable : bool) (data : list byte)
| Dir (entries : list (string * node))
| Socket.

Definition is_directory (n : node) : bool :=
  match n with Dir _ => true | _ => false end.

Definition is_regular_file (n : node) : bool :=
  match n with File _ _ => true | _ => false end.

Fixpoint dir_lookup (name : string) (es : list (string * node)) : option node :=
  match es with
  | [] => None
  | (n, c) :: es' => if String.eqb name n then Some c else dir_lookup name es'
  end.

(** Puts [c] under [name]: in place when the name is taken, else as a new
    entry. *)
Fixpoint dir_set (name : string) (c : node) (es : list (string * node))
  : list (string * node) :=
  match es with
  | [] => [(name, c)]
  | (n, c') :: es' =>
      if String.eqb name n then (n, c) :: es' else (n, c') :: dir_set name c es'
  end.

Definition dir_remove (name : string) (es : list (string * node))
  : list (string * node) :=
  filter (fun e => negb (String.eqb name (fst e))) es.

Fixpoint fs_lookup (n : node) (p : path) : option node :=
  match p with
  | [] => Some n
  | c :: p' =>
      match n with
      | Dir es =>
          match dir_lookup c es with
          | Some m => fs_lookup m p'
          | None => None
          end
      | _ => None
      end
  end.

(** Rewrites the entries of the directory at [p]; [None] when [p] is not a
    directory or [f] refuses. *)
Fixpoint fs_alter (f : list (string * node) -> option (list (string * node)))
    (n : node) (p : path) : option node :=
  match p with
  | [] =>
      match n with
      | Dir es => option_map Dir (f es)
      | _ => None
      end
  | c :: p' =>
      match n with
      | Dir es =>
          match dir_lookup c es with
          | Some m =>
              match fs_alter f m p' with
              | Some m' => Some (Dir (dir_set c m' es))
              | None => None
              end
          | None => None
          end
      | _ => None
      end
  end.

(** No directory lists a name twice. *)
Fixpoint wfb (n : node) : bool :=
  match n with
  | Dir es =>
      bool_decide (NoDup (map fst es))
      && (fix all (l : list (string * node)) : bool :=
            match l with
            | [] => true
            | (_, c) :: l' => wfb c && all l'
            end) es
  | _ => true
  end.

(** What a program can observe of a path without listing a directory. *)
Inductive shape : Type :=
| Absent
| IsFile (readable : bool) (data : list byte)
| IsDir
| IsSocket.

Definition shape_of (o : option node) : shape :=
  match o with
  | None => Absent
  | Some (File r d) => IsFile r d
  | Some (Dir _) => IsDir
  | Some Socket => IsSocket
  end.

(** The same files with the same bytes below [root], whatever the order in
    which the directories list them. *)
Definition same_tree (root : path) (a b : node) : Prop :=
  forall q, shape_of (fs_lookup a (root ++ q)) = shape_of (fs_lookup b (root ++ q)).

(* ================================================================= *)
(** ** The world and the monad of the program *)

Record world : Type := World {
  files : node;
  completed_count : Z          (* std::atomic<size_t> completed_count *)
}.

Inductive result (A : Type) : Type :=
| Ok (a : A)
| Throw (what : string).
Arguments Ok {A} a.
Arguments Throw {A} what.

Definition io (A : Type) : Type := world -> result A * world.

Definition ret {A} (a : A) : io A := fun w => (Ok a, w).
Definition throw {A} (what : string) : io A := fun w => (Throw what, w).

Definition bind {A B} (m : io A) (k : A -> io B) : io B :=
  fun w =>
    match m w with
    | (Ok a, w') => k a w'
    | (Throw e, w') => (Throw e, w')
    end.

Notation "x <- m ;; k" := (bind m (fun x => k))
  (at level 100, m at next level, right associativity).

Definition lift_result {A} (r : result A) : io A := fun w => (r, w).

Definition get_files : io node := fun w => (Ok (files w), w).

(** [std::ofstream f(p)]: creates or truncates the file; the stream is bad
    when the parent is not a directory or [p] names a directory or a
    socket. *)
Definition truncate_entry (name : string) (es : list (string * node))
  : option (list (string * node)) :=
  match dir_lookup name es with
  | None => Some (dir_set name (File true []) es)
  | Some (File r _) => Some (dir_set name (File r []) es)
  | Some _ => None
  end.

Definition ofstream_open (p : path) : io bool :=
  fun w =>
    match fs_alter (truncate_entry (filename p)) (files w) (parent_path p) with
    | Some n => (Ok true, World n (completed_count w))
    | None => (Ok false, w)
    end.

(** [f.write(data, n)] on a good stream: the bytes go to the end of the
    file. *)
Definition append_entry (name : string) (bytes : list byte)
    (es : list (string * node)) : option (list (string * node)) :=
  match dir_lookup name es with
  | Some (File r d) => Some (dir_set name (File r (d ++ bytes)) es)
  | _ => None
  end.

Definition ofstream_write (p : path) (bytes : list byte) : io unit :=
  fun w =>
    match fs_alter (append_entry (filename p) bytes) (files w) (parent_path p) with
    | Some n => (Ok tt, World n (completed_count w))
    | None => (Ok tt, w)
    end.

(** [std::ifstream f(p)] read to its end through [istreambuf_iterator]: a
    stream that failed to open yields no bytes and no exception. *)
Definition read_all (fs : node) (p : path) : list byte :=
  match fs_lookup fs p with
  | Some (File true d) => d
  | _ => []
  end.

Definition ifstream_read_all (p : path) : io (list byte) :=
  fun w => (Ok (read_all (files w) p), w).

(** [fs::directory_iterator(p)]: the entries, or [filesystem_error]. *)
Definition directory_iterator (p : path) : io (list (string * node)) :=
  fun w =>
    match fs_lookup (files w) p with
    | Some (Dir es) => (Ok es, w)
    | _ => (Throw ("filesystem error: directory iterator cannot open directory: "
                   +:+ path_string p), w)
    end.

(** [fs::remove(p)] of a file or an empty directory. *)
Definition fs_remove (p : path) : io unit :=
  fun w =>
    match fs_alter (fun es => Some (dir_remove (filename p) es))
                   (files w) (parent_path p) with
    | Some n => (Ok tt, World n (completed_count w))
    | None => (Ok tt, w)
    end.

(* ================================================================= *)
(** ** The records of the program *)

Record Config : Type := {
  inputs_file : string;
  outputs_file : string;
  tile_size : Z;
  suffix : string;
  jpeg_quality : Z;
  threads : Z;
  keep_tiles : bool
}.

Record ImageTask : Type := {
  input_path : string;
  output_path : string;
  index : Z
}.

Record ProcessResult : Type := {
  r_index : Z;
  success : bool;
  error_message : string;
  width : Z;
  height : Z
}.

Record TileInfo : Type := {
  key : string;
  binary_name : string;
  start_offset : Z;
  byte_size : Z
}.

(* ================================================================= *)
(** ** read_tasks *)

(** The characters up to the next newline, and what follows it. *)
Fixpoint take_line (s : string) : string * string :=
  match s with
  | EmptyString => (EmptyString, EmptyString)
  | String c s' =>
      if Ascii.eqb c "010"%char then (EmptyString, s')
      else let '(l, r) := take_line s' in (String c l, r)
  end.

(** [std::getline(stream, line)]: fails when the stream has nothing left. *)
Definition getline (stream : string) : option (string * string) :=
  match stream with
  | EmptyString => None
  | _ => Some (take_line stream)
  end.

Definition empty (s : string) : bool :=
  match s with EmptyString => true | _ => false end.

(** The [while] loop of [read_tasks].  Every round takes at least one
    character from [inputs], so [fuel] above its length is never used up. *)
Fixpoint read_loop (fuel : nat) (inputs outputs : string) (idx : Z)
    (tasks : list ImageTask) : list ImageTask :=
  match fuel with
  | O => tasks
  | S fuel' =>
      match getline inputs with
      | None => tasks
      | Some (in_path, inputs') =>
          match getline outputs with
          | None => tasks
          | Some (out_path, outputs') =>
              if negb (empty in_path) && negb (empty out_path)
              then read_loop fuel' inputs' outputs' (size_t_add idx 1)
                     (tasks ++ [{| input_path := in_path;
                                   output_path := out_path;
                                   index := idx |}])
              else read_loop fuel' inputs' outputs' idx tasks
          end
      end
  end.

(** [std::ifstream f(name)] and [f.is_open()]: the text the stream will
    deliver.  A directory opens and delivers nothing. *)
Definition ifstream_open (fs : node) (name : string) : option string :=
  match fs_lookup fs (path_of_string name) with
  | Some (File true d) => Some (string_of_list_byte d)
  | Some (Dir _) => Some EmptyString
  | _ => None
  end.

Definition read_tasks (input_file output_file : string) : io (list ImageTask) :=
  fs <- get_files ;;
  match ifstream_open fs input_file, ifstream_open fs output_file with
  | None, _ => throw ("Cannot open input file: " +:+ input_file)
  | Some _, None => throw ("Cannot open output file: " +:+ output_file)
  | Some inputs, Some outputs =>
      ret (read_loop (S (String.length inputs)) inputs outputs 0 [])
  end.

(* ================================================================= *)
(** ** parse_args *)

Definition UINT_MAX : Z := 2 ^ 32 - 1.

(** Conversion of an [int] to [unsigned int]. *)
Definition wrap_uint (z : Z) : Z := (z mod 2 ^ 32)%Z.

(** [isspace] in the C locale. *)
Definition isspace (c : ascii) : bool :=
  let n := nat_of_ascii c in (n =? 32)%nat || ((9 <=? n)%nat && (n <=? 13)%nat).

Fixpoint skip_spaces (s : string) : string :=
  match s with
  | String c s' => if isspace c then skip_spaces s' else s
  | EmptyString => s
  end.

Definition digit_value (c : ascii) : Z := (Z.of_nat (nat_of_ascii c) - 48)%Z.

(** The value of the digits a string starts with, in base ten. *)
Fixpoint read_digits (acc : Z) (s : string) : Z :=
  match s with
  | String c s' =>
      if isdigit c then read_digits (acc * 10 + digit_value c) s' else acc
  | EmptyString => acc
  end.

Definition starts_with_digit (s : string) : bool :=
  match s with
  | String c _ => isdigit c
  | EmptyString => false
  end.

(** [std::stoi(s)]: white space, an optional sign, then digits; what follows
    the digits is ignored.  It throws [std::invalid_argument] without a
    digit and [std::out_of_range] outside [int]; [what()] is the name of the
    function in both. *)
Definition stoi (s : string) : result Z :=
  let s := skip_spaces s in
  let '(negative, s) :=
    match s with
    | String c s' =>
        if Ascii.eqb c "-"%char then (true, s')
        else if Ascii.eqb c "+"%char then (false, s')
        else (false, s)
    | EmptyString => (false, s)
    end in
  if starts_with_digit s then
    let v := read_digits 0 s in
    let v := if negative then (- v)%Z else v in
    if (INT_MIN <=? v)%Z && (v <=? INT_MAX)%Z then Ok v else Throw "stoi"
  else Throw "stoi".

(** How a function that may call [exit] ends. *)
Inductive outcome (A : Type) : Type :=
| Returns (a : A)
| Exits (status : Z)
| Raises (what : string).
Arguments Returns {A} a.
Arguments Exits {A} status.
Arguments Raises {A} what.

(** [Config config;] with its default member initialisers. *)
Definition default_config : Config :=
  {| inputs_file := EmptyString; outputs_file := EmptyString;
     tile_size := 512; suffix := ".jpg"; jpeg_quality := 85; threads := 0;
     keep_tiles := false |}.

Definition set_inputs_file (c : Config) (v : string) : Config :=
  {| inputs_file := v; outputs_file := outputs_file c;
     tile_size := tile_size c; suffix := suffix c;
     jpeg_quality := jpeg_quality c; threads := threads c;
     keep_tiles := keep_tiles c |}.

Definition set_outputs_file (c : Config) (v : string) : Config :=
  {| inputs_file := inputs_file c; outputs_file := v;
     tile_size := tile_size c; suffix := suffix c;
     jpeg_quality := jpeg_quality c; threads := threads c;
     keep_tiles := keep_tiles c |}.

Definition set_tile_size (c : Config) (v : Z) : Config :=
  {| inputs_file := inputs_file c; outputs_file := outputs_file c;
     tile_size := v; suffix := suffix c;
     jpeg_quality := jpeg_quality c; threads := threads c;
     keep_tiles := keep_tiles c |}.

Definition set_suffix (c : Config) (v : string) : Config :=
  {| inputs_file := inputs_file c; outputs_file := outputs_file c;
     tile_size := tile_size c; suffix := v;
     jpeg_quality := jpeg_quality c; threads := threads c;
     keep_tiles := keep_tiles c |}.

Definition set_jpeg_quality (c : Config) (v : Z) : Config :=
  {| inputs_file := inputs_file c; outputs_file := outputs_file c;
     tile_size := tile_size c; suffix := suffix c;
     jpeg_quality := v; threads := threads c;
     keep_tiles := keep_tiles c |}.

Definition set_threads (c : Config) (v : Z) : Config :=
  {| inputs_file := inputs_file c; outputs_file := outputs_file c;
     tile_size := tile_size c; suffix := suffix c;
     jpeg_quality := jpeg_quality c; threads := v;
     keep_tiles := keep_tiles c |}.

Definition set_keep_tiles (c : Config) (v : bool) : Config :=
  {| inputs_file := inputs_file c; outputs_file := outputs_file c;
     tile_size := tile_size c; suffix := suffix c;
     jpeg_quality := jpeg_quality c; threads := threads c;
     keep_tiles := v |}.

Definition valid_suffix (s : string) : bool :=
  String.eqb s ".png" || String.eqb s ".jpg" || String.eqb s ".jpeg".

(** The [for (int i = 1; i < argc; ++i)] loop over the arguments that
    follow the program name; [--help] prints the usage and exits. *)
Fixpoint parse_loop (args : list string) (config : Config) : outcome Config :=
  match args with
  | [] => Returns config
  | arg :: rest =>
      if String.eqb arg "--help" || String.eqb arg "-h" then Exits 0
      else if String.eqb arg "--inputs" then
        match rest with
        | v :: rest' => parse_loop rest' (set_inputs_file config v)
        | [] => Raises "--inputs requires a value"
        end
      else if String.eqb arg "--outputs" then
        match rest with
        | v :: rest' => parse_loop rest' (set_outputs_file config v)
        | [] => Raises "--outputs requires a value"
        end
      else if String.eqb arg "--tile-size" then
        match rest with
        | v :: rest' =>
            match stoi v with
            | Throw e => Raises e
            | Ok n =>
                if (n <=? 0)%Z then Raises "tile-size must be positive"
                else parse_loop rest' (set_tile_size config n)
            end
        | [] => Raises "--tile-size requires a value"
        end
      else if String.eqb arg "--suffix" then
        match rest with
        | v :: rest' =>
            if valid_suffix v then parse_loop rest' (set_suffix config v)
            else Raises "suffix must be .png, .jpg, or .jpeg"
        | [] => Raises "--suffix requires a value"
        end
      else if String.eqb arg "--jpeg-quality" then
        match rest with
        | v :: rest' =>
            match stoi v with
            | Throw e => Raises e
            | Ok n =>
                if (n <? 1)%Z || (100 <? n)%Z
                then Raises "jpeg-quality must be between 1 and 100"
                else parse_loop rest' (set_jpeg_quality config n)
            end
        | [] => Raises "--jpeg-quality requires a value"
        end
      else if String.eqb arg "--threads" then
        match rest with
        | v :: rest' =>
            match stoi v with
            | Throw e => Raises e
            | Ok n => parse_loop rest' (set_threads config (wrap_uint n))
            end
        | [] => Raises "--threads requires a value"
        end
      else if String.eqb arg "--keep-tiles" then
        parse_loop rest (set_keep_tiles config true)
      else Raises ("Unknown argument: " +:+ arg)
  end.

(** [parse_args(argc, argv)]; [hardware_concurrency] is what
    [std::thread::hardware_concurrency()] answers on the machine. *)
Definition parse_args (hardware_concurrency : Z) (argv : list string)
  : outcome Config :=
  match parse_loop (tail argv) default_config with
  | Returns config =>
      if empty (inputs_file config) then Raises "--inputs is required"
      else if empty (outputs_file config) then Raises "--outputs is required"
      else if (threads config =? 0)%Z
           then Returns (set_threads config
                           (if (hardware_concurrency =? 0)%Z then 4%Z
                            else hardware_concurrency))
           else Returns config
  | Exits status => Exits status
  | Raises what => Raises what
  end.

(* ================================================================= *)
(** ** next_power_of_2 *)

(** The [while (power < n) power *= 2;] loop on [int]. [None]: the loop is
    still running when the fuel is gone. *)
Fixpoint double_until (fuel : nat) (power n : Z) : option Z :=
  match fuel with
  | O => None
  | S fuel' =>
      if (power <? n)%Z then double_until fuel' (wrap_int (power * 2)) n
      else Some power
  end.

Definition next_power_of_2 (fuel : nat) (n : Z) : option Z :=
  if (n <=? 0)%Z then Some 1%Z else double_until fuel 1 n.

(* ================================================================= *)
(** ** The scheduling loop of main *)

(** Where the main thread stands in
    [for (task : tasks) { push_back(async(..)); if (size >= threads) {..} }]
    and in the final [for (future : futures) future.wait();]. *)
Inductive position : Type :=
| AtLoopHead
| AfterPush
| Draining (i : nat)
| Done.

(** Jobs are named by their launch number.  [futures] mirrors the vector of
    futures, [running] holds the jobs started by [std::async] that have not
    returned yet. *)
Record sched : Type := Sched {
  pending : list ImageTask;
  futures : list nat;
  running : list nat;
  launched : nat;
  pos : position
}.

Definition sched_init (tasks : list ImageTask) : sched :=
  Sched tasks [] [] 0 AtLoopHead.

Inductive main_step (nthreads : Z) : sched -> sched -> Prop :=
| step_launch t rest fs rs n :
    main_step nthreads
      (Sched (t :: rest) fs rs n AtLoopHead)
      (Sched rest (fs ++ [n]) (n :: rs) (S n) AfterPush)
| step_below ts fs rs n :
    ~ (vsize fs >= nthreads)%Z ->
    main_step nthreads (Sched ts fs rs n AfterPush) (Sched ts fs rs n AtLoopHead)
| step_wait_front ts f fs rs n :
    (vsize (f :: fs) >= nthreads)%Z ->
    f ∉ rs ->
    main_step nthreads (Sched ts (f :: fs) rs n AfterPush) (Sched ts fs rs n AtLoopHead)
| step_job_returns ts fs rs n p j :
    j ∈ rs ->
    main_step nthreads (Sched ts fs rs n p)
      (Sched ts fs (filter (fun k => k <> j) rs) n p)
| step_loop_exit fs rs n :
    main_step nthreads (Sched [] fs rs n AtLoopHead) (Sched [] fs rs n (Draining 0))
| step_drain_wait fs rs n i f :
    fs !! i = Some f ->
    f ∉ rs ->
    main_step nthreads (Sched [] fs rs n (Draining i)) (Sched [] fs rs n (Draining (S i)))
| step_drain_end fs rs n i :
    length fs <= i ->
    main_step nthreads (Sched [] fs rs n (Draining i)) (Sched [] fs rs n Done).

Inductive reachable (nthreads : Z) (tasks : list ImageTask) : sched -> Prop :=
| reach_init : reachable nthreads tasks (sched_init tasks)
| reach_step s s' :
    reachable nthreads tasks s -> main_step nthreads s s' ->
    reachable nthreads tasks s'.

(** The step admits a new job. *)
Definition admits (s s' : sched) : Prop := launched s' = S (launched s).

(* ================================================================= *)
(** ** The packer, the metadata writer and the job runner *)

(** What the calls [deflateInit2], [deflateBound], [deflate(Z_FINISH)] and
    [deflateEnd] of [gzip_compress] come to on one input buffer. *)
Inductive deflate_outcome : Type :=
| InitFailed                          (* deflateInit2 did not return Z_OK *)
| StreamEnd (out : list byte)          (* deflate returned Z_STREAM_END *)
| NotFinished.                         (* deflate returned anything else *)

(** [image.width()] and [image.height()] of a loaded image. *)
Record VImage : Type := { image_width : Z; image_height : Z }.

(** Lower-cased extension test of the discovery loop. *)
Definition is_tile_ext (ext : string) : bool :=
  let ext := string_map tolower ext in
  String.eqb ext ".png" || String.eqb ext ".jpg" || String.eqb ext ".jpeg".

(** The innermost loop: the tile files of one row directory. *)
Definition collect_tiles (y_path : path) (es : list (string * node)) : list path :=
  e ← es;
  if is_regular_file e.2 && is_tile_ext (extension e.1)
  then [y_path ++ [e.1]] else [].

(** The middle loop: every sub-directory of a level directory. *)
Definition collect_rows (level_path : path) (es : list (string * node))
  : list path :=
  e ← es;
  match e.2 with
  | Dir tiles => collect_tiles (level_path ++ [e.1]) tiles
  | _ => []
  end.

(** The outer loop: the directories of [tile_folder] with an all-digit
    name. *)
Definition collect_levels (tile_folder : path) (es : list (string * node))
  : list path :=
  e ← es;
  match e.2 with
  | Dir rows =>
      if all_digits e.1 then collect_rows (tile_folder ++ [e.1]) rows else []
  | _ => []
  end.

(** [level + "_" + tile_y + "_" + tile_x] of a tile path. *)
Definition tile_key (tile_path : path) : string :=
  let parent := parent_path tile_path in
  let tile_x := stem (filename tile_path) in
  let tile_y := filename parent in
  let level := filename (parent_path parent) in
  level +:+ "_" +:+ tile_y +:+ "_" +:+ tile_x.

(** The first loop of the clean-up: [remove_all] on every directory with an
    all-digit name. *)
Definition remove_level_dirs (es : list (string * node)) : list (string * node) :=
  filter (fun e => negb (is_directory e.2 && all_digits e.1)) es.

Definition set_entries (p : path) (es : list (string * node)) : io unit :=
  fun w =>
    match fs_alter (fun _ => Some es) (files w) p with
    | Some n => (Ok tt, World n (completed_count w))
    | None => (Ok tt, w)
    end.

Definition remove_tiles (tile_folder : path) : io unit :=
  entries <- directory_iterator tile_folder ;;
  _ <- set_entries tile_folder (remove_level_dirs entries) ;;
  let blank_png := tile_folder ++ ["blank.png"] in
  fs <- get_files ;;
  match fs_lookup fs blank_png with
  | None => ret tt
  | Some (Dir (_ :: _)) =>
      throw ("filesystem error: cannot remove: Directory not empty ["
             +:+ path_string blank_png +:+ "]")
  | Some _ => fs_remove blank_png
  end.

(** The line that opens an entry: the key between quotes, a colon and the
    opening brace. *)
Definition key_line (tile : TileInfo) : string :=
  "    " +:+ dq +:+ key tile +:+ dq +:+ ": {" +:+ nl.

(** The three fields of an entry and its closing brace. *)
Definition tile_fields (tile : TileInfo) : string :=
  "      " +:+ dq +:+ "binaryName" +:+ dq +:+ ": "
    +:+ dq +:+ binary_name tile +:+ dq +:+ "," +:+ nl
  +:+ "      " +:+ dq +:+ "startOffset" +:+ dq +:+ ": "
    +:+ decimal (start_offset tile) +:+ "," +:+ nl
  +:+ "      " +:+ dq +:+ "size" +:+ dq +:+ ": "
    +:+ decimal (byte_size tile) +:+ nl
  +:+ "    }".

(** One round of the loop over [tiles_map]: the entry, and a comma when
    [i < tiles_map.size() - 1]. *)
Definition tile_text (tile : TileInfo) (i size : Z) : string :=
  key_line tile +:+ tile_fields tile
  +:+ (if (i <? size_t_sub size 1)%Z then "," else EmptyString)
  +:+ nl.

(** The [for (size_t i = 0; i < tiles_map.size(); ++i)] loop. *)
Fixpoint tiles_text (tiles : list TileInfo) (i size : Z) : string :=
  match tiles with
  | [] => EmptyString
  | tile :: rest => tile_text tile i size +:+ tiles_text rest (size_t_add i 1) size
  end.

Definition metadata_header (w h ts : Z) : string :=
  "{" +:+ nl
  +:+ "  " +:+ dq +:+ "width" +:+ dq +:+ ": " +:+ decimal w +:+ "," +:+ nl
  +:+ "  " +:+ dq +:+ "height" +:+ dq +:+ ": " +:+ decimal h +:+ "," +:+ nl
  +:+ "  " +:+ dq +:+ "tile_size" +:+ dq +:+ ": " +:+ decimal ts +:+ "," +:+ nl
  +:+ "  " +:+ dq +:+ "tiles" +:+ dq +:+ ": {" +:+ nl.

Definition metadata_footer : string := "  }" +:+ nl +:+ "}" +:+ nl.

Definition metadata_text (w h ts : Z) (tiles_map : list TileInfo) : string :=
  metadata_header w h ts
  +:+ tiles_text tiles_map 0 (vsize tiles_map)
  +:+ metadata_footer.

Definition write_metadata (output_folder : path) (w h ts : Z)
    (tiles_map : list TileInfo) : io unit :=
  let meta_path := output_folder ++ ["metadata.json"] in
  good <- ofstream_open meta_path ;;
  if negb good
  then throw ("Cannot create metadata file: " +:+ path_string meta_path)
  else ofstream_write meta_path
         (list_byte_of_string (metadata_text w h ts tiles_map)).

Section Program.

(** zlib. *)
Variable zlib_deflate : list byte -> deflate_outcome.

(** libvips: [VImage::new_from_file], and the [resize] and [dzsave] calls
    that write the tile tree of an image under the output folder. *)
Variable vips_new_from_file : string -> io VImage.
Variable vips_dzsave :
  string -> Z -> string -> Z -> string -> option Z -> io unit.

Definition gzip_compress (data : list byte) : result (list byte) :=
  match zlib_deflate data with
  | InitFailed => Throw "Failed to initialize gzip compression"
  | NotFinished => Throw "Failed to compress data"
  | StreamEnd compressed => Ok compressed
  end.

(** The [for (tile_path : tile_files)] loop. *)
Fixpoint pack_tiles (binary_path : path) (name : string)
    (tile_files : list path) (current_offset : Z)
    (tiles_map : list TileInfo) : io (list TileInfo) :=
  match tile_files with
  | [] => ret tiles_map
  | tile_path :: rest =>
      tile_data <- ifstream_read_all tile_path ;;
      compressed <- lift_result (gzip_compress tile_data) ;;
      _ <- ofstream_write binary_path compressed ;;
      pack_tiles binary_path name rest
        (size_t_add current_offset (vsize compressed))
        (tiles_map ++ [{| key := tile_key tile_path;
                          binary_name := name;
                          start_offset := current_offset;
                          byte_size := vsize compressed |}])
  end.

Definition merge_tiles_to_binary (tile_folder : path) (name : string)
    (keep : bool) : io (list TileInfo) :=
  let binary_path := tile_folder ++ [name] in
  good <- ofstream_open binary_path ;;
  if negb good
  then throw ("Cannot create binary file: " +:+ path_string binary_path)
  else
    levels <- directory_iterator tile_folder ;;
    let tile_files := sort_paths (collect_levels tile_folder levels) in
    tiles_map <- pack_tiles binary_path name tile_files 0 [] ;;
    _ <- (if negb keep then remove_tiles tile_folder else ret tt) ;;
    ret tiles_map.

Definition incr_completed : io Z :=
  fun w =>
    let c := size_t_add (completed_count w) 1 in
    (Ok c, World (files w) c).

(** The body of the [try] block after [target_size] is known. *)
Definition tile_and_pack (task : ImageTask) (config : Config)
    (target_size : Z) : io unit :=
  let out := path_of_string (output_path task) in
  tiles_map <- merge_tiles_to_binary out "tiles_000.binz" (keep_tiles config) ;;
  _ <- write_metadata out target_size target_size (tile_size config) tiles_map ;;
  _ <- incr_completed ;;
  ret tt.

Definition quality_option (config : Config) : option Z :=
  if String.eqb (suffix config) ".jpg" || String.eqb (suffix config) ".jpeg"
  then Some (jpeg_quality config) else None.

(** [process_image]; console output is left out.  [None]: the loop of
    [next_power_of_2] used up the fuel. *)
Definition process_image (fuel : nat) (task : ImageTask) (config : Config)
    (total : Z) (w : world) : option (ProcessResult * world) :=
  let result := {| r_index := index task; success := false;
                   error_message := EmptyString; width := 0; height := 0 |} in
  let failed (r : ProcessResult) (e : string) :=
    {| r_index := r_index r; success := success r; error_message := e;
       width := width r; height := height r |} in
  match vips_new_from_file (input_path task) w with
  | (Throw e, w1) => Some (failed result e, w1)
  | (Ok image, w1) =>
      let max_dim := Z.max (image_width image) (image_height image) in
      match next_power_of_2 fuel max_dim with
      | None => None
      | Some target_size =>
          match vips_dzsave (input_path task) target_size (output_path task)
                  (tile_size config) (suffix config) (quality_option config) w1
          with
          | (Throw e, w2) => Some (failed result e, w2)
          | (Ok _, w2) =>
              let result := {| r_index := index task; success := true;
                               error_message := EmptyString;
                               width := target_size; height := target_size |} in
              match tile_and_pack task config target_size w2 with
              | (Ok _, w3) => Some (result, w3)
              | (Throw e, w3) => Some (failed result e, w3)
              end
          end
      end
  end.

End Program.

(* ================================================================= *)
(** ** Vocabulary of the statements *)

Definition is_power_of_2 (p : Z) : Prop := exists k, (0 <= k)%Z /\ p = (2 ^ k)%Z.

Definition least_power_of_2_ge (n p : Z) : Prop :=
  is_power_of_2 p /\ (n <= p)%Z /\
  forall q, is_power_of_2 q -> (n <= q)%Z -> (p <= q)%Z.

(** The lines successive [getline] calls deliver from a text. *)
Fixpoint getlines (s : string) : list string :=
  match s with
  | EmptyString => []
  | String c s' =>
      if Ascii.eqb c "010"%char then EmptyString :: getlines s'
      else match getlines s' with
           | [] => [String c EmptyString]
           | l :: ls => String c l :: ls
           end
  end.

Definition task_paths (t : ImageTask) : string * string :=
  (input_path t, output_path t).

(** The test of the loop: neither line is empty. *)
Definition both_nonempty (pr : string * string) : bool :=
  negb (empty pr.1) && negb (empty pr.2).

(** In-flight jobs of a scheduler state. *)
Definition in_flight (s : sched) : Z := vsize (running s).

(** The step is the return of a running job and nothing else. *)
Definition job_return (s s' : sched) : Prop :=
  exists j, j ∈ running s /\
    s' = Sched (pending s) (futures s) (filter (fun k => k <> j) (running s))
               (launched s) (pos s).

(** What the loop keeps true: the running jobs all have their future in
    the vector, and the vector is below the limit whenever the main thread
    is about to launch. *)
Definition sched_inv (nthreads : Z) (s : sched) : Prop :=
  NoDup (running s) /\
  NoDup (futures s) /\
  (forall j, j ∈ running s -> j ∈ futures s) /\
  (forall j, j ∈ futures s -> (j < launched s)%nat) /\
  match pos s with
  | AfterPush => (vsize (futures s) <= nthreads)%Z
  | _ => (vsize (futures s) < nthreads)%Z
  end.

(** The offsets of a sequence of entries, laid end to end from [from]. *)
Fixpoint contiguous_from (from : Z) (tiles : list TileInfo) : Prop :=
  match tiles with
  | [] => True
  | t :: rest =>
      start_offset t = from /\ contiguous_from (from + byte_size t) rest
  end.

Definition total_size (tiles : list TileInfo) : Z :=
  foldr (fun t acc => (byte_size t + acc)%Z) 0%Z tiles.

Fixpoint strictly_increasing (offsets : list Z) : Prop :=
  match offsets with
  | [] => True
  | a :: rest =>
      match rest with
      | [] => True
      | b :: _ => (a < b)%Z
      end /\ strictly_increasing rest
  end.

(** A tile file as the discovery loops accept it: a regular file with a tile
    extension, in a directory, in a directory with an all-digit name. *)
Definition qualifying (fs : node) (tile_folder : path) (p : path) : Prop :=
  exists level row file,
    p = tile_folder ++ [level; row; file] /\
    all_digits level = true /\
    shape_of (fs_lookup fs (tile_folder ++ [level])) = IsDir /\
    shape_of (fs_lookup fs (tile_folder ++ [level; row])) = IsDir /\
    (exists r d, shape_of (fs_lookup fs p) = IsFile r d) /\
    is_tile_ext (extension file) = true.

(** The directory at [folder] lists [es]. *)
Definition at_folder (w : world) (folder : path) (es : list (string * node))
  : Prop :=
  fs_lookup (files w) folder = Some (Dir es).

(** What the packing loop computes from what the tile files hold: the
    entries, and the bytes it has appended to the blob when it ends or
    throws. *)
Fixpoint pack_pure (zlib : list byte -> deflate_outcome)
    (read : path -> list byte) (name : string) (tile_files : list path)
    (current_offset : Z) (tiles_map : list TileInfo)
  : result (list TileInfo) * list byte :=
  match tile_files with
  | [] => (Ok tiles_map, [])
  | tile_path :: rest =>
      match gzip_compress zlib (read tile_path) with
      | Throw e => (Throw e, [])
      | Ok compressed =>
          let '(r, blob) :=
            pack_pure zlib read name rest
              (size_t_add current_offset (vsize compressed))
              (tiles_map ++ [{| key := tile_key tile_path;
                                binary_name := name;
                                start_offset := current_offset;
                                byte_size := vsize compressed |}]) in
          (r, compressed ++ blob)
      end
  end.

(** The read permission of the blob after [ofstream] has opened it: that of
    the file it replaces, or that of a new file. *)
Definition created_mode (name : string) (es : list (string * node)) : bool :=
  match dir_lookup name es with
  | Some (File r _) => r
  | _ => true
  end.

(** What a clean-up that does not throw leaves of the entries of the tile
    folder. *)
Definition clean_up (es : list (string * node)) : list (string * node) :=
  dir_remove "blank.png" (remove_level_dirs es).

(** A three-way comparison that decides a strict total order. *)
Record total_compare {A} (cmp : A -> A -> comparison) : Prop := {
  cmp_eq : forall x y, cmp x y = Eq -> x = y;
  cmp_refl : forall x, cmp x x = Eq;
  cmp_opp : forall x y, cmp y x = CompOpp (cmp x y);
  cmp_lt_trans : forall x y z, cmp x y = Lt -> cmp y z = Lt -> cmp x z = Lt
}.

(* ================================================================= *)
(** ** Stand-ins for the libraries, to run the model on examples *)

(** A compressor that frames its input with the two gzip magic bytes. *)
Definition framing_deflate (data : list byte) : deflate_outcome :=
  StreamEnd (x1f :: x8b :: data).

(** An image loader that knows one image size. *)
Definition fixed_image (w h : Z) (name : string) : io VImage :=
  ret {| image_width := w; image_height := h |}.

(** A tiler that puts a given tile tree under the output folder. *)
Definition fixed_tiler (tree : list (string * node)) (input : string)
    (target_size : Z) (output : string) (ts : Z) (sfx : string)
    (q : option Z) : io unit :=
  set_entries (path_of_string output) tree.

Definition bytes (s : string) : list byte := list_byte_of_string s.

(** Five input lines against three output lines. *)
Definition five_and_three : world :=
  World (Dir [("inputs.txt",
               File true (bytes ("/img/a.png" +:+ nl +:+ "/img/b.png" +:+ nl
                                 +:+ "/img/c.png" +:+ nl +:+ "/img/d.png" +:+ nl
                                 +:+ "/img/e.png" +:+ nl)));
              ("outputs.txt",
               File true (bytes ("/out/a" +:+ nl +:+ "/out/b" +:+ nl
                                 +:+ "/out/c" +:+ nl)))]) 0.

(** Two jobs launched under a limit of two, a third still pending. *)
Definition three_tasks : list ImageTask :=
  [ {| input_path := "/img/a.png"; output_path := "/out/a"; index := 0 |};
    {| input_path := "/img/b.png"; output_path := "/out/b"; index := 1 |};
    {| input_path := "/img/c.png"; output_path := "/out/c"; index := 2 |} ].

Definition two_in_flight : sched :=
  Sched (drop 2 three_tasks) [0; 1] [1; 0] 2 AfterPush.

(** A tile tree of two levels as the tiler leaves it, with its blank tile,
    under the output folder [out]. *)
Definition pyramid : list (string * node) :=
  [ ("blank.png", File true (bytes "blank"));
    ("1", Dir [ ("1", Dir [ ("1.jpg", File true (bytes "tile 1/1/1"));
                            ("0.jpg", File true (bytes "tile 1/1/0")) ]);
                ("0", Dir [ ("0.jpg", File true (bytes "tile 1/0/0"));
                            ("1.jpg", File true (bytes "tile 1/0/1")) ]) ]);
    ("0", Dir [ ("0", Dir [ ("0.jpg", File true (bytes "tile 0/0/0")) ]) ]) ].

Definition pyramid_world : world := World (Dir [("out", Dir pyramid)]) 0.

Definition run_merge (keep : bool) (w : world) : result (list TileInfo) * world :=
  merge_tiles_to_binary framing_deflate ["out"] "tiles_000.binz" keep w.

Definition tiles_of (r : result (list TileInfo) * world) : list TileInfo :=
  match r.1 with Ok tiles => tiles | Throw _ => [] end.

Definition pyramid_tiles : list TileInfo :=
  Eval vm_compute in tiles_of (run_merge false pyramid_world).

Definition pyramid_packed : world :=
  Eval vm_compute in (run_merge false pyramid_world).2.

Definition pyramid_described : world :=
  Eval vm_compute in
    (write_metadata ["out"] 1024 1024 512 pyramid_tiles pyramid_packed).2.

(** One tile that cannot be opened for reading. *)
Definition unreadable_tile_world : world :=
  World (Dir [("out", Dir [("0", Dir [("0", Dir [("0.png", File false (bytes "pixels"))])])])]) 0.

(** A level directory whose row directories do not have numeric names. *)
Definition named_rows : list (string * node) :=
  [ ("1", Dir [ ("a-b", Dir [ ("0.png", File true (bytes "tile 1/a-b/0")) ]);
                ("a", Dir [ ("0.png", File true (bytes "tile 1/a/0")) ]) ]) ].

Definition named_rows_world : world := World (Dir [("out", Dir named_rows)]) 0.

(** The rows of [named_rows] listed in the other order. *)
Definition named_rows_relisted : list (string * node) :=
  [ ("1", Dir [ ("a", Dir [ ("0.png", File true (bytes "tile 1/a/0")) ]);
                ("a-b", Dir [ ("0.png", File true (bytes "tile 1/a-b/0")) ]) ]) ].

Definition named_rows_relisted_world : world :=
  World (Dir [("out", Dir named_rows_relisted)]) 0.





(** zlib out of memory. *)
Definition failing_deflate (data : list byte) : deflate_outcome := InitFailed.

Definition sample_task : ImageTask :=
  {| input_path := "/img/a.png"; output_path := "out"; index := 0 |}.

Definition sample_config : Config :=
  {| inputs_file := "inputs.txt"; outputs_file := "outputs.txt";
     tile_size := 512; suffix := ".jpg"; jpeg_quality := 85; threads := 4;
     keep_tiles := false |}.

Definition empty_output_world : world := World (Dir [("out", Dir [])]) 0.

(* ================================================================= *)
(** ** Vocabulary of the further statements *)

(** What the argument loop keeps true of the configuration it builds. *)
Definition loop_valid (c : Config) : Prop :=
  (1 <= tile_size c <= INT_MAX)%Z /\ valid_suffix (suffix c) = true /\
  (1 <= jpeg_quality c <= 100)%Z /\ (0 <= threads c <= UINT_MAX)%Z.

(** [value] comes right after [flag] among the arguments. *)
Definition follows_flag (flag value : string) (args : list string) : Prop :=
  exists pre post, args = pre ++ flag :: value :: post.

Definition from_flags (all : list string) (c : Config) : Prop :=
  (inputs_file c = EmptyString \/ follows_flag "--inputs" (inputs_file c) all) /\
  (outputs_file c = EmptyString \/ follows_flag "--outputs" (outputs_file c) all).

(** A text file of lines, each ended by a newline. *)
Definition unlines (lines : list string) : string :=
  foldr (fun l text => l +:+ nl +:+ text) EmptyString lines.

Definition no_newline (l : string) : Prop :=
  string_all (fun c => negb (Ascii.eqb c "010"%char)) l = true.

(** One entry of the metadata file, and the entries as the file holds
    them: a comma and a newline between two entries, a newline after the
    last one. *)
Definition tile_entry (tile : TileInfo) : string :=
  key_line tile +:+ tile_fields tile.

Definition entries_text (tiles : list TileInfo) : string :=
  match tiles with
  | [] => EmptyString
  | _ => String.concat ("," +:+ nl) (map tile_entry tiles) +:+ nl
  end.

(** The bytes of a file from [offset] on, [size] of them. *)
Definition slice (blob : list byte) (offset size : Z) : list byte :=
  take (Z.to_nat size) (drop (Z.to_nat offset) blob).

(** What [merge_tiles_to_binary] does to a tile folder that lists [es],
    as a function of the entries and of what the tile files hold: what it
    returns or throws, and the entries it leaves. *)
Definition merge_pure (zlib : list byte -> deflate_outcome)
    (read : path -> list byte) (folder : path) (name : string) (keep : bool)
    (es : list (string * node)) : result (list TileInfo) * list (string * node) :=
  match truncate_entry name es with
  | None =>
      (Throw ("Cannot create binary file: " +:+ path_string (folder ++ [name])), es)
  | Some _ =>
      let packed :=
        pack_pure zlib read name (sort_paths (collect_levels folder es)) 0 [] in
      let es2 := dir_set name (File (created_mode name es) packed.2) es in
      match packed.1 with
      | Throw e => (Throw e, es2)
      | Ok tiles =>
          if keep then (Ok tiles, es2)
          else match dir_lookup "blank.png" (remove_level_dirs es2) with
               | Some (Dir (_ :: _)) =>
                   (Throw ("filesystem error: cannot remove: Directory not empty ["
                           +:+ path_string (folder ++ ["blank.png"]) +:+ "]"),
                    remove_level_dirs es2)
               | _ => (Ok tiles, clean_up es2)
               end
      end
  end.

(** An action that leaves the counter of completed jobs as it is. *)
Definition keeps_count {A} (m : io A) : Prop :=
  forall w r w', m w = (r, w') -> completed_count w' = completed_count w.

(** What the two loops of [main] keep true of the jobs: every task is
    pending or launched, a running job has its future in the vector, the
    vector is not empty after a push, and the futures the drain loop has gone
    past belong to jobs that returned. *)
Definition drain_inv (tasks : list ImageTask) (s : sched) : Prop :=
  launched s + length (pending s) = length tasks /\
  (forall j, j ∈ running s -> j ∈ futures s) /\
  match pos s with
  | AtLoopHead => True
  | AfterPush => futures s <> []
  | Draining i =>
      pending s = [] /\
      forall k f, k < i -> futures s !! k = Some f -> f ∉ running s
  | Done => pending s = [] /\ running s = []
  end.

(** One task, launched, returned and waited for. *)
Definition one_task : list ImageTask :=
  [ {| input_path := "/img/a.png"; output_path := "/out/a"; index := 0 |} ].

Definition one_task_done : sched := Sched [] [0] [] 1 Done.

Definition one_task_running : sched := Sched [] [0] [0] 1 (Draining 0).

(** A command line with every option that takes a value. *)
Definition full_command_line (program inputs outputs : string) (ts q t : Z)
  : list string :=
  [ program; "--inputs"; inputs; "--outputs"; outputs;
    "--tile-size"; decimal ts; "--jpeg-quality"; decimal q;
    "--threads"; decimal t ].

Definition accepted_argv : list string :=
  [ "image-tiler"; "--keep-tiles"; "--inputs"; "in.txt"; "--threads"; "-1";
    "--outputs"; "out.txt"; "--suffix"; ".png" ].

Definition accepted_config : Config :=
  {| inputs_file := "in.txt"; outputs_file := "out.txt"; tile_size := 512;
     suffix := ".png"; jpeg_quality := 85; threads := 4294967295;
     keep_tiles := true |}.

(** The entries of a tile folder with one row that holds the same tile as
    a PNG and as a JPEG. *)
Definition twin_rows : list (string * node) :=
  [("0", Dir [("0", Dir [("2.png", File true (bytes "png"));
                         ("2.jpg", File true (bytes "jpg"))])])].

Definition two_workers_argv : list string :=
  [ "image-tiler"; "--inputs"; "in.txt"; "--outputs"; "out.txt"; "--threads"; "2" ].

Definition two_workers_config : Config :=
  {| inputs_file := "in.txt"; outputs_file := "out.txt"; tile_size := 512;
     suffix := ".jpg"; jpeg_quality := 85; threads := 2; keep_tiles := false |}.

(** A job that goes through, on the tile tree [pyramid]. *)
Definition counted_job : option (ProcessResult * world) :=
  Eval vm_compute in
    process_image framing_deflate (fixed_image 1000 800) (fixed_tiler pyramid)
      31 sample_task sample_config 1 empty_output_world.

Definition counted_result : ProcessResult :=
  Eval vm_compute in
    match counted_job with
    | Some (r, _) => r
    | None => {| r_index := 0; success := false; error_message := EmptyString;
                 width := 0; height := 0 |}
    end.

Definition counted_world : world :=
  Eval vm_compute in
    match counted_job with
    | Some (_, w) => w
    | None => empty_output_world
    end.

(** Three input lines, the second one empty, against three output lines. *)
Definition gapped_inputs : list string := ["/img/a.png"; EmptyString; "/img/c.png"].
Definition gapped_outputs : list string := ["/out/a"; "/out/b"; "/out/c"].

Definition gapped_world : world :=
  World (Dir [("inputs.txt", File true (bytes (unlines gapped_inputs)));
              ("outputs.txt", File true (bytes (unlines gapped_outputs)))]) 0.

Definition gapped_tasks : list ImageTask :=
  [ {| input_path := "/img/a.png"; output_path := "/out/a"; index := 0 |};
    {| input_path := "/img/c.png"; output_path := "/out/c"; index := 1 |} ].

(** The entries of [out] after the packing of [pyramid]. *)
Definition pyramid_packed_entries : list (string * node) :=
  Eval vm_compute in
    match fs_lookup (files pyramid_packed) ["out"] with
    | Some (Dir es) => es
    | _ => []
    end.

(** [pyramid] after a packing whose compressor fails. *)
Definition pyramid_unpacked : world :=
  Eval vm_compute in
    (merge_tiles_to_binary failing_deflate ["out"] "tiles_000.binz" false
       pyramid_world).2.

(** [pyramid] packed a second time, after the tiles were removed; packed
    with the tiles kept, and packed again after that. *)
Definition pyramid_repacked : world :=
  Eval vm_compute in (run_merge false pyramid_packed).2.

Definition pyramid_kept : world :=
  Eval vm_compute in (run_merge true pyramid_world).2.

Definition pyramid_kept_again : world :=
  Eval vm_compute in (run_merge false pyramid_kept).2.

(** [q] is [folder] or lies below it; and neither path lies below the
    other. *)
Definition under (folder q : path) : Prop := exists rest, q = folder ++ rest.

Definition apart (folder q : path) : Prop :=
  ~ under folder q /\ ~ under q folder.

(** An action that leaves everything apart from [folder] as it is. *)
Definition keeps_outside {A} (folder : path) (m : io A) : Prop :=
  forall w r w' q, m w = (r, w') -> apart folder q ->
                   fs_lookup (files w') q = fs_lookup (files w) q.

(** An input image next to an empty output folder, and the job of
    [sample_task] run there. *)
Definition shared_world : world :=
  World (Dir [("img", Dir [("a.png", File true (bytes "pixels"))]);
              ("out", Dir [])]) 0.

Definition shared_job : option (ProcessResult * world) :=
  Eval vm_compute in
    process_image framing_deflate (fixed_image 1000 800) (fixed_tiler pyramid)
      31 sample_task sample_config 1 shared_world.

Definition shared_result : ProcessResult :=
  Eval vm_compute in
    match shared_job with
    | Some (r, _) => r
    | None => {| r_index := 0; success := false; error_message := EmptyString;
                 width := 0; height := 0 |}
    end.

Definition shared_world_after : world :=
  Eval vm_compute in
    match shared_job with
    | Some (_, w) => w
    | None => shared_world
    end.

(** A tile folder that holds more than tiles: a directory and a file of
    other names, next to a level and the blank tile; and what is left of it
    after a packing that removed the tiles. *)
Definition mixed_entries : list (string * node) :=
  [ ("thumbs", Dir [ ("small.png", File true (bytes "thumbnail")) ]);
    ("0", Dir [ ("0", Dir [ ("0.jpg", File true (bytes "tile 0/0/0")) ]) ]);
    ("blank.png", File true (bytes "blank"));
    ("readme.txt", File true (bytes "notes")) ].

Definition mixed_world : world := World (Dir [("out", Dir mixed_entries)]) 0.

Definition mixed_packed : world :=
  Eval vm_compute in (run_merge false mixed_world).2.

(** The empty output folder after the tiler has put [pyramid] there. *)
Definition tiled_world : world :=
  Eval vm_compute in
    (fixed_tiler pyramid "/img/a.png" 1024 "out" 512 ".jpg" (Some 85%Z)
       empty_output_world).2.

(** A blank line in the usual sense of the word, kept for comparison with
    [empty], the test of the program: nothing but white space. *)
Definition blank (line : string) : bool := string_all isspace line.

Definition cr : string := String "013"%char EmptyString.

(** An inputs file whose first line is one space and whose second line is
    a carriage return, as a file with CR LF line ends has them, against
    three output lines. *)
Definition blank_lines_world : world :=
  World (Dir [("inputs.txt",
               File true (bytes (" " +:+ nl +:+ cr +:+ nl
                                 +:+ "/img/c.png" +:+ nl)));
              ("outputs.txt",
               File true (bytes ("/out/a" +:+ nl +:+ "/out/b" +:+ nl
                                 +:+ "/out/c" +:+ nl)))]) 0.


(* ================================================================= *)
(** * Properties *)

(** ** next_power_of_2 *)

Section NextPowerOf2.
Local Open Scope Z_scope.

Lemma wrap_int_small z : INT_MIN <= z <= INT_MAX -> wrap_int z = z.
Proof.
  unfold INT_MIN, INT_MAX, wrap_int. intros H.
  rewrite Z.mod_small; lia.
Qed.

Lemma double_until_step fuel power n :
  double_until (S fuel) power n =
    if power <? n then double_until fuel (wrap_int (power * 2)) n
    else Some power.
Proof. reflexivity. Qed.

(** From [2 ^ k] the loop stops at the first power of two that reaches
    [n], as long as that power is at most [2 ^ 30]. *)
Lemma double_until_pow fuel : forall k n,
  0 <= k <= 30 -> n <= 2 ^ 30 -> 31 - k <= Z.of_nat fuel ->
  exists j, k <= j <= 30 /\
    double_until fuel (2 ^ k) n = Some (2 ^ j) /\
    n <= 2 ^ j /\ (j = k \/ 2 ^ (j - 1) < n).
Proof.
  induction fuel as [|fuel IH]; intros k n Hk Hn Hfuel; [lia|].
  rewrite double_until_step.
  destruct (Z.ltb_spec (2 ^ k) n) as [Hlt|Hge].
  - assert (k < 30).
    { destruct (Z.eq_dec k 30) as [->|]; lia. }
    assert (Hpow : 2 ^ k * 2 = 2 ^ (k + 1)).
    { rewrite Z.pow_add_r by lia. lia. }
    assert (2 ^ (k + 1) <= 2 ^ 30) by (apply Z.pow_le_mono_r; lia).
    assert (0 < 2 ^ (k + 1)) by (apply Z.pow_pos_nonneg; lia).
    rewrite Hpow, wrap_int_small by (unfold INT_MIN, INT_MAX; lia).
    destruct (IH (k + 1) n) as (j & Hj & Hrun & Hle & Hleast); [lia..|].
    exists j. split; [lia|]. split; [exact Hrun|]. split; [exact Hle|].
    right. destruct Hleast as [->|Hleast]; [|exact Hleast].
    replace (k + 1 - 1) with k by lia. exact Hlt.
  - exists k. repeat split; lia.
Qed.

Lemma pow2_lt_inv a b : 0 <= a -> 0 <= b -> 2 ^ a < 2 ^ b -> a < b.
Proof.
  intros Ha Hb H. destruct (Z.lt_ge_cases a b) as [|Hge]; [assumption|].
  apply (Z.pow_le_mono_r 2) in Hge; lia.
Qed.

Lemma next_power_of_2_least fuel n :
  n <= 2 ^ 30 -> (31 <= fuel)%nat ->
  exists p, next_power_of_2 fuel n = Some p /\ least_power_of_2_ge n p /\
            (n <= 0 -> p = 1).
Proof.
  intros Hn Hfuel. unfold next_power_of_2.
  destruct (Z.leb_spec n 0) as [Hneg|Hpos].
  - exists 1. split; [reflexivity|]. split; [|reflexivity].
    split; [exists 0; split; [lia|reflexivity]|]. split; [lia|].
    intros q (k & Hk & ->) _.
    change 1 with (2 ^ 0). apply Z.pow_le_mono_r; lia.
  - destruct (double_until_pow fuel 0 n) as (j & Hj & Hrun & Hle & Hleast);
      [lia..|].
    exists (2 ^ j). split; [exact Hrun|]. split; [|lia].
    split; [exists j; split; [lia|reflexivity]|]. split; [exact Hle|].
    intros q (k & Hk & ->) Hq.
    destruct Hleast as [->|Hleast].
    + apply Z.pow_le_mono_r; lia.
    + assert (j - 1 < k); [|apply Z.pow_le_mono_r; lia].
      destruct (Z.lt_ge_cases (j - 1) 0) as [|Hj0]; [lia|].
      apply pow2_lt_inv; lia.
Qed.

(** Once the wrapped doubling reaches 0 the loop never leaves. *)
Lemma double_until_zero fuel n : 0 < n -> double_until fuel 0 n = None.
Proof.
  intros Hn. induction fuel as [|fuel IH]; [reflexivity|].
  rewrite double_until_step.
  destruct (Z.ltb_spec 0 n); [|lia]. exact IH.
Qed.

Lemma double_until_diverges_back power n :
  power < n ->
  (forall fuel, double_until fuel (wrap_int (power * 2)) n = None) ->
  forall fuel, double_until fuel power n = None.
Proof.
  intros Hlt Hnext [|fuel]; [reflexivity|].
  rewrite double_until_step.
  destruct (Z.ltb_spec power n); [apply Hnext|lia].
Qed.

Lemma next_power_of_2_overflow fuel : next_power_of_2 fuel (2 ^ 30 + 1) = None.
Proof.
  unfold next_power_of_2.
  change (2 ^ 30 + 1 <=? 0) with false. cbv iota.
  revert fuel.
  do 32 (apply double_until_diverges_back; [reflexivity|];
         match goal with
         | |- context [wrap_int ?e] =>
             let v := eval vm_compute in (wrap_int e) in
             change (wrap_int e) with v
         end).
  intros fuel. apply double_until_zero. reflexivity.
Qed.

End NextPowerOf2.

(** C9 (as amended).  For every [int] [n] up to [2 ^ 30], [next_power_of_2]
    returns the least power of two that is at least [n], which is 1 when
    [n <= 0]; and a job whose image has [n] as its larger side reports, when
    it reports success, that power of two as both its width and its height.
    The loop needs at most 31 rounds. *)
Theorem next_power_of_2_spec (fuel : nat) (n : Z) :
  (31 <= fuel)%nat -> (n <= 2 ^ 30)%Z ->
  exists p,
    next_power_of_2 fuel n = Some p /\
    least_power_of_2_ge n p /\
    ((n <= 0)%Z -> p = 1%Z) /\
    forall zlib vnew vsave task config total w w1 image,
      vnew (input_path task) w = (Ok image, w1) ->
      Z.max (image_width image) (image_height image) = n ->
      exists r w',
        process_image zlib vnew vsave fuel task config total w = Some (r, w') /\
        (success r = true -> width r = p /\ height r = p).
Proof.
  intros Hfuel Hn.
  destruct (next_power_of_2_least fuel n Hn Hfuel) as (p & Hrun & Hleast & Hone).
  exists p. split; [exact Hrun|]. split; [exact Hleast|]. split; [exact Hone|].
  intros zlib vnew vsave task config total w w1 image Hload Hmax.
  unfold process_image. rewrite Hload, Hmax, Hrun.
  destruct (vsave _ _ _ _ _ _ w1) as [[[]|e] w2].
  - destruct (tile_and_pack _ _ _ _ _) as [[[]|e] w3];
      eexists _, _; (split; [reflexivity|]); cbn; auto.
  - eexists _, _; split; [reflexivity|]. cbn. discriminate.
Qed.

Lemma next_power_of_2_spec_witness :
  exists p, next_power_of_2 31 1000 = Some p /\ least_power_of_2_ge 1000 p.
Proof.
  destruct (next_power_of_2_spec 31 1000) as (p & Hrun & Hleast & _).
  - lia.
  - vm_compute. discriminate.
  - exists p. split; assumption.
Defined.

(** C9, as stated, fails above [2 ^ 30]: the least power of two that is at
    least [2 ^ 30 + 1] does not fit an [int], the doubling wraps to 0 and the
    loop never returns. *)
Lemma next_power_of_2_above_2_30 :
  ~ exists fuel p, next_power_of_2 fuel (2 ^ 30 + 1) = Some p.
Proof.
  intros (fuel & p & H). rewrite next_power_of_2_overflow in H. discriminate.
Qed.

(* ================================================================= *)
(** ** read_tasks *)

Section ReadTasks.

Lemma getline_getlines s :
  getlines s = match getline s with
               | None => []
               | Some (l, r) => l :: getlines r
               end.
Proof.
  destruct s as [|c s]; [reflexivity|].
  unfold getline. revert c.
  induction s as [|c' s IH]; intros c.
  - cbn. destruct (Ascii.eqb c "010"%char); reflexivity.
  - cbn [take_line getlines]. specialize (IH c').
    cbn [take_line getlines] in IH.
    destruct (Ascii.eqb c "010"%char); [reflexivity|].
    rewrite IH.
    destruct (Ascii.eqb c' "010"%char); [reflexivity|].
    destruct (take_line s) as [l r]. reflexivity.
Qed.

Lemma take_line_shorter s l r :
  take_line s = (l, r) -> String.length r <= String.length s.
Proof.
  revert l r. induction s as [|c s IH]; intros l r; cbn.
  - intros [= <- <-]. cbn. lia.
  - destruct (Ascii.eqb c "010"%char).
    + intros [= <- <-]. lia.
    + destruct (take_line s) as [l' r'] eqn:E. intros [= <- <-].
      specialize (IH _ _ eq_refl). lia.
Qed.

Lemma getline_shorter s l r :
  getline s = Some (l, r) -> String.length r < String.length s.
Proof.
  destruct s as [|c s]; [discriminate|].
  unfold getline. cbn [take_line].
  destruct (Ascii.eqb c "010"%char).
  - intros [= <- <-]. cbn. lia.
  - destruct (take_line s) as [l' r'] eqn:E. intros [= <- <-].
    apply take_line_shorter in E. cbn. lia.
Qed.

Lemma read_loop_pairs fuel : forall inputs outputs idx tasks,
  String.length inputs < fuel ->
  map task_paths (read_loop fuel inputs outputs idx tasks) =
    map task_paths tasks
    ++ filter both_nonempty (zip (getlines inputs) (getlines outputs)).
Proof.
  induction fuel as [|fuel IH]; intros inputs outputs idx tasks Hfuel; [lia|].
  cbn [read_loop].
  rewrite (getline_getlines inputs), (getline_getlines outputs).
  destruct (getline inputs) as [[l1 r1]|] eqn:E1;
    [|cbn; now rewrite app_nil_r].
  destruct (getline outputs) as [[l2 r2]|] eqn:E2;
    [|cbn; now rewrite app_nil_r].
  apply getline_shorter in E1.
  cbn [zip zip_with].
  destruct (negb (empty l1) && negb (empty l2)) eqn:E.
  - rewrite IH by lia. rewrite map_app, <- app_assoc.
    rewrite filter_cons_True; [reflexivity|].
    unfold both_nonempty. cbn [fst snd]. now rewrite E.
  - rewrite IH by lia.
    rewrite filter_cons_False; [reflexivity|].
    unfold both_nonempty. cbn [fst snd]. now rewrite E.
Qed.

Lemma filter_all_nonempty (l : list (string * string)) :
  Forall (fun pr => both_nonempty pr = true) l -> filter both_nonempty l = l.
Proof.
  induction 1 as [|x l Hx _ IH]; [reflexivity|].
  rewrite filter_cons, decide_True by (now apply Is_true_true).
  now rewrite IH.
Qed.

End ReadTasks.

(** C8, with empty for blank.  [read_tasks] pairs the lines of the two
    files by position, keeps the pairs in which neither line is empty, and
    stops with the shorter file: without empty lines there are as many tasks
    as the shorter file has lines.  A line that holds white space only is
    not empty. *)
Theorem read_tasks_pairs (input_file output_file : string) (w : world)
    (inputs outputs : string) :
  ifstream_open (files w) input_file = Some inputs ->
  ifstream_open (files w) output_file = Some outputs ->
  exists tasks,
    read_tasks input_file output_file w = (Ok tasks, w) /\
    map task_paths tasks =
      filter both_nonempty (zip (getlines inputs) (getlines outputs)) /\
    (Forall (fun l => empty l = false) (getlines inputs) ->
     Forall (fun l => empty l = false) (getlines outputs) ->
     length tasks = min (length (getlines inputs)) (length (getlines outputs))).
Proof.
  intros Hin Hout. eexists. split; [|split].
  - unfold read_tasks, bind, get_files. rewrite Hin, Hout. reflexivity.
  - rewrite read_loop_pairs by lia. reflexivity.
  - intros Hi Ho.
    rewrite <- (length_map task_paths), read_loop_pairs by lia.
    cbn [map app]. rewrite filter_all_nonempty, length_zip; [reflexivity|].
    clear Hin Hout. revert Ho. generalize (getlines outputs).
    induction Hi as [|l1 ls1 H1 _ IH]; intros ls2 Ho; [constructor|].
    destruct Ho as [|l2 ls2 H2 Ho]; [constructor|].
    cbn. constructor; [|now apply IH].
    unfold both_nonempty. cbn. now rewrite H1, H2.
Qed.

Lemma read_tasks_pairs_witness :
  exists tasks,
    read_tasks "inputs.txt" "outputs.txt" five_and_three
      = (Ok tasks, five_and_three) /\
    length tasks = 3.
Proof.
  destruct (read_tasks_pairs "inputs.txt" "outputs.txt" five_and_three
              _ _ eq_refl eq_refl) as (tasks & Hrun & _ & Hlen).
  exists tasks. split; [exact Hrun|].
  rewrite Hlen; [reflexivity| |]; vm_compute; repeat constructor.
Defined.

(** C8, as stated, fails on a blank line that is not empty: a line of one
    space and a line that holds a carriage return are blank, and each makes
    a task with its output line, so that three tasks come out where the
    claim counts one. *)
Lemma blank_line_makes_a_task :
  blank " " = true /\ blank cr = true /\
  read_tasks "inputs.txt" "outputs.txt" blank_lines_world
  = (Ok [ {| input_path := " "; output_path := "/out/a"; index := 0 |};
          {| input_path := cr; output_path := "/out/b"; index := 1 |};
          {| input_path := "/img/c.png"; output_path := "/out/c"; index := 2 |} ],
     blank_lines_world).
Proof. vm_compute. auto. Qed.

(* ================================================================= *)
(** ** Vector sizes *)

Section Sizes.
Local Open Scope Z_scope.

Lemma vsize_app {A} (l k : list A) : vsize (l ++ k) = vsize l + vsize k.
Proof. unfold vsize. rewrite length_app. lia. Qed.

Lemma vsize_cons {A} (x : A) (l : list A) : vsize (x :: l) = 1 + vsize l.
Proof. unfold vsize. cbn [length]. lia. Qed.

Lemma vsize_nonneg {A} (v : list A) : 0 <= vsize v.
Proof. unfold vsize. lia. Qed.

End Sizes.

(* ================================================================= *)
(** ** The scheduling loop *)

Section Scheduler.
Local Open Scope Z_scope.

Variable nthreads : Z.
Hypothesis nthreads_pos : 1 <= nthreads.

Lemma sched_inv_init tasks : sched_inv nthreads (sched_init tasks).
Proof using nthreads_pos.
  unfold sched_inv, sched_init; cbn.
  repeat split; try constructor; try (intros j Hj; inversion Hj).
  unfold vsize; cbn; lia.
Qed.

Lemma sched_inv_step s s' :
  sched_inv nthreads s -> main_step nthreads s s' -> sched_inv nthreads s'.
Proof.
  intros (Hr & Hf & Hsub & Hfresh & Hpos) Hstep.
  destruct Hstep; unfold sched_inv in *; cbn in *.
  - (* a job is launched *)
    assert (Hn : n ∉ fs) by (intros Hin; apply Hfresh in Hin; lia).
    repeat split.
    + constructor; [|assumption]. intros Hin. apply Hn, Hsub, Hin.
    + apply NoDup_app. repeat split; [assumption| |apply NoDup_singleton].
      intros j Hj ->%list_elem_of_singleton. contradiction.
    + intros j [->|Hj]%elem_of_cons; apply elem_of_app;
        [right; apply list_elem_of_singleton; reflexivity|left; auto].
    + intros j [Hj| ->%list_elem_of_singleton]%elem_of_app;
        [apply Hfresh in Hj|]; lia.
    + rewrite vsize_app. unfold vsize at 2. cbn. lia.
  - repeat split; try assumption. lia.
  - apply NoDup_cons in Hf as [Hfn Hf].
    repeat split; try assumption.
    + intros j Hj. specialize (Hsub j Hj).
      apply elem_of_cons in Hsub as [->|]; [contradiction|assumption].
    + intros j Hj. apply Hfresh. now right.
    + rewrite vsize_cons in Hpos. lia.
  - repeat split; try assumption.
    + now apply NoDup_filter.
    + intros k [_ Hk]%list_elem_of_filter. auto.
  - repeat split; assumption.
  - repeat split; assumption.
  - repeat split; assumption.
Qed.

Lemma reachable_inv tasks s : reachable nthreads tasks s -> sched_inv nthreads s.
Proof using nthreads_pos.
  induction 1; [apply sched_inv_init|eapply sched_inv_step; eassumption].
Qed.

Lemma sched_inv_bound s : sched_inv nthreads s -> in_flight s <= vsize (futures s).
Proof.
  intros (Hr & _ & Hsub & _). unfold in_flight, vsize.
  apply inj_le, submseteq_length, NoDup_submseteq; assumption.
Qed.

Lemma sched_inv_limit s : sched_inv nthreads s -> vsize (futures s) <= nthreads.
Proof. intros (_ & _ & _ & _ & Hpos). destruct (pos s); lia. Qed.

(** With the limit reached every future of the vector is still running. *)
Lemma sched_inv_full s j :
  sched_inv nthreads s -> in_flight s = nthreads -> j ∈ futures s -> j ∈ running s.
Proof.
  intros Hinv Hfull Hj.
  pose proof (sched_inv_limit s Hinv) as Hlim.
  destruct Hinv as (Hr & _ & Hsub & _).
  assert (Hperm : running s ≡ₚ futures s).
  { apply submseteq_length_Permutation.
    - apply NoDup_submseteq; assumption.
    - unfold in_flight, vsize in *. lia. }
  now rewrite Hperm.
Qed.

End Scheduler.

(** C7.  With a limit of at least one thread, no reachable state of the
    scheduling loop has more jobs in flight than the limit; and when the
    limit is reached, the only step the system can take is the return of a
    job in flight: no job is admitted before that. *)
Theorem scheduler_respects_limit (nthreads : Z) (tasks : list ImageTask)
    (s : sched) :
  (1 <= nthreads)%Z ->
  reachable nthreads tasks s ->
  (in_flight s <= nthreads)%Z /\
  (in_flight s = nthreads ->
   forall s', main_step nthreads s s' -> job_return s s' /\ ~ admits s s').
Proof.
  intros Hpos Hreach.
  pose proof (reachable_inv nthreads Hpos tasks s Hreach) as Hinv.
  split.
  - pose proof (sched_inv_bound nthreads s Hinv).
    pose proof (sched_inv_limit nthreads s Hinv). lia.
  - intros Hfull s' Hstep.
    pose proof (sched_inv_bound nthreads s Hinv) as Hb.
    pose proof (fun j => sched_inv_full nthreads s j Hinv Hfull) as Hall.
    pose proof Hinv as (_ & _ & _ & _ & Hlim).
    clear Hinv. destruct Hstep; cbn in *.
    + lia.
    + lia.
    + exfalso. match goal with H : f ∉ rs |- _ => apply H end.
      apply (Hall f). now left.
    + split; [exists j; split; [assumption|reflexivity]|].
      unfold admits; cbn; lia.
    + lia.
    + lia.
    + lia.
Qed.

Lemma scheduler_respects_limit_witness :
  (in_flight two_in_flight <= 2)%Z /\
  forall s', main_step 2 two_in_flight s' ->
             job_return two_in_flight s' /\ ~ admits two_in_flight s'.
Proof.
  assert (Hreach : reachable 2 three_tasks two_in_flight).
  { eapply reach_step; [eapply reach_step; [eapply reach_step|]|].
    - apply reach_init.
    - apply step_launch.
    - apply step_below. vm_compute. intros H. apply H. reflexivity.
    - apply step_launch. }
  destruct (scheduler_respects_limit 2 three_tasks two_in_flight) as [Hle Hfull].
  - lia.
  - exact Hreach.
  - split; [exact Hle|]. apply Hfull. reflexivity.
Defined.

(* ================================================================= *)
(** ** The order of paths and the sort *)

Section Order.

Lemma lex_compare_total {A} (cmp : A -> A -> comparison) :
  total_compare cmp -> total_compare (lex_compare cmp).
Proof.
  intros [Heq Hrefl Hopp Htrans]. split.
  - intros l1. induction l1 as [|x l1 IH]; intros [|y l2]; cbn;
      try discriminate; [reflexivity|].
    destruct (cmp x y) eqn:E; try discriminate.
    intros H. apply Heq in E as ->. f_equal. now apply IH.
  - intros l. induction l as [|x l IH]; cbn; [reflexivity|].
    now rewrite Hrefl.
  - intros l1. induction l1 as [|x l1 IH]; intros [|y l2]; cbn;
      try reflexivity.
    rewrite (Hopp x y). destruct (cmp x y); cbn; auto.
  - intros l1. induction l1 as [|x l1 IH]; intros [|y l2] [|z l3]; cbn;
      try discriminate; try reflexivity.
    destruct (cmp x y) eqn:Exy; try discriminate;
      destruct (cmp y z) eqn:Eyz; try discriminate; intros H1 H2.
    + apply Heq in Exy as ->. rewrite Eyz. eapply IH; eassumption.
    + apply Heq in Exy as ->. now rewrite Eyz.
    + apply Heq in Eyz as ->. now rewrite Exy.
    + now rewrite (Htrans _ _ _ Exy Eyz).
Qed.

Lemma char_compare_total : total_compare char_compare.
Proof.
  unfold char_compare. split.
  - intros x y H%N.compare_eq.
    rewrite <- (ascii_N_embedding x), <- (ascii_N_embedding y). now f_equal.
  - intros x. apply N.compare_refl.
  - intros x y. apply N.compare_antisym.
  - intros x y z H1 H2. rewrite N.compare_lt_iff in *.
    eapply N.lt_trans; eassumption.
Qed.

Lemma list_ascii_of_string_inj a b :
  list_ascii_of_string a = list_ascii_of_string b -> a = b.
Proof.
  intros H. rewrite <- (string_of_list_ascii_of_string a),
    <- (string_of_list_ascii_of_string b). now f_equal.
Qed.

Lemma string_compare_total : total_compare string_compare.
Proof.
  destruct (lex_compare_total _ char_compare_total) as [Heq Hrefl Hopp Htrans].
  unfold string_compare. split; eauto using list_ascii_of_string_inj.
Qed.

Lemma path_compare_total : total_compare path_compare.
Proof. apply lex_compare_total, string_compare_total. Qed.

#[global] Instance path_le_trans : Transitive path_le.
Proof.
  destruct path_compare_total as [Heq Hrefl Hopp Htrans].
  intros p q r. unfold path_le. intros Hpq Hqr.
  destruct (path_compare p q) eqn:Epq; [| |contradiction].
  - now apply Heq in Epq as ->.
  - destruct (path_compare q r) eqn:Eqr; [| |contradiction].
    + apply Heq in Eqr as <-. now rewrite Epq.
    + now rewrite (Htrans _ _ _ Epq Eqr).
Qed.

#[global] Instance path_le_antisym : AntiSymm eq path_le.
Proof.
  destruct path_compare_total as [Heq Hrefl Hopp Htrans].
  intros p q. unfold path_le. rewrite (Hopp p q).
  destruct (path_compare p q) eqn:E; cbn; intros H1 H2;
    [now apply Heq|contradiction|contradiction].
Qed.

#[global] Instance path_le_total : Total path_le.
Proof.
  destruct path_compare_total as [Heq Hrefl Hopp Htrans].
  intros p q. unfold path_le. rewrite (Hopp p q).
  destruct (path_compare p q); cbn; [left|left|right]; discriminate.
Qed.

Lemma sort_paths_sorted l : Sorted path_le (sort_paths l).
Proof. apply Sorted_merge_sort, _. Qed.

Lemma sort_paths_perm l : sort_paths l ≡ₚ l.
Proof. apply merge_sort_Permutation. Qed.

(** Whatever algorithm [std::sort] runs, it returns this list: a sorted
    arrangement of the same paths is unique. *)
Lemma sort_paths_unique l l' :
  Sorted path_le l' -> l' ≡ₚ l -> l' = sort_paths l.
Proof.
  intros Hs Hp. apply (Sorted_unique path_le); [assumption|apply sort_paths_sorted|].
  now rewrite Hp, sort_paths_perm.
Qed.

Lemma sort_paths_permutation l k : l ≡ₚ k -> sort_paths l = sort_paths k.
Proof.
  intros Hp. apply sort_paths_unique; [apply sort_paths_sorted|].
  now rewrite sort_paths_perm.
Qed.

Lemma elem_of_sort_paths p l : p ∈ sort_paths l <-> p ∈ l.
Proof. now rewrite sort_paths_perm. Qed.

End Order.

(* ================================================================= *)
(** ** The file system *)

Section FileSystem.

Lemma filename_snoc p n : filename (p ++ [n]) = n.
Proof. apply List.last_last. Qed.

Lemma parent_path_snoc p n : parent_path (p ++ [n]) = p.
Proof. apply removelast_last. Qed.

Lemma dir_lookup_set_eq n c es : dir_lookup n (dir_set n c es) = Some c.
Proof.
  induction es as [|[m c'] es IH]; cbn.
  - now rewrite String.eqb_refl.
  - destruct (String.eqb_spec n m) as [->|Hne]; cbn.
    + now rewrite String.eqb_refl.
    + destruct (String.eqb_spec n m); [contradiction|exact IH].
Qed.

Lemma dir_lookup_set_ne n m c es :
  n <> m -> dir_lookup m (dir_set n c es) = dir_lookup m es.
Proof.
  intros Hne. induction es as [|[k c'] es IH]; cbn.
  - destruct (String.eqb_spec m n); [congruence|reflexivity].
  - destruct (String.eqb_spec n k) as [->|Hnk]; cbn.
    + destruct (String.eqb_spec m k); [congruence|reflexivity].
    + destruct (String.eqb_spec m k); [reflexivity|exact IH].
Qed.

Lemma dir_set_set n c1 c2 es :
  dir_set n c2 (dir_set n c1 es) = dir_set n c2 es.
Proof.
  induction es as [|[k c'] es IH]; cbn.
  - now rewrite String.eqb_refl.
  - destruct (String.eqb_spec n k) as [->|Hnk]; cbn.
    + now rewrite String.eqb_refl.
    + destruct (String.eqb_spec n k); [contradiction|now rewrite IH].
Qed.

Lemma dir_lookup_elem n c es : dir_lookup n es = Some c -> (n, c) ∈ es.
Proof.
  induction es as [|[k c'] es IH]; cbn; [discriminate|].
  destruct (String.eqb_spec n k) as [->|Hnk].
  - intros [= ->]. now left.
  - intros H. right. now apply IH.
Qed.

Lemma elem_of_names n c (es : list (string * node)) :
  (n, c) ∈ es -> n ∈ map fst es.
Proof.
  intros H. apply list_elem_of_In, in_map_iff.
  exists (n, c). split; [reflexivity|now apply list_elem_of_In].
Qed.

Lemma dir_lookup_nodup n c es :
  NoDup (map fst es) -> (n, c) ∈ es -> dir_lookup n es = Some c.
Proof.
  induction es as [|[k c'] es IH]; cbn; intros Hnd Hin.
  - inversion Hin.
  - apply NoDup_cons in Hnd as [Hk Hnd].
    apply elem_of_cons in Hin as [[= -> ->]|Hin].
    + now rewrite String.eqb_refl.
    + destruct (String.eqb_spec n k) as [->|Hnk]; [|now apply IH].
      exfalso. apply Hk. eapply elem_of_names, Hin.
Qed.

Lemma elem_of_dir_set n c k v (es : list (string * node)) :
  (n, c) ∈ dir_set k v es -> (n = k /\ c = v) \/ (n, c) ∈ es.
Proof.
  induction es as [|[m c'] es IH]; cbn [dir_set].
  - intros [= -> ->]%list_elem_of_singleton. now left.
  - destruct (String.eqb_spec k m) as [->|Hne].
    + intros [[= -> ->]|Hin]%elem_of_cons; [now left|right; now right].
    + intros [[= -> ->]|Hin]%elem_of_cons; [right; now left|].
      destruct (IH Hin) as [?|?]; [now left|right; now right].
Qed.

Lemma dir_set_names n c es :
  map fst (dir_set n c es) =
    if bool_decide (n ∈ map fst es) then map fst es else map fst es ++ [n].
Proof.
  induction es as [|[k c'] es IH]; cbn; [reflexivity|].
  destruct (String.eqb_spec n k) as [->|Hnk]; cbn.
  - rewrite bool_decide_eq_true_2 by now left. reflexivity.
  - rewrite IH. destruct (bool_decide (n ∈ map fst es)) eqn:E.
    + apply bool_decide_eq_true_1 in E.
      rewrite bool_decide_eq_true_2 by now right. reflexivity.
    + apply bool_decide_eq_false_1 in E.
      rewrite bool_decide_eq_false_2; [reflexivity|].
      intros [?|?]%elem_of_cons; contradiction.
Qed.

Lemma dir_set_nodup n c es :
  NoDup (map fst es) -> NoDup (map fst (dir_set n c es)).
Proof.
  intros Hnd. rewrite dir_set_names.
  destruct (bool_decide (n ∈ map fst es)) eqn:E; [assumption|].
  apply bool_decide_eq_false_1 in E.
  apply NoDup_app. repeat split; [assumption| |apply NoDup_singleton].
  intros k Hk ->%list_elem_of_singleton. contradiction.
Qed.

Lemma fs_lookup_app fs p q :
  fs_lookup fs (p ++ q) =
    match fs_lookup fs p with
    | Some m => fs_lookup m q
    | None => None
    end.
Proof.
  revert fs. induction p as [|c p IH]; intros fs; cbn; [reflexivity|].
  destruct fs as [| es |]; try reflexivity.
  destruct (dir_lookup c es); [apply IH|reflexivity].
Qed.

Lemma fs_alter_inv f fs p fs' :
  fs_alter f fs p = Some fs' ->
  exists es es', fs_lookup fs p = Some (Dir es) /\ f es = Some es' /\
                 fs_lookup fs' p = Some (Dir es').
Proof.
  revert fs fs'. induction p as [|c p IH]; intros fs fs'; cbn.
  - destruct fs as [| es |]; try discriminate.
    destruct (f es) as [es'|] eqn:E; [|discriminate].
    intros [= <-]. eauto.
  - destruct fs as [| es |]; try discriminate.
    destruct (dir_lookup c es) as [m|] eqn:Ec; [|discriminate].
    destruct (fs_alter f m p) as [m'|] eqn:Em; [|discriminate].
    intros [= <-]. destruct (IH _ _ Em) as (es0 & es1 & H1 & H2 & H3).
    exists es0, es1. cbn. rewrite dir_lookup_set_eq. auto.
Qed.

Lemma fs_alter_spec f fs p es es' :
  fs_lookup fs p = Some (Dir es) -> f es = Some es' ->
  exists fs', fs_alter f fs p = Some fs' /\ fs_lookup fs' p = Some (Dir es').
Proof.
  revert fs. induction p as [|c p IH]; intros fs; cbn.
  - intros [= ->] ->. eauto.
  - destruct fs as [| es0 |]; try discriminate.
    destruct (dir_lookup c es0) as [m|] eqn:Ec; [|discriminate].
    intros Hm Hf. destruct (IH _ Hm Hf) as (m' & -> & Hl).
    eexists. split; [reflexivity|]. cbn. now rewrite dir_lookup_set_eq.
Qed.

Lemma wfb_dir es :
  wfb (Dir es) = true ->
  NoDup (map fst es) /\ forall n c, (n, c) ∈ es -> wfb c = true.
Proof.
  cbn [wfb]. intros [Hnd Hall]%andb_prop. split.
  - now apply bool_decide_eq_true_1 in Hnd.
  - clear Hnd. induction es as [|[k c'] es IH]; intros n c Hin.
    + inversion Hin.
    + apply andb_prop in Hall as [Hc Hall].
      apply elem_of_cons in Hin as [[= -> ->]|Hin]; [assumption|].
      eapply IH; eassumption.
Qed.

Lemma wfb_lookup fs p m :
  wfb fs = true -> fs_lookup fs p = Some m -> wfb m = true.
Proof.
  revert fs. induction p as [|c p IH]; intros fs Hwf; cbn.
  - now intros [= <-].
  - destruct fs as [| es |]; try discriminate.
    destruct (dir_lookup c es) as [k|] eqn:Ec; [|discriminate].
    apply IH. apply wfb_dir in Hwf as [_ Hall].
    eapply Hall, dir_lookup_elem, Ec.
Qed.

End FileSystem.

(* ================================================================= *)
(** ** The effects of the stream and directory operations *)

Section Effects.

Variable folder : path.

Lemma dir_set_id n c es : dir_lookup n es = Some c -> dir_set n c es = es.
Proof.
  induction es as [|[k c'] es IH]; cbn; [discriminate|].
  destruct (String.eqb_spec n k) as [->|Hnk].
  - now intros [= ->].
  - intros H. now rewrite IH.
Qed.

Lemma dir_remove_cons n k c es :
  dir_remove n ((k, c) :: es) =
    if String.eqb n k then dir_remove n es else (k, c) :: dir_remove n es.
Proof.
  unfold dir_remove. destruct (String.eqb n k) eqn:E.
  - rewrite filter_cons_False; [reflexivity|]. cbn. now rewrite E.
  - rewrite filter_cons_True; [reflexivity|]. cbn. now rewrite E.
Qed.

Lemma dir_remove_absent n es : dir_lookup n es = None -> dir_remove n es = es.
Proof.
  induction es as [|[k c'] es IH]; [reflexivity|].
  rewrite dir_remove_cons. cbn [dir_lookup].
  destruct (String.eqb n k); [discriminate|].
  intros H. now rewrite IH.
Qed.

Lemma dir_lookup_remove_eq n es : dir_lookup n (dir_remove n es) = None.
Proof.
  induction es as [|[k c'] es IH]; [reflexivity|].
  rewrite dir_remove_cons.
  destruct (String.eqb n k) eqn:E; [exact IH|].
  cbn [dir_lookup]. now rewrite E.
Qed.

Lemma dir_lookup_remove_ne n m es :
  n <> m -> dir_lookup m (dir_remove n es) = dir_lookup m es.
Proof.
  intros Hne. induction es as [|[k c'] es IH]; [reflexivity|].
  rewrite dir_remove_cons. cbn [dir_lookup].
  destruct (String.eqb_spec n k) as [->|Hnk].
  - destruct (String.eqb_spec m k); [congruence|exact IH].
  - cbn [dir_lookup]. now rewrite IH.
Qed.

Lemma ofstream_open_inv name w good w' :
  ofstream_open (folder ++ [name]) w = (Ok good, w') ->
  completed_count w' = completed_count w /\
  if good
  then exists es es1, at_folder w folder es /\
         truncate_entry name es = Some es1 /\ at_folder w' folder es1
  else w' = w.
Proof.
  unfold ofstream_open. rewrite filename_snoc, parent_path_snoc.
  destruct (fs_alter _ _ _) as [n|] eqn:E; intros [= <- <-].
  - split; [reflexivity|]. apply fs_alter_inv in E as (es & es1 & ? & ? & ?).
    exists es, es1. auto.
  - split; reflexivity.
Qed.

Lemma ofstream_open_result p w : exists good w', ofstream_open p w = (Ok good, w').
Proof. unfold ofstream_open. destruct (fs_alter _ _ _); eauto. Qed.

Lemma ofstream_write_spec name data w es r d :
  at_folder w folder es ->
  dir_lookup name es = Some (File r d) ->
  exists w', ofstream_write (folder ++ [name]) data w = (Ok tt, w') /\
    at_folder w' folder (dir_set name (File r (d ++ data)) es) /\
    completed_count w' = completed_count w.
Proof.
  intros Hat Hname. unfold ofstream_write.
  rewrite filename_snoc, parent_path_snoc.
  destruct (fs_alter_spec (append_entry name data) (files w) folder es
              (dir_set name (File r (d ++ data)) es) Hat) as (n & -> & Hn).
  { unfold append_entry. now rewrite Hname. }
  eexists. split; [reflexivity|]. split; [exact Hn|reflexivity].
Qed.

Lemma set_entries_spec w es es' :
  at_folder w folder es ->
  exists w', set_entries folder es' w = (Ok tt, w') /\
    at_folder w' folder es' /\ completed_count w' = completed_count w.
Proof.
  intros Hat. unfold set_entries.
  destruct (fs_alter_spec (fun _ => Some es') (files w) folder es es' Hat eq_refl)
    as (n & -> & Hn).
  eexists. split; [reflexivity|]. split; [exact Hn|reflexivity].
Qed.

Lemma fs_remove_spec name w es :
  at_folder w folder es ->
  exists w', fs_remove (folder ++ [name]) w = (Ok tt, w') /\
    at_folder w' folder (dir_remove name es) /\
    completed_count w' = completed_count w.
Proof.
  intros Hat. unfold fs_remove. rewrite filename_snoc, parent_path_snoc.
  destruct (fs_alter_spec (fun es => Some (dir_remove name es)) (files w)
              folder es _ Hat eq_refl) as (n & -> & Hn).
  eexists. split; [reflexivity|]. split; [exact Hn|reflexivity].
Qed.

Lemma lookup_in_folder w es q :
  at_folder w folder es ->
  fs_lookup (files w) (folder ++ q) = fs_lookup (Dir es) q.
Proof. intros Hat. rewrite fs_lookup_app. unfold at_folder in Hat. now rewrite Hat. Qed.

Lemma at_folder_inj w es es' :
  at_folder w folder es -> at_folder w folder es' -> es = es'.
Proof. unfold at_folder. congruence. Qed.

(** A clean-up that returns leaves [clean_up es]. *)
Lemma remove_tiles_inv w es w' :
  at_folder w folder es ->
  remove_tiles folder w = (Ok tt, w') ->
  at_folder w' folder (clean_up es) /\
  completed_count w' = completed_count w.
Proof.
  intros Hat. unfold remove_tiles, bind, directory_iterator, get_files.
  unfold at_folder in Hat. rewrite Hat.
  destruct (set_entries_spec w es (remove_level_dirs es) Hat)
    as (w1 & -> & Hat1 & Hc1).
  rewrite (lookup_in_folder w1 _ ["blank.png"] Hat1). cbn [fs_lookup].
  unfold clean_up.
  destruct (dir_lookup "blank.png" (remove_level_dirs es)) as [m|] eqn:Eb.
  - destruct (fs_remove_spec "blank.png" w1 _ Hat1) as (w2 & Hrm & Hat2 & Hc2).
    destruct m as [r d|[|e es']|]; unfold throw; rewrite ?Hrm;
      intros [= <-] || intros [=]; split; congruence.
  - unfold ret. intros [= <-].
    rewrite dir_remove_absent by assumption. split; assumption.
Qed.

End Effects.

(* ================================================================= *)
(** ** Discovery *)

Section Discovery.

Lemma elem_of_collect_tiles y_path es p :
  p ∈ collect_tiles y_path es <->
  exists f c, (f, c) ∈ es /\ is_regular_file c = true /\
              is_tile_ext (extension f) = true /\ p = y_path ++ [f].
Proof.
  unfold collect_tiles. rewrite list_elem_of_bind. split.
  - intros ([f c] & Hp & Hin). cbn [fst snd] in Hp.
    destruct (is_regular_file c && is_tile_ext (extension f)) eqn:E;
      [|inversion Hp].
    apply andb_prop in E as [? ?].
    apply list_elem_of_singleton in Hp. eauto 8.
  - intros (f & c & Hin & Hreg & Hext & ->). exists (f, c).
    split; [|assumption]. cbn [fst snd]. rewrite Hreg, Hext. now left.
Qed.

Lemma elem_of_collect_rows level_path es p :
  p ∈ collect_rows level_path es <->
  exists r tiles, (r, Dir tiles) ∈ es /\
                  p ∈ collect_tiles (level_path ++ [r]) tiles.
Proof.
  unfold collect_rows. rewrite list_elem_of_bind. split.
  - intros ([r c] & Hp & Hin). cbn [fst snd] in Hp.
    destruct c as [| tiles |]; try (now inversion Hp). eauto.
  - intros (r & tiles & Hin & Hp). exists (r, Dir tiles). auto.
Qed.

Lemma elem_of_collect_levels tile_folder es p :
  p ∈ collect_levels tile_folder es <->
  exists l rows, (l, Dir rows) ∈ es /\ all_digits l = true /\
                 p ∈ collect_rows (tile_folder ++ [l]) rows.
Proof.
  unfold collect_levels. rewrite list_elem_of_bind. split.
  - intros ([l c] & Hp & Hin). cbn [fst snd] in Hp.
    destruct c as [| rows |]; try (now inversion Hp).
    destruct (all_digits l) eqn:E; [|now inversion Hp]. eauto 6.
  - intros (l & rows & Hin & Hd & Hp). exists (l, Dir rows).
    cbn [fst snd]. rewrite Hd. auto.
Qed.

(** A tile path found by the loops, with the entries it was found in. *)
Lemma collect_levels_inv tile_folder es p :
  p ∈ collect_levels tile_folder es ->
  exists l rows r tiles f c,
    (l, Dir rows) ∈ es /\ all_digits l = true /\
    (r, Dir tiles) ∈ rows /\
    (f, c) ∈ tiles /\ is_regular_file c = true /\
    is_tile_ext (extension f) = true /\
    p = tile_folder ++ [l; r; f].
Proof.
  intros (l & rows & Hl & Hd & Hp)%elem_of_collect_levels.
  apply elem_of_collect_rows in Hp as (r & tiles & Hr & Hp).
  apply elem_of_collect_tiles in Hp as (f & c & Hf & Hreg & Hext & ->).
  exists l, rows, r, tiles, f, c. repeat split; try assumption.
  now rewrite <- !app_assoc.
Qed.

(** The blob file that [ofstream] creates or empties in the tile folder is
    not a directory, and does not change what the loops find. *)
Lemma collect_levels_set_file tile_folder name r d es :
  (forall rows, dir_lookup name es <> Some (Dir rows)) ->
  collect_levels tile_folder (dir_set name (File r d) es)
  = collect_levels tile_folder es.
Proof.
  unfold collect_levels.
  induction es as [|[k c] es IH]; intros Hname; cbn [dir_set].
  - reflexivity.
  - cbn [dir_lookup] in Hname. destruct (String.eqb_spec name k) as [->|Hnk].
    + destruct c as [| rows |]; [reflexivity| |reflexivity].
      now destruct (Hname rows).
    + cbn [mbind list_bind]. cbn [mbind list_bind] in IH.
      now rewrite IH.
Qed.

End Discovery.

(* ================================================================= *)
(** ** The packing loop and merge_tiles_to_binary *)

Section Packer.

Variable zlib : list byte -> deflate_outcome.
Variable folder : path.
Variable name : string.

Lemma pack_pure_ext read1 read2 tile_files :
  (forall p, p ∈ tile_files -> read1 p = read2 p) ->
  forall off tm,
    pack_pure zlib read1 name tile_files off tm
    = pack_pure zlib read2 name tile_files off tm.
Proof.
  induction tile_files as [|p rest IH]; intros Hread off tm; [reflexivity|].
  cbn [pack_pure]. rewrite (Hread p) by now left.
  destruct (gzip_compress zlib (read2 p)); [|reflexivity].
  rewrite IH; [reflexivity|]. intros q Hq. apply Hread. now right.
Qed.

(** Writing the blob changes no tile file. *)
Lemma read_all_frame w w' es es' l q :
  at_folder w folder es -> at_folder w' folder es' ->
  dir_lookup l es' = dir_lookup l es ->
  read_all (files w') (folder ++ l :: q) = read_all (files w) (folder ++ l :: q).
Proof.
  intros Hat Hat' Hl. unfold read_all.
  rewrite (lookup_in_folder folder w es), (lookup_in_folder folder w' es')
    by assumption.
  cbn [fs_lookup]. now rewrite Hl.
Qed.

(** The loop of the packer computes [pack_pure] of what the tile files
    held when it started, and appends its bytes to the blob. *)
Lemma pack_tiles_run tile_files : forall off tm w es rd acc,
  at_folder w folder es ->
  dir_lookup name es = Some (File rd acc) ->
  (forall p, p ∈ tile_files -> exists l q, p = folder ++ l :: q /\ l <> name) ->
  exists w',
    pack_tiles zlib (folder ++ [name]) name tile_files off tm w
    = ((pack_pure zlib (read_all (files w)) name tile_files off tm).1, w') /\
    at_folder w' folder
      (dir_set name
         (File rd (acc ++ (pack_pure zlib (read_all (files w)) name
                             tile_files off tm).2)) es) /\
    completed_count w' = completed_count w.
Proof.
  induction tile_files as [|p rest IH]; intros off tm w es rd acc Hat Hblob Hpaths.
  - exists w. cbn. rewrite app_nil_r, dir_set_id by assumption. auto.
  - cbn [pack_tiles pack_pure].
    unfold bind at 1. unfold ifstream_read_all.
    unfold bind at 1. unfold lift_result.
    destruct (gzip_compress zlib (read_all (files w) p)) as [c|e].
    + unfold bind at 1.
      destruct (ofstream_write_spec folder name c w es rd acc Hat Hblob)
        as (w1 & -> & Hat1 & Hc1).
      destruct (IH (size_t_add off (vsize c))
                  (tm ++ [{| key := tile_key p; binary_name := name;
                             start_offset := off; byte_size := vsize c |}])
                  w1 _ rd (acc ++ c) Hat1 (dir_lookup_set_eq _ _ _))
        as (w' & Hrun & Hat' & Hc').
      { intros q Hq. apply Hpaths. now right. }
      rewrite (pack_pure_ext (read_all (files w1)) (read_all (files w)))
        in Hrun, Hat'.
      2,3: intros q Hq; destruct (Hpaths q) as (l & q' & -> & Hne);
           [now right|];
           apply (read_all_frame w w1 es _ l q' Hat Hat1);
           now apply dir_lookup_set_ne.
      exists w'. rewrite Hrun.
      destruct (pack_pure zlib (read_all (files w)) name rest _ _) as [r blob].
      cbn [fst snd] in *. rewrite dir_set_set, <- app_assoc in Hat'.
      split; [reflexivity|]. split; [exact Hat'|congruence].
    + exists w. cbn [fst snd]. rewrite app_nil_r, dir_set_id by assumption.
      auto.
Qed.

End Packer.

Section Merge.

Variable zlib : list byte -> deflate_outcome.
Variable folder : path.
Variable name : string.

Lemma truncate_entry_inv es es1 :
  truncate_entry name es = Some es1 ->
  es1 = dir_set name (File (created_mode name es) []) es /\
  forall rows, dir_lookup name es <> Some (Dir rows).
Proof.
  unfold truncate_entry, created_mode.
  destruct (dir_lookup name es) as [[r d| |]|]; intros [= <-];
    (split; [reflexivity|]); discriminate.
Qed.

Lemma wfb_at_folder w es :
  wfb (files w) = true -> at_folder w folder es ->
  NoDup (map fst es) /\ forall n c, (n, c) ∈ es -> wfb c = true.
Proof. intros Hwf Hat. eapply wfb_dir, wfb_lookup; eassumption. Qed.

(** A tile path found in a well-formed tile folder does not go through the
    name of the blob. *)
Lemma collected_off_blob es p :
  NoDup (map fst es) ->
  (forall rows, dir_lookup name es <> Some (Dir rows)) ->
  p ∈ collect_levels folder es ->
  exists l q, p = folder ++ l :: q /\ l <> name.
Proof.
  intros Hnd Hname (l & rows & r & tiles & f & c & Hl & _ & _ & _ & _ & _ & ->)
    %collect_levels_inv.
  exists l, [r; f]. split; [reflexivity|]. intros ->.
  apply (Hname rows). now apply dir_lookup_nodup.
Qed.

(** What a call of [merge_tiles_to_binary] that returns has done. *)
Lemma merge_run keep w tiles w' :
  wfb (files w) = true ->
  merge_tiles_to_binary zlib folder name keep w = (Ok tiles, w') ->
  exists es blob,
    at_folder w folder es /\
    (forall rows, dir_lookup name es <> Some (Dir rows)) /\
    pack_pure zlib (read_all (files w)) name
      (sort_paths (collect_levels folder es)) 0 [] = (Ok tiles, blob) /\
    at_folder w' folder
      (let es2 := dir_set name (File (created_mode name es) blob) es in
       if keep then es2 else clean_up es2) /\
    completed_count w' = completed_count w.
Proof.
  intros Hwf. unfold merge_tiles_to_binary. unfold bind at 1.
  destruct (ofstream_open_result (folder ++ [name]) w) as (good & w1 & Hopen).
  rewrite Hopen. apply ofstream_open_inv in Hopen as [Hc1 Hgood].
  destruct good; cbn [negb]; [|discriminate].
  destruct Hgood as (es & es1 & Hat & Htrunc & Hat1).
  apply truncate_entry_inv in Htrunc as (-> & Hname).
  set (rd := created_mode name es) in *.
  destruct (wfb_at_folder w es Hwf Hat) as [Hnd _].
  unfold bind at 1. unfold directory_iterator.
  unfold at_folder in Hat1. rewrite Hat1.
  rewrite collect_levels_set_file by assumption.
  set (tile_files := sort_paths (collect_levels folder es)).
  assert (Hoff : forall p, p ∈ tile_files ->
                           exists l q, p = folder ++ l :: q /\ l <> name).
  { intros p Hp. subst tile_files. rewrite elem_of_sort_paths in Hp.
    eapply collected_off_blob; eassumption. }
  destruct (pack_tiles_run zlib folder name tile_files 0 [] w1 _ rd []
              Hat1 (dir_lookup_set_eq _ _ _) Hoff) as (w2 & Hrun & Hat2 & Hc2).
  rewrite (pack_pure_ext zlib name (read_all (files w1)) (read_all (files w)))
    in Hrun, Hat2.
  2,3: intros q Hq; destruct (Hoff q Hq) as (l & q' & -> & Hne);
       apply (read_all_frame folder w w1 es _ l q' Hat Hat1);
       now apply dir_lookup_set_ne.
  unfold bind at 1. rewrite Hrun.
  destruct (pack_pure zlib (read_all (files w)) name tile_files 0 [])
    as [[tm|e] blob] eqn:Hpure; cbn [fst snd] in *; [|discriminate].
  rewrite dir_set_set in Hat2. cbn [app] in Hat2.
  unfold bind. destruct keep; cbn [negb].
  - unfold ret. intros [= <- <-].
    exists es, blob.
    split; [exact Hat|]. split; [exact Hname|]. split; [exact Hpure|].
    split; [exact Hat2|congruence].
  - destruct (remove_tiles folder w2) as [[[]|e] w3] eqn:Hrm; [|discriminate].
    unfold ret. intros [= <- <-].
    destruct (remove_tiles_inv folder w2 _ w3 Hat2 Hrm) as [Hat3 Hc3].
    exists es, blob.
    split; [exact Hat|]. split; [exact Hname|]. split; [exact Hpure|].
    split; [exact Hat3|congruence].
Qed.

End Merge.

Section Returns.

Variable zlib : list byte -> deflate_outcome.
Variable folder : path.
Variable name : string.

Hypothesis zlib_total : forall data, exists c, zlib data = StreamEnd c.

Lemma pack_pure_total read tile_files : forall off tm,
  exists tiles blob, pack_pure zlib read name tile_files off tm = (Ok tiles, blob).
Proof using zlib_total.
  induction tile_files as [|p rest IH]; intros off tm; cbn [pack_pure]; [eauto|].
  unfold gzip_compress. destruct (zlib_total (read p)) as (c & ->).
  edestruct IH as (tiles & blob & ->). eauto.
Qed.

Lemma ofstream_open_spec w es es1 :
  at_folder w folder es -> truncate_entry name es = Some es1 ->
  exists w1, ofstream_open (folder ++ [name]) w = (Ok true, w1) /\
             at_folder w1 folder es1 /\
             completed_count w1 = completed_count w.
Proof.
  intros Hat Htrunc. unfold ofstream_open.
  rewrite filename_snoc, parent_path_snoc.
  destruct (fs_alter_spec (truncate_entry name) (files w) folder es es1 Hat Htrunc)
    as (n & -> & Hn).
  eexists. split; [reflexivity|]. split; [exact Hn|reflexivity].
Qed.

Lemma truncate_entry_some es :
  (forall c, dir_lookup name es = Some c -> is_regular_file c = true) ->
  exists es1, truncate_entry name es = Some es1.
Proof.
  unfold truncate_entry. intros Hfile.
  destruct (dir_lookup name es) as [[r d|sub|]|]; eauto;
    now specialize (Hfile _ eq_refl).
Qed.

Lemma dir_lookup_remove_level_dirs_inv n c es :
  dir_lookup n (remove_level_dirs es) = Some c -> (n, c) ∈ es.
Proof.
  intros H%dir_lookup_elem. unfold remove_level_dirs in H.
  now apply list_elem_of_filter in H as [_ H].
Qed.

(** A clean-up throws only on a [blank.png] that is a directory with
    entries. *)
Lemma remove_tiles_spec w es :
  at_folder w folder es ->
  (forall sub, (("blank.png" : string), Dir sub) ∉ es) ->
  exists w', remove_tiles folder w = (Ok tt, w').
Proof.
  intros Hat Hblank. unfold remove_tiles, bind, directory_iterator, get_files.
  unfold at_folder in Hat. rewrite Hat.
  destruct (set_entries_spec folder w es (remove_level_dirs es) Hat)
    as (w1 & -> & Hat1 & Hc1).
  rewrite (lookup_in_folder folder w1 _ ["blank.png"] Hat1). cbn [fs_lookup].
  destruct (dir_lookup "blank.png" (remove_level_dirs es)) as [m|] eqn:Eb.
  - destruct (fs_remove_spec folder "blank.png" w1 _ Hat1) as (w2 & Hrm & _).
    destruct m as [r d|[|e es']|]; rewrite ?Hrm; eauto.
    apply dir_lookup_remove_level_dirs_inv in Eb. now destruct (Hblank _ Eb).
  - unfold ret. eauto.
Qed.

(** The packer returns whenever the blob can be created, the compressor
    succeeds and the clean-up has no directory [blank.png] to remove. *)
Lemma merge_returns keep w es :
  wfb (files w) = true ->
  at_folder w folder es ->
  (forall c, dir_lookup name es = Some c -> is_regular_file c = true) ->
  (forall c, dir_lookup "blank.png" es = Some c -> is_directory c = false) ->
  exists tiles w', merge_tiles_to_binary zlib folder name keep w = (Ok tiles, w').
Proof using zlib_total.
  intros Hwf Hat Hfile Hblank.
  destruct (wfb_at_folder folder w es Hwf Hat) as [Hnd _].
  destruct (truncate_entry_some es Hfile) as (es1 & Htrunc).
  assert (Hdir : forall rows, dir_lookup name es <> Some (Dir rows)).
  { intros rows E. now specialize (Hfile _ E). }
  destruct (ofstream_open_spec w es es1 Hat Htrunc) as (w1 & Hopen & Hat1 & _).
  unfold merge_tiles_to_binary. unfold bind at 1. rewrite Hopen. cbn [negb].
  apply truncate_entry_inv in Htrunc as (-> & _).
  unfold bind at 1. unfold directory_iterator.
  unfold at_folder in Hat1. rewrite Hat1.
  rewrite collect_levels_set_file by assumption.
  set (tile_files := sort_paths (collect_levels folder es)).
  assert (Hoff : forall p, p ∈ tile_files ->
                           exists l q, p = folder ++ l :: q /\ l <> name).
  { intros p Hp. subst tile_files. rewrite elem_of_sort_paths in Hp.
    eapply collected_off_blob; eassumption. }
  destruct (pack_tiles_run zlib folder name tile_files 0 [] w1 _ _ []
              Hat1 (dir_lookup_set_eq _ _ _) Hoff) as (w2 & Hrun & Hat2 & _).
  destruct (pack_pure_total (read_all (files w1)) tile_files 0 [])
    as (tiles & blob & Hpure).
  rewrite Hpure in Hrun, Hat2. cbn [fst snd] in *.
  rewrite dir_set_set in Hat2.
  unfold bind at 1. rewrite Hrun. unfold bind, ret.
  destruct keep; cbn [negb]; [eauto|].
  destruct (remove_tiles_spec w2 _ Hat2) as (w3 & ->); [|eauto].
  intros sub [[_ [=]]|Hin]%elem_of_dir_set.
  apply (dir_lookup_nodup _ _ _ Hnd) in Hin. now specialize (Hblank _ Hin).
Qed.

End Returns.

(* ================================================================= *)
(** ** Offsets *)

Section Offsets.
Local Open Scope Z_scope.

Variable zlib : list byte -> deflate_outcome.

Lemma gzip_compress_ok data c :
  gzip_compress zlib data = Ok c -> zlib data = StreamEnd c.
Proof. unfold gzip_compress. destruct (zlib data); congruence. Qed.

(** The entries the loop adds: one per tile file in order, laid end to
    end from the current offset, together as long as the bytes appended
    to the blob. *)
Lemma pack_pure_ok read name tile_files :
  forall off tm tiles blob,
    pack_pure zlib read name tile_files off tm = (Ok tiles, blob) ->
    exists new,
      tiles = tm ++ new /\
      map key new = map tile_key tile_files /\
      total_size new = vsize blob /\
      (0 <= off -> off + total_size new <= SIZE_MAX -> contiguous_from off new) /\
      Forall2 (fun p t => exists c, zlib (read p) = StreamEnd c /\
                                    byte_size t = vsize c) tile_files new.
Proof.
  induction tile_files as [|p rest IH]; intros off tm tiles blob; cbn [pack_pure].
  - intros [= <- <-]. exists []. rewrite app_nil_r. cbn.
    repeat split; auto.
  - destruct (gzip_compress zlib (read p)) as [c|e] eqn:Ec; [|discriminate].
    destruct (pack_pure zlib read name rest _ _) as [r blob'] eqn:Erest.
    intros [= -> <-].
    destruct (IH _ _ _ _ Erest) as (new & -> & Hkeys & Hsize & Hcont & Hall).
    eexists (_ :: new). rewrite <- app_assoc. split; [reflexivity|].
    cbn [map key total_size foldr byte_size contiguous_from start_offset].
    fold (total_size new).
    split; [now rewrite Hkeys|]. split; [rewrite vsize_app; lia|].
    split.
    + intros Hoff Hfit. split; [reflexivity|].
      pose proof (vsize_nonneg c). pose proof (vsize_nonneg blob').
      replace (off + vsize c) with (size_t_add off (vsize c)).
      * apply Hcont; unfold size_t_add, wrap_size_t, SIZE_MAX in *.
        -- apply Z.mod_pos_bound. lia.
        -- rewrite Z.mod_small; lia.
      * unfold size_t_add, wrap_size_t, SIZE_MAX in *.
        rewrite Z.mod_small; lia.
    + constructor; [|exact Hall].
      exists c. split; [now apply gzip_compress_ok|reflexivity].
Qed.

Lemma contiguous_increasing off tiles :
  contiguous_from off tiles ->
  Forall (fun t => 0 < byte_size t) tiles ->
  strictly_increasing (map start_offset tiles).
Proof.
  revert off. induction tiles as [|t rest IH]; intros off; cbn; [auto|].
  intros [Hstart Hrest] Hpos. apply Forall_cons in Hpos as [Ht Hpos].
  split; [|eapply IH; eassumption].
  destruct rest as [|t2 rest]; cbn in *; [exact I|].
  destruct Hrest as [-> _]. lia.
Qed.

Lemma dir_lookup_remove_level_dirs n c es :
  dir_lookup n es = Some c -> is_directory c = false ->
  dir_lookup n (remove_level_dirs es) = Some c.
Proof.
  intros Hl Hc. unfold remove_level_dirs.
  induction es as [|[k c'] es IH]; [discriminate|].
  cbn [dir_lookup] in Hl.
  destruct (is_directory c' && all_digits k) eqn:E.
  - rewrite filter_cons_False by (cbn [fst snd]; now rewrite E).
    destruct (String.eqb n k); [|now apply IH].
    injection Hl as ->. rewrite Hc in E. discriminate.
  - rewrite filter_cons_True by (cbn [fst snd]; now rewrite E).
    cbn [dir_lookup]. destruct (String.eqb n k); [assumption|now apply IH].
Qed.

(** Where the blob is after a call that returned. *)
Lemma blob_after_merge folder name (keep : bool) w' es rd blob :
  at_folder w' folder
    (let es2 := dir_set name (File rd blob) es in
     if keep then es2 else clean_up es2) ->
  fs_lookup (files w') (folder ++ [name]) =
    if negb keep && String.eqb "blank.png" name then None
    else Some (File rd blob).
Proof.
  intros Hat. rewrite (lookup_in_folder folder w' _ (name :: nil) Hat).
  cbn [fs_lookup]. destruct keep; cbn [negb andb].
  - now rewrite dir_lookup_set_eq.
  - unfold clean_up. destruct (String.eqb_spec "blank.png" name) as [<-|Hne].
    + now rewrite dir_lookup_remove_eq.
    + rewrite dir_lookup_remove_ne by assumption.
      rewrite (dir_lookup_remove_level_dirs name (File rd blob));
        [reflexivity|apply dir_lookup_set_eq|reflexivity].
Qed.

End Offsets.

(** C1.  When [merge_tiles_to_binary] returns, the blob file holds as many
    bytes as the [byte_size] fields add up to; the first entry starts at 0
    and every entry starts where the one before it ends; and, since zlib
    never writes an empty gzip stream, the offsets increase strictly.  The
    sum of the sizes is taken to fit [size_t], as every file does. *)
Theorem merge_offsets_contiguous (zlib : list byte -> deflate_outcome)
    (folder : path) (name : string) (keep : bool) (w w' : world)
    (tiles : list TileInfo) :
  wfb (files w) = true ->
  name <> "blank.png" ->
  merge_tiles_to_binary zlib folder name keep w = (Ok tiles, w') ->
  (total_size tiles <= SIZE_MAX)%Z ->
  exists rd blob,
    fs_lookup (files w') (folder ++ [name]) = Some (File rd blob) /\
    total_size tiles = vsize blob /\
    contiguous_from 0 tiles /\
    ((forall data out, zlib data = StreamEnd out -> out <> []) ->
     strictly_increasing (map start_offset tiles)).
Proof.
  intros Hwf Hname Hrun Hfit.
  destruct (merge_run zlib folder name keep w tiles w' Hwf Hrun)
    as (es & blob & Hat & _ & Hpure & Hat' & _).
  destruct (pack_pure_ok zlib _ _ _ _ _ _ _ Hpure)
    as (new & -> & _ & Hsize & Hcont & Hall).
  cbn [app] in *.
  exists (created_mode name es), blob. split; [|split; [exact Hsize|]].
  - rewrite (blob_after_merge folder name keep w' es _ blob Hat').
    destruct (String.eqb_spec "blank.png" name) as [E|_]; [congruence|].
    now rewrite andb_false_r.
  - assert (Hc : contiguous_from 0 new) by (apply Hcont; lia).
    split; [exact Hc|]. intros Hnonempty.
    apply (contiguous_increasing 0); [exact Hc|].
    clear -Hall Hnonempty. induction Hall as [|p t ps ts (c & Hz & Hs) _ IH];
      constructor; [|exact IH].
    rewrite Hs. apply Hnonempty in Hz. destruct c; [contradiction|].
    unfold vsize. cbn [length]. lia.
Qed.

Lemma merge_offsets_contiguous_witness :
  exists rd blob,
    fs_lookup (files pyramid_packed) ["out"; "tiles_000.binz"]
      = Some (File rd blob) /\
    total_size pyramid_tiles = vsize blob /\
    contiguous_from 0 pyramid_tiles /\
    ((forall data out, framing_deflate data = StreamEnd out -> out <> []) ->
     strictly_increasing (map start_offset pyramid_tiles)).
Proof.
  apply (merge_offsets_contiguous framing_deflate ["out"] "tiles_000.binz"
           false pyramid_world pyramid_packed pyramid_tiles).
  - vm_compute. reflexivity.
  - discriminate.
  - vm_compute. reflexivity.
  - vm_compute. discriminate.
Defined.

(* ================================================================= *)
(** ** What discovery finds *)

Section Qualifying.

Lemma nodup_names_entries (es : list (string * node)) :
  NoDup (map fst es) -> NoDup es.
Proof.
  induction es as [|[n c] es IH]; cbn; intros Hnd; [constructor|].
  apply NoDup_cons in Hnd as [Hn Hnd].
  constructor; [|now apply IH].
  intros Hin. apply Hn. eapply elem_of_names, Hin.
Qed.

Lemma nodup_names_inj (es : list (string * node)) x1 x2 :
  NoDup (map fst es) -> x1 ∈ es -> x2 ∈ es -> x1.1 = x2.1 -> x1 = x2.
Proof.
  destruct x1 as [n1 c1], x2 as [n2 c2]. cbn. intros Hnd H1 H2 <-.
  apply (dir_lookup_nodup _ _ _ Hnd) in H1, H2. congruence.
Qed.

Lemma snoc_inj (p q : path) (a b : string) : p ++ [a] = q ++ [b] -> p = q /\ a = b.
Proof. intros H. now apply app_inj_tail in H. Qed.

Lemma collect_tiles_nodup y_path es :
  NoDup (map fst es) -> NoDup (collect_tiles y_path es).
Proof.
  intros Hnd. unfold collect_tiles. apply NoDup_bind.
  - intros x1 x2 p H1 H2 Hp1 Hp2.
    destruct (is_regular_file x1.2 && is_tile_ext (extension x1.1));
      [|inversion Hp1].
    destruct (is_regular_file x2.2 && is_tile_ext (extension x2.1));
      [|inversion Hp2].
    apply list_elem_of_singleton in Hp1, Hp2. subst p.
    apply snoc_inj in Hp2 as [_ Hname].
    now apply (nodup_names_inj es).
  - intros x _. destruct (_ && _); [apply NoDup_singleton|constructor].
  - now apply nodup_names_entries.
Qed.

Lemma collect_rows_nodup level_path es :
  NoDup (map fst es) -> (forall n c, (n, c) ∈ es -> wfb c = true) ->
  NoDup (collect_rows level_path es).
Proof.
  intros Hnd Hwf. unfold collect_rows. apply NoDup_bind.
  - intros [r1 c1] [r2 c2] p H1 H2 Hp1 Hp2. cbn [fst snd] in *.
    destruct c1 as [|t1|]; try (now inversion Hp1).
    destruct c2 as [|t2|]; try (now inversion Hp2).
    apply elem_of_collect_tiles in Hp1 as (f1 & ? & _ & _ & _ & ->).
    apply elem_of_collect_tiles in Hp2 as (f2 & ? & _ & _ & _ & Hp).
    apply snoc_inj in Hp as [Hp _]. apply snoc_inj in Hp as [_ Hr].
    now apply (nodup_names_inj es).
  - intros [r c] Hin. cbn [fst snd]. destruct c as [|tiles|]; try constructor.
    apply collect_tiles_nodup. now apply (wfb_dir tiles), (Hwf r).
  - now apply nodup_names_entries.
Qed.

Lemma collect_levels_nodup tile_folder es :
  NoDup (map fst es) -> (forall n c, (n, c) ∈ es -> wfb c = true) ->
  NoDup (collect_levels tile_folder es).
Proof.
  intros Hnd Hwf. unfold collect_levels. apply NoDup_bind.
  - intros [l1 c1] [l2 c2] p H1 H2 Hp1 Hp2. cbn [fst snd] in *.
    destruct c1 as [|rows1|]; try (now inversion Hp1).
    destruct c2 as [|rows2|]; try (now inversion Hp2).
    destruct (all_digits l1); [|now inversion Hp1].
    destruct (all_digits l2); [|now inversion Hp2].
    apply elem_of_collect_rows in Hp1 as (r1 & t1 & _ & Hp1).
    apply elem_of_collect_rows in Hp2 as (r2 & t2 & _ & Hp2).
    apply elem_of_collect_tiles in Hp1 as (f1 & ? & _ & _ & _ & ->).
    apply elem_of_collect_tiles in Hp2 as (f2 & ? & _ & _ & _ & Hp).
    apply snoc_inj in Hp as [Hp _]. apply snoc_inj in Hp as [Hp _].
    apply snoc_inj in Hp as [_ Hl].
    now apply (nodup_names_inj es).
  - intros [l c] Hin. cbn [fst snd]. destruct c as [|rows|]; try constructor.
    destruct (all_digits l); [|constructor].
    destruct (wfb_dir rows (Hwf l _ Hin)) as [? ?].
    now apply collect_rows_nodup.
  - now apply nodup_names_entries.
Qed.

Lemma shape_is_file o r d : shape_of o = IsFile r d <-> o = Some (File r d).
Proof.
  split.
  - destruct o as [[r' d'| |]|]; try discriminate. now intros [= -> ->].
  - now intros ->.
Qed.

(** In a well-formed tree the loops find exactly the qualifying tile
    files. *)
Lemma collect_levels_qualifying w folder es p :
  wfb (files w) = true -> at_folder w folder es ->
  p ∈ collect_levels folder es <-> qualifying (files w) folder p.
Proof.
  intros Hwf Hat.
  destruct (wfb_at_folder folder w es Hwf Hat) as [Hnd Hsub].
  unfold qualifying. split.
  - intros (l & rows & r & tiles & f & c & Hl & Hd & Hr & Hf & Hreg & Hext & ->)
      %collect_levels_inv.
    destruct (wfb_dir rows (Hsub _ _ Hl)) as [Hnd1 Hsub1].
    destruct (wfb_dir tiles (Hsub1 _ _ Hr)) as [Hnd2 _].
    apply (dir_lookup_nodup _ _ _ Hnd) in Hl.
    apply (dir_lookup_nodup _ _ _ Hnd1) in Hr.
    apply (dir_lookup_nodup _ _ _ Hnd2) in Hf.
    exists l, r, f. split; [reflexivity|]. split; [assumption|].
    rewrite !(lookup_in_folder folder w es) by assumption.
    cbn [fs_lookup]. rewrite Hl, Hr, Hf.
    repeat split; try assumption.
    destruct c as [rd d| |]; try discriminate. cbn. eauto.
  - intros (l & r & f & -> & Hd & Hl & Hr & (rd & d & Hf) & Hext).
    rewrite !(lookup_in_folder folder w es) in * by assumption.
    apply shape_is_file in Hf. cbn [fs_lookup] in *.
    destruct (dir_lookup l es) as [[| rows |]|] eqn:El; try discriminate.
    destruct (dir_lookup r rows) as [[| tiles |]|] eqn:Er; try discriminate.
    destruct (dir_lookup f tiles) as [c|] eqn:Ef; [|discriminate].
    injection Hf as ->.
    apply elem_of_collect_levels. exists l, rows.
    split; [now apply dir_lookup_elem|]. split; [assumption|].
    apply elem_of_collect_rows. exists r, tiles.
    split; [now apply dir_lookup_elem|].
    apply elem_of_collect_tiles. exists f, (File rd d).
    split; [now apply dir_lookup_elem|].
    repeat split; try assumption. now rewrite <- !app_assoc.
Qed.

End Qualifying.

(* ================================================================= *)
(** ** Discovery, completeness and determinism *)

(** C4 (as amended).  In the tile folder, discovery skips what is not a
    directory with an all-digit name; inside such a level directory it
    enters every sub-directory, whatever its name, and skips the rest; at the
    leaves it collects the regular files whose lower-cased extension is
    [.png], [.jpg] or [.jpeg].  Skipping is no error: the packer returns
    whenever the blob can be created, the compressor succeeds and no
    directory is in the place of [blank.png].  A call that returns has made
    exactly one entry for every such file: the entries follow, key by key, a
    duplicate-free list of exactly the qualifying paths. *)
Theorem discovery_one_entry_per_tile (zlib : list byte -> deflate_outcome)
    (folder : path) (name : string) (keep : bool) (w : world)
    (es : list (string * node)) :
  wfb (files w) = true ->
  at_folder w folder es ->
  ((forall data, exists c, zlib data = StreamEnd c) ->
   (forall c, dir_lookup name es = Some c -> is_regular_file c = true) ->
   (forall c, dir_lookup "blank.png" es = Some c -> is_directory c = false) ->
   exists tiles w',
     merge_tiles_to_binary zlib folder name keep w = (Ok tiles, w')) /\
  (forall tiles w',
     merge_tiles_to_binary zlib folder name keep w = (Ok tiles, w') ->
     exists tile_files,
       NoDup tile_files /\
       (forall p, p ∈ tile_files <-> qualifying (files w) folder p) /\
       map key tiles = map tile_key tile_files /\
       length tiles = length tile_files).
Proof.
  intros Hwf Hat. split.
  - intros Hzlib Hfile Hblank. now apply (merge_returns zlib folder name Hzlib keep w es).
  - intros tiles w' Hrun.
    destruct (merge_run zlib folder name keep w tiles w' Hwf Hrun)
      as (es' & blob & Hat' & _ & Hpure & _).
    rewrite <- (at_folder_inj folder w es es' Hat Hat') in *.
    destruct (pack_pure_ok zlib _ _ _ _ _ _ _ Hpure) as (new & -> & Hkeys & _).
    destruct (wfb_at_folder folder w es Hwf Hat) as [Hnd Hsub].
    exists (sort_paths (collect_levels folder es)). cbn [app].
    split; [|split; [|split]].
    + rewrite sort_paths_perm. now apply collect_levels_nodup.
    + intros p. rewrite elem_of_sort_paths.
      now apply collect_levels_qualifying.
    + exact Hkeys.
    + rewrite <- (length_map key new), Hkeys. apply length_map.
Qed.

Lemma discovery_one_entry_per_tile_witness :
  (exists tiles w', run_merge false pyramid_world = (Ok tiles, w')) /\
  exists tile_files,
    NoDup tile_files /\
    (forall p, p ∈ tile_files <-> qualifying (files pyramid_world) ["out"] p) /\
    map key pyramid_tiles = map tile_key tile_files /\
    length pyramid_tiles = length tile_files.
Proof.
  destruct (discovery_one_entry_per_tile framing_deflate ["out"]
              "tiles_000.binz" false pyramid_world pyramid)
    as [Hreturns Hentries].
  - vm_compute. reflexivity.
  - reflexivity.
  - split.
    + apply Hreturns.
      * intros data. eexists. reflexivity.
      * intros c. vm_compute. discriminate.
      * intros c. vm_compute. intros [= <-]. reflexivity.
    + apply (Hentries pyramid_tiles pyramid_packed). vm_compute. reflexivity.
Defined.

(** C4, as stated, fails at the row layer: the rows [a] and [a-b] are not
    numeric, and their tiles are collected and packed all the same. *)
Lemma non_numeric_rows_are_entered :
  all_digits "a" = false /\ all_digits "a-b" = false /\
  map key (tiles_of (run_merge true named_rows_world)) = ["1_a_0"; "1_a-b_0"].
Proof. vm_compute. auto. Qed.

Section Determinism.

Variable zlib : list byte -> deflate_outcome.
Variable folder : path.

Lemma read_all_shape fs p :
  read_all fs p = match shape_of (fs_lookup fs p) with
                  | IsFile true d => d
                  | _ => []
                  end.
Proof.
  unfold read_all. destruct (fs_lookup fs p) as [[[] d| |]|]; reflexivity.
Qed.

Lemma same_tree_qualifying a b p :
  same_tree folder a b -> qualifying a folder p -> qualifying b folder p.
Proof.
  intros Hsame (l & r & f & -> & Hd & Hl & Hr & Hf & Hext).
  exists l, r, f. rewrite <- !Hsame. auto 10.
Qed.

Lemma same_tree_sym a b : same_tree folder a b -> same_tree folder b a.
Proof. intros H q. symmetry. apply H. Qed.

Lemma same_tree_created_mode wa wb name ea eb :
  same_tree folder (files wa) (files wb) ->
  at_folder wa folder ea -> at_folder wb folder eb ->
  created_mode name ea = created_mode name eb.
Proof.
  intros Hsame Ha Hb. specialize (Hsame [name]).
  rewrite (lookup_in_folder folder wa ea), (lookup_in_folder folder wb eb)
    in Hsame by assumption.
  cbn [fs_lookup] in Hsame. unfold created_mode.
  destruct (dir_lookup name ea) as [[]|], (dir_lookup name eb) as [[]|];
    cbn in Hsame; congruence.
Qed.

End Determinism.

(** C5 (as amended).  Two runs of the packer on trees that hold the same
    files with the same bytes, in whatever order the directories list them,
    and that both return, give the same sequence of entries and the same
    blob: the discovered paths are sorted by the order of
    [std::filesystem::path], which compares two paths element by element,
    and the compressor is a function of its input. *)
Theorem merge_deterministic (zlib : list byte -> deflate_outcome)
    (folder : path) (name : string) (keep : bool) (wa wb wa' wb' : world)
    (ta tb : list TileInfo) :
  wfb (files wa) = true ->
  wfb (files wb) = true ->
  same_tree folder (files wa) (files wb) ->
  merge_tiles_to_binary zlib folder name keep wa = (Ok ta, wa') ->
  merge_tiles_to_binary zlib folder name keep wb = (Ok tb, wb') ->
  ta = tb /\
  fs_lookup (files wa') (folder ++ [name]) = fs_lookup (files wb') (folder ++ [name]) /\
  exists tile_files,
    Sorted path_le tile_files /\
    (forall p, p ∈ tile_files <-> qualifying (files wa) folder p) /\
    map key ta = map tile_key tile_files.
Proof.
  intros Hwa Hwb Hsame Ha Hb.
  destruct (merge_run zlib folder name keep wa ta wa' Hwa Ha)
    as (ea & ba & Hata & _ & Hpa & Hata' & _).
  destruct (merge_run zlib folder name keep wb tb wb' Hwb Hb)
    as (eb & bb & Hatb & _ & Hpb & Hatb' & _).
  destruct (wfb_at_folder folder wa ea Hwa Hata) as [Hnda Hsuba].
  destruct (wfb_at_folder folder wb eb Hwb Hatb) as [Hndb Hsubb].
  assert (Hfiles : sort_paths (collect_levels folder ea)
                   = sort_paths (collect_levels folder eb)).
  { apply sort_paths_permutation, NoDup_Permutation;
      try (now apply collect_levels_nodup).
    intros p.
    rewrite (collect_levels_qualifying wa folder ea p Hwa Hata).
    rewrite (collect_levels_qualifying wb folder eb p Hwb Hatb).
    split; apply same_tree_qualifying;
      [assumption|now apply same_tree_sym]. }
  rewrite <- Hfiles in Hpb.
  rewrite (pack_pure_ext zlib name (read_all (files wb)) (read_all (files wa)))
    in Hpb.
  2: { intros p Hp. rewrite elem_of_sort_paths in Hp.
       apply collect_levels_inv in Hp
         as (l & ? & r & ? & f & ? & _ & _ & _ & _ & _ & _ & ->).
       rewrite !read_all_shape. now rewrite (Hsame [l; r; f]). }
  rewrite Hpa in Hpb. injection Hpb as <- <-.
  split; [reflexivity|]. split.
  - rewrite (blob_after_merge folder name keep wa' ea _ ba Hata').
    rewrite (blob_after_merge folder name keep wb' eb _ ba Hatb').
    now rewrite (same_tree_created_mode folder wa wb name ea eb).
  - exists (sort_paths (collect_levels folder ea)).
    split; [apply sort_paths_sorted|]. split.
    + intros p. rewrite elem_of_sort_paths.
      now apply collect_levels_qualifying.
    + destruct (pack_pure_ok zlib _ _ _ _ _ _ _ Hpa) as (new & -> & Hkeys & _).
      exact Hkeys.
Qed.

(** C5, as stated, fails on the order: [out/1/a-b/0.png] is below
    [out/1/a/0.png] as a string, since [-] is below [/], and above it as a
    path, since the element [a] is a prefix of [a-b]; the packer follows the
    paths. *)
Lemma sorted_by_element_not_by_string :
  sort_paths (collect_levels ["out"] named_rows)
    = [["out"; "1"; "a"; "0.png"]; ["out"; "1"; "a-b"; "0.png"]] /\
  sort_by_path_string (collect_levels ["out"] named_rows)
    = [["out"; "1"; "a-b"; "0.png"]; ["out"; "1"; "a"; "0.png"]] /\
  map key (tiles_of (run_merge true named_rows_world)) = ["1_a_0"; "1_a-b_0"].
Proof. vm_compute. auto. Qed.

(* ================================================================= *)
(** ** Clean-up and the metadata file *)

Section CleanUp.

Variable folder : path.

Lemma elem_of_clean_up n c es :
  (n, c) ∈ clean_up es -> is_directory c && all_digits n = false.
Proof.
  unfold clean_up, dir_remove, remove_level_dirs.
  intros [_ [H _]%list_elem_of_filter]%list_elem_of_filter.
  cbn [fst snd] in H. now destruct (is_directory c && all_digits n).
Qed.

(** What a call of [write_metadata] that returns has done. *)
Lemma write_metadata_inv wd ht ts tiles w w' es :
  at_folder w folder es ->
  write_metadata folder wd ht ts tiles w = (Ok tt, w') ->
  at_folder w' folder
    (dir_set "metadata.json"
       (File (created_mode "metadata.json" es)
             (bytes (metadata_text wd ht ts tiles))) es) /\
  completed_count w' = completed_count w.
Proof.
  intros Hat. unfold write_metadata, bind.
  destruct (ofstream_open_result (folder ++ ["metadata.json"]) w)
    as (good & w1 & Hopen).
  rewrite Hopen. apply ofstream_open_inv in Hopen as [Hc1 Hgood].
  destruct good; cbn [negb]; [|discriminate].
  destruct Hgood as (es0 & es1 & Hat0 & Htrunc & Hat1).
  rewrite <- (at_folder_inj folder w es es0 Hat Hat0) in *.
  apply truncate_entry_inv in Htrunc as [-> _].
  destruct (ofstream_write_spec folder "metadata.json"
              (list_byte_of_string (metadata_text wd ht ts tiles)) w1 _ _ []
              Hat1 (dir_lookup_set_eq _ _ _)) as (w2 & -> & Hat2 & Hc2).
  intros [= <-]. rewrite dir_set_set in Hat2. split; [exact Hat2|congruence].
Qed.

End CleanUp.

(** C6.  After a packing that returned and a metadata file written, the
    tile folder holds the blob with all the bytes of the entries and the
    metadata file.  When the tiles are not kept, it holds no directory with
    an all-digit name and no [blank.png]; when they are kept, every other
    entry of the folder is what it was. *)
Theorem clean_up_after_packing (zlib : list byte -> deflate_outcome)
    (folder : path) (name : string) (keep : bool) (w w1 w2 : world)
    (tiles : list TileInfo) (wd ht ts : Z) :
  wfb (files w) = true ->
  name <> "blank.png" ->
  name <> "metadata.json" ->
  merge_tiles_to_binary zlib folder name keep w = (Ok tiles, w1) ->
  write_metadata folder wd ht ts tiles w1 = (Ok tt, w2) ->
  exists es es2 rd blob rm,
    at_folder w folder es /\ at_folder w2 folder es2 /\
    dir_lookup name es2 = Some (File rd blob) /\
    total_size tiles = vsize blob /\
    dir_lookup "metadata.json" es2
      = Some (File rm (bytes (metadata_text wd ht ts tiles))) /\
    if keep
    then forall n, n <> name -> n <> "metadata.json" ->
                   dir_lookup n es2 = dir_lookup n es
    else (forall n c, (n, c) ∈ es2 -> is_directory c = true ->
                      all_digits n = false) /\
         dir_lookup "blank.png" es2 = None.
Proof.
  intros Hwf Hblank Hmeta Hrun Hwrite.
  destruct (merge_run zlib folder name keep w tiles w1 Hwf Hrun)
    as (es & blob & Hat & _ & Hpure & Hat1 & _).
  destruct (pack_pure_ok zlib _ _ _ _ _ _ _ Hpure) as (new & -> & _ & Hsize & _).
  cbn [app] in *.
  pose proof (blob_after_merge folder name keep w1 es _ blob Hat1) as Hblob.
  rewrite (lookup_in_folder folder w1 _ [name] Hat1) in Hblob.
  cbn [fs_lookup] in Hblob.
  destruct (String.eqb_spec "blank.png" name) as [E|_]; [congruence|].
  rewrite andb_false_r in Hblob.
  destruct (write_metadata_inv folder wd ht ts new w1 w2 _ Hat1 Hwrite)
    as [Hat2 _].
  eexists es, _, (created_mode name es), blob, _.
  split; [exact Hat|]. split; [exact Hat2|].
  split.
  { rewrite dir_lookup_set_ne by congruence.
    destruct (dir_lookup name _) as [m|] eqn:E; [exact Hblob|discriminate]. }
  split; [exact Hsize|]. split; [apply dir_lookup_set_eq|].
  destruct keep.
  - intros n Hn Hm. rewrite dir_lookup_set_ne by congruence.
    apply dir_lookup_set_ne. congruence.
  - split.
    + intros n c [[-> ->]|Hin]%elem_of_dir_set Hdir; [discriminate|].
      apply elem_of_clean_up in Hin. rewrite Hdir in Hin. exact Hin.
    + rewrite dir_lookup_set_ne by discriminate.
      unfold clean_up. apply dir_lookup_remove_eq.
Qed.

Lemma clean_up_after_packing_witness :
  exists es es2 rd blob rm,
    at_folder pyramid_world ["out"] es /\
    at_folder pyramid_described ["out"] es2 /\
    dir_lookup "tiles_000.binz" es2 = Some (File rd blob) /\
    total_size pyramid_tiles = vsize blob /\
    dir_lookup "metadata.json" es2
      = Some (File rm (bytes (metadata_text 1024 1024 512 pyramid_tiles))) /\
    (forall n c, (n, c) ∈ es2 -> is_directory c = true -> all_digits n = false) /\
    dir_lookup "blank.png" es2 = None.
Proof.
  apply (clean_up_after_packing framing_deflate ["out"] "tiles_000.binz" false
           pyramid_world pyramid_packed pyramid_described pyramid_tiles
           1024 1024 512).
  - vm_compute. reflexivity.
  - discriminate.
  - discriminate.
  - vm_compute. reflexivity.
  - vm_compute. reflexivity.
Defined.

Lemma merge_deterministic_witness :
  tiles_of (run_merge true named_rows_world)
    = tiles_of (run_merge true named_rows_relisted_world) /\
  fs_lookup (files (run_merge true named_rows_world).2) ["out"; "tiles_000.binz"]
    = fs_lookup (files (run_merge true named_rows_relisted_world).2)
        ["out"; "tiles_000.binz"].
Proof.
  destruct (merge_deterministic framing_deflate ["out"] "tiles_000.binz" true
              named_rows_world named_rows_relisted_world
              (run_merge true named_rows_world).2
              (run_merge true named_rows_relisted_world).2
              (tiles_of (run_merge true named_rows_world))
              (tiles_of (run_merge true named_rows_relisted_world)))
    as (Htiles & Hblob & _).
  - vm_compute. reflexivity.
  - vm_compute. reflexivity.
  - intros q. destruct q as [|n1 [|n2 [|n3 [|n4 q]]]]; cbn;
      repeat (match goal with
              | |- context [String.eqb ?x ?y] =>
                  destruct (String.eqb_spec x y); subst; cbn
              end); congruence.
  - vm_compute. reflexivity.
  - vm_compute. reflexivity.
  - split; [exact Htiles|exact Hblob].
Defined.

(* ================================================================= *)
(** ** Keys *)

Section Keys.

Lemma append_assoc (a b c : string) : (a +:+ b) +:+ c = a +:+ (b +:+ c).
Proof.
  induction a as [|x a IH]; [reflexivity|].
  change (String x ((a +:+ b) +:+ c) = String x (a +:+ b +:+ c)).
  now rewrite IH.
Qed.


End Keys.



(* ================================================================= *)
(** ** Failures *)

(** C3, at the input where the code departs from it.  A tile file that
    cannot be opened is not an error for the packer: the stream delivers no
    bytes, the tile is packed as the compression of nothing, and the call
    returns; the claim asks for an exception. *)
Lemma unreadable_tile_packed_as_empty :
  exists w',
    run_merge true unreadable_tile_world
      = (Ok [{| key := "0_0_0"; binary_name := "tiles_000.binz";
                start_offset := 0; byte_size := 2 |}], w') /\
    fs_lookup (files w') ["out"; "tiles_000.binz"]
      = Some (File true [x1f; x8b]) /\
    framing_deflate [] = StreamEnd [x1f; x8b] /\
    fs_lookup (files w') ["out"; "0"; "0"; "0.png"]
      = Some (File false (bytes "pixels")).
Proof. eexists. vm_compute. auto. Qed.

(** An exception of the image loader or of the tiler is caught before
    [success] is set: the job returns [success = false] with the message. *)
Lemma process_image_early_failure
    (zlib : list byte -> deflate_outcome) (vnew : string -> io VImage)
    (vsave : string -> Z -> string -> Z -> string -> option Z -> io unit)
    (fuel : nat) (task : ImageTask) (config : Config) (total : Z)
    (w w1 : world) (e : string) :
  vnew (input_path task) w = (Throw e, w1) ->
  exists r,
    process_image zlib vnew vsave fuel task config total w = Some (r, w1) /\
    success r = false /\ error_message r = e.
Proof.
  intros Hnew. unfold process_image. rewrite Hnew.
  eexists. split; [reflexivity|]. cbn. auto.
Qed.

(** An exception of the packer or of the metadata writer reaches the
    [catch] block after [result.success = true]: the job returns with
    [success] set, the message of the exception, and without having been
    counted as completed. *)
Lemma process_image_late_failure
    (zlib : list byte -> deflate_outcome) (vnew : string -> io VImage)
    (vsave : string -> Z -> string -> Z -> string -> option Z -> io unit)
    (fuel : nat) (task : ImageTask) (config : Config) (total : Z)
    (w w1 w2 w3 : world) (image : VImage) (target_size : Z) (e : string) :
  vnew (input_path task) w = (Ok image, w1) ->
  next_power_of_2 fuel (Z.max (image_width image) (image_height image))
    = Some target_size ->
  vsave (input_path task) target_size (output_path task) (tile_size config)
    (suffix config) (quality_option config) w1 = (Ok tt, w2) ->
  tile_and_pack zlib task config target_size w2 = (Throw e, w3) ->
  exists r,
    process_image zlib vnew vsave fuel task config total w = Some (r, w3) /\
    success r = true /\ error_message r = e.
Proof.
  intros Hnew Hsize Hsave Hpack. unfold process_image.
  rewrite Hnew, Hsize, Hsave, Hpack. eexists. split; [reflexivity|]. cbn. auto.
Qed.

(** C2, at the input where the code departs from it.  The tiler has written
    the tile tree and the compressor fails on the first tile: the job returns
    with [success] set, next to the message of the exception; the claim asks
    for [success = false]. *)
Lemma pack_failure_reported_as_success :
  exists r w',
    process_image failing_deflate (fixed_image 1000 800) (fixed_tiler pyramid)
      31 sample_task sample_config 1 empty_output_world = Some (r, w') /\
    success r = true /\
    error_message r = "Failed to initialize gzip compression" /\
    width r = 1024%Z /\
    completed_count w' = 0%Z.
Proof. eexists _, _. vm_compute. auto 6. Qed.

(* ================================================================= *)
(** ** parse_args *)

Section ParseArgs.
Local Open Scope Z_scope.

Lemma stoi_range s v : stoi s = Ok v -> INT_MIN <= v <= INT_MAX.
Proof.
  unfold stoi. destruct (match skip_spaces s with String _ _ => _ | EmptyString => _ end) as [negative s'].
  destruct (starts_with_digit s'); [|discriminate].
  destruct (Z.leb_spec INT_MIN (if negative then - read_digits 0 s' else read_digits 0 s'));
    [|discriminate].
  destruct (Z.leb_spec (if negative then - read_digits 0 s' else read_digits 0 s') INT_MAX);
    [|discriminate].
  cbn. intros [= <-]. lia.
Qed.

Lemma wrap_uint_range z : 0 <= wrap_uint z <= UINT_MAX.
Proof.
  unfold wrap_uint, UINT_MAX.
  pose proof (Z.mod_pos_bound z (2 ^ 32)). lia.
Qed.

Lemma parse_loop_valid n : forall args c c',
  (length args <= n)%nat -> loop_valid c ->
  parse_loop args c = Returns c' -> loop_valid c'.
Proof.
  induction n as [|n IH]; intros [|arg rest] c c' Hlen Hc; cbn [parse_loop length] in *;
    try (intros [= <-]; exact Hc); try lia.
  destruct Hc as (Hts & Hsfx & Hq & Hth).
  destruct (String.eqb arg "--help" || String.eqb arg "-h"); [discriminate|].
  destruct (String.eqb arg "--inputs").
  { destruct rest as [|v rest']; [discriminate|]. cbn [length] in Hlen.
    apply IH; [lia|]. repeat split; cbn; tauto. }
  destruct (String.eqb arg "--outputs").
  { destruct rest as [|v rest']; [discriminate|]. cbn [length] in Hlen.
    apply IH; [lia|]. repeat split; cbn; tauto. }
  destruct (String.eqb arg "--tile-size").
  { destruct rest as [|v rest']; [discriminate|]. cbn [length] in Hlen.
    destruct (stoi v) as [k|e] eqn:Ev; [|discriminate].
    apply stoi_range in Ev.
    destruct (Z.leb_spec k 0); [discriminate|].
    apply IH; [lia|]. repeat split; cbn; try tauto; lia. }
  destruct (String.eqb arg "--suffix").
  { destruct rest as [|v rest']; [discriminate|]. cbn [length] in Hlen.
    destruct (valid_suffix v) eqn:Ev; [|discriminate].
    apply IH; [lia|]. repeat split; cbn; tauto. }
  destruct (String.eqb arg "--jpeg-quality").
  { destruct rest as [|v rest']; [discriminate|]. cbn [length] in Hlen.
    destruct (stoi v) as [k|e] eqn:Ev; [|discriminate].
    destruct (Z.ltb_spec k 1); [discriminate|].
    destruct (Z.ltb_spec 100 k); [discriminate|]. cbn [orb].
    apply IH; [lia|]. repeat split; cbn; try tauto; lia. }
  destruct (String.eqb arg "--threads").
  { destruct rest as [|v rest']; [discriminate|]. cbn [length] in Hlen.
    destruct (stoi v) as [k|e] eqn:Ev; [|discriminate].
    pose proof (wrap_uint_range k).
    apply IH; [lia|]. repeat split; cbn; try tauto; lia. }
  destruct (String.eqb arg "--keep-tiles"); [|discriminate].
  apply IH; [lia|]. repeat split; cbn; tauto.
Qed.

Lemma empty_false s : empty s = false -> s <> EmptyString.
Proof. now destruct s. Qed.

(** What holds of every configuration [parse_args] returns. *)
Lemma parse_args_returns hardware_concurrency argv config :
  0 <= hardware_concurrency <= UINT_MAX ->
  parse_args hardware_concurrency argv = Returns config ->
  inputs_file config <> EmptyString /\
  outputs_file config <> EmptyString /\
  loop_valid config /\ threads config <> 0.
Proof.
  intros Hhw. unfold parse_args.
  destruct (parse_loop (tail argv) default_config) as [c| |] eqn:Eloop;
    try discriminate.
  assert (Hc : loop_valid c).
  { apply (parse_loop_valid (length (tail argv)) (tail argv) default_config);
      [lia| |exact Eloop].
    repeat split; vm_compute; congruence. }
  destruct (empty (inputs_file c)) eqn:Ei; [discriminate|].
  destruct (empty (outputs_file c)) eqn:Eo; [discriminate|].
  apply empty_false in Ei, Eo.
  destruct Hc as (Hts & Hsfx & Hq & Hth).
  destruct (Z.eqb_spec (threads c) 0) as [E0|Hne]; intros [= <-].
  - split; [exact Ei|]. split; [exact Eo|]. unfold loop_valid. cbn.
    destruct (Z.eqb_spec hardware_concurrency 0); unfold UINT_MAX in *;
      repeat split; try assumption; lia.
  - split; [exact Ei|]. split; [exact Eo|]. split; [|exact Hne].
    repeat split; try assumption; lia.
Qed.

End ParseArgs.

Section Sources.

Variable all : list string.

Lemma parse_loop_sources n : forall args consumed c c',
  length args <= n -> all = consumed ++ args -> from_flags all c ->
  parse_loop args c = Returns c' -> from_flags all c'.
Proof.
  induction n as [|n IH]; intros [|arg rest] consumed c c' Hlen Hall Hc;
    cbn [parse_loop length] in *;
    try (intros [= <-]; exact Hc); try lia.
  assert (Hnext : forall v rest' c1,
             rest = v :: rest' -> from_flags all c1 ->
             parse_loop rest' c1 = Returns c' -> from_flags all c').
  { intros v rest' c1 -> Hc1. cbn [length] in Hlen.
    apply (IH rest' (consumed ++ [arg; v])); [lia| |exact Hc1].
    now rewrite <- app_assoc. }
  destruct Hc as [Hin Hout].
  destruct (String.eqb arg "--help" || String.eqb arg "-h"); [discriminate|].
  destruct (String.eqb_spec arg "--inputs") as [->|_].
  { destruct rest as [|v rest']; [discriminate|].
    apply (Hnext v rest' _ eq_refl). split; [right|exact Hout].
    now exists consumed, rest'. }
  destruct (String.eqb_spec arg "--outputs") as [->|_].
  { destruct rest as [|v rest']; [discriminate|].
    apply (Hnext v rest' _ eq_refl). split; [exact Hin|right].
    now exists consumed, rest'. }
  destruct (String.eqb arg "--tile-size").
  { destruct rest as [|v rest']; [discriminate|].
    destruct (stoi v) as [k|e]; [|discriminate].
    destruct (k <=? 0)%Z; [discriminate|].
    apply (Hnext v rest' _ eq_refl). now split. }
  destruct (String.eqb arg "--suffix").
  { destruct rest as [|v rest']; [discriminate|].
    destruct (valid_suffix v); [|discriminate].
    apply (Hnext v rest' _ eq_refl). now split. }
  destruct (String.eqb arg "--jpeg-quality").
  { destruct rest as [|v rest']; [discriminate|].
    destruct (stoi v) as [k|e]; [|discriminate].
    destruct ((k <? 1)%Z || (100 <? k)%Z); [discriminate|].
    apply (Hnext v rest' _ eq_refl). now split. }
  destruct (String.eqb arg "--threads").
  { destruct rest as [|v rest']; [discriminate|].
    destruct (stoi v) as [k|e]; [|discriminate].
    apply (Hnext v rest' _ eq_refl). now split. }
  destruct (String.eqb arg "--keep-tiles"); [|discriminate].
  apply (IH rest (consumed ++ [arg])); [lia| |now split].
  now rewrite <- app_assoc.
Qed.

End Sources.

Section Stoi.
Local Open Scope Z_scope.

Lemma read_digits_uint d : forall acc,
  read_digits (Z.pos acc) (NilEmpty.string_of_uint d) = Z.pos (Pos.of_uint_acc d acc).
Proof.
  induction d; intros acc; cbn [NilEmpty.string_of_uint read_digits Pos.of_uint_acc];
    try reflexivity;
    match goal with
    | |- context [isdigit ?c] => change (isdigit c) with true; cbv iota
    end;
    match goal with
    | |- context [digit_value ?c] =>
        let v := eval vm_compute in (digit_value c) in change (digit_value c) with v
    end;
    rewrite <- IHd; f_equal; lia.
Qed.

Lemma read_digits_uint_0 d :
  read_digits 0 (NilEmpty.string_of_uint d) = Z.of_N (Pos.of_uint d).
Proof.
  induction d; cbn [NilEmpty.string_of_uint read_digits Pos.of_uint];
    try reflexivity;
    match goal with
    | |- context [isdigit ?c] => change (isdigit c) with true; cbv iota
    end;
    match goal with
    | |- context [digit_value ?c] =>
        let v := eval vm_compute in (digit_value c) in change (digit_value c) with v
    end;
    cbn [Z.mul Z.add]; try exact IHd; apply read_digits_uint.
Qed.

(** [stoi] on the decimal text of an unsigned numeral, with or without a
    minus sign in front. *)
Lemma stoi_of_uint d (negative : bool) :
  d <> Decimal.Nil ->
  let v := Z.of_N (Pos.of_uint d) in
  let v := if negative then - v else v in
  INT_MIN <= v <= INT_MAX ->
  stoi ((if negative then "-" else EmptyString) +:+ NilEmpty.string_of_uint d)
  = Ok v.
Proof.
  intros Hd v0 v Hrange. subst v v0.
  assert (Hshape : exists c s, NilEmpty.string_of_uint d = String c s /\
                     isdigit c = true).
  { destruct d; [congruence|..]; cbn; eauto. }
  destruct Hshape as (c & s & Hs & Hc).
  assert (Hc' : isspace c = false /\ Ascii.eqb c "-"%char = false
                /\ Ascii.eqb c "+"%char = false).
  { destruct d; [congruence|..]; cbn in Hs; injection Hs as <- _; now vm_compute. }
  destruct Hc' as (Hsp & Hminus & Hplus).
  unfold stoi. destruct negative.
  - change ("-" +:+ NilEmpty.string_of_uint d)
      with (String "-"%char (NilEmpty.string_of_uint d)).
    cbn [skip_spaces]. change (isspace "-"%char) with false. cbv iota.
    change (Ascii.eqb "-"%char "-"%char) with true. cbv iota.
    rewrite Hs at 1. cbn [starts_with_digit]. rewrite Hc.
    rewrite read_digits_uint_0.
    destruct (Z.leb_spec INT_MIN (- Z.of_N (Pos.of_uint d))); [|lia].
    destruct (Z.leb_spec (- Z.of_N (Pos.of_uint d)) INT_MAX); [|lia].
    reflexivity.
  - change (EmptyString +:+ NilEmpty.string_of_uint d)
      with (NilEmpty.string_of_uint d).
    rewrite Hs. cbn [skip_spaces]. rewrite Hsp, Hminus, Hplus.
    cbn [starts_with_digit]. rewrite Hc, <- Hs.
    rewrite read_digits_uint_0.
    destruct (Z.leb_spec INT_MIN (Z.of_N (Pos.of_uint d))); [|lia].
    destruct (Z.leb_spec (Z.of_N (Pos.of_uint d)) INT_MAX); [|lia].
    reflexivity.
Qed.

End Stoi.

Lemma stoi_decimal (z : Z) :
  (INT_MIN <= z <= INT_MAX)%Z -> stoi (decimal z) = Ok z.
Proof.
  intros Hz. unfold decimal. destruct z as [|p|p]; cbn [Z.to_int].
  - reflexivity.
  - cbn [NilZero.string_of_int]. unfold NilZero.string_of_uint.
    pose proof (Unsigned.to_uint_nonnil p) as Hnil.
    pose proof (stoi_of_uint (Pos.to_uint p) false Hnil) as H.
    cbn zeta in H. rewrite Unsigned.of_to in H. cbn [Z.of_N] in H.
    destruct (Pos.to_uint p); [congruence|..]; apply H; exact Hz.
  - cbn [NilZero.string_of_int]. unfold NilZero.string_of_uint.
    pose proof (Unsigned.to_uint_nonnil p) as Hnil.
    pose proof (stoi_of_uint (Pos.to_uint p) true Hnil) as H.
    cbn zeta in H. rewrite Unsigned.of_to in H. cbn [Z.of_N Z.opp] in H.
    destruct (Pos.to_uint p); [congruence|..]; apply H; exact Hz.
Qed.

(** X1.  A configuration that [parse_args] returns has both file names, a
    positive tile size, one of the three suffixes, a quality from 1 to 100
    and at least one worker: a thread count of 0 is replaced, a negative one
    wraps around to a large unsigned number. *)
Theorem parse_args_valid (hardware_concurrency : Z) (argv : list string)
    (config : Config) :
  (0 <= hardware_concurrency <= UINT_MAX)%Z ->
  parse_args hardware_concurrency argv = Returns config ->
  inputs_file config <> EmptyString /\
  outputs_file config <> EmptyString /\
  (1 <= tile_size config <= INT_MAX)%Z /\
  valid_suffix (suffix config) = true /\
  (1 <= jpeg_quality config <= 100)%Z /\
  (1 <= threads config <= UINT_MAX)%Z.
Proof.
  intros Hhw Hrun.
  destruct (parse_args_returns hardware_concurrency argv config Hhw Hrun)
    as (Hi & Ho & (Hts & Hsfx & Hq & Hth) & Hne).
  repeat split; try assumption; lia.
Qed.

Lemma parse_args_valid_witness :
  inputs_file accepted_config <> EmptyString /\
  outputs_file accepted_config <> EmptyString /\
  (1 <= tile_size accepted_config <= INT_MAX)%Z /\
  valid_suffix (suffix accepted_config) = true /\
  (1 <= jpeg_quality accepted_config <= 100)%Z /\
  (1 <= threads accepted_config <= UINT_MAX)%Z.
Proof.
  apply (parse_args_valid 8 accepted_argv accepted_config).
  - vm_compute. split; discriminate.
  - vm_compute. reflexivity.
Defined.

(** X2.  The two file names of a configuration that [parse_args] returns are
    arguments of the command line, each right after its flag: without
    [--inputs] and [--outputs], each with a value, the call does not
    return. *)
Theorem parse_args_sources (hardware_concurrency : Z) (argv : list string)
    (config : Config) :
  parse_args hardware_concurrency argv = Returns config ->
  follows_flag "--inputs" (inputs_file config) (tail argv) /\
  follows_flag "--outputs" (outputs_file config) (tail argv).
Proof.
  unfold parse_args.
  destruct (parse_loop (tail argv) default_config) as [c| |] eqn:Eloop;
    try discriminate.
  destruct (parse_loop_sources (tail argv) (length (tail argv)) (tail argv) []
              default_config c) as [Hin Hout]; [lia|reflexivity| |exact Eloop|].
  { split; now left. }
  destruct (inputs_file c) as [|a i] eqn:Ei; [discriminate|].
  destruct (outputs_file c) as [|b o] eqn:Eo; [discriminate|].
  cbn [empty]. destruct Hin as [Hin|Hin]; [discriminate|].
  destruct Hout as [Hout|Hout]; [discriminate|].
  destruct (threads c =? 0)%Z; intros [= <-]; cbn; rewrite ?Ei, ?Eo; auto.
Qed.

Lemma parse_args_sources_witness :
  follows_flag "--inputs" (inputs_file accepted_config) (tail accepted_argv) /\
  follows_flag "--outputs" (outputs_file accepted_config) (tail accepted_argv).
Proof.
  apply (parse_args_sources 8 accepted_argv accepted_config).
  vm_compute. reflexivity.
Defined.

Section Flags.

Variable rest : list string.
Variable c : Config.

Lemma parse_loop_inputs v :
  parse_loop ("--inputs" :: v :: rest) c = parse_loop rest (set_inputs_file c v).
Proof. reflexivity. Qed.

Lemma parse_loop_outputs v :
  parse_loop ("--outputs" :: v :: rest) c = parse_loop rest (set_outputs_file c v).
Proof. reflexivity. Qed.

Lemma parse_loop_tile_size v :
  parse_loop ("--tile-size" :: v :: rest) c =
    match stoi v with
    | Throw e => Raises e
    | Ok n =>
        if (n <=? 0)%Z then Raises "tile-size must be positive"
        else parse_loop rest (set_tile_size c n)
    end.
Proof. reflexivity. Qed.

Lemma parse_loop_jpeg_quality v :
  parse_loop ("--jpeg-quality" :: v :: rest) c =
    match stoi v with
    | Throw e => Raises e
    | Ok n =>
        if (n <? 1)%Z || (100 <? n)%Z
        then Raises "jpeg-quality must be between 1 and 100"
        else parse_loop rest (set_jpeg_quality c n)
    end.
Proof. reflexivity. Qed.

Lemma parse_loop_threads v :
  parse_loop ("--threads" :: v :: rest) c =
    match stoi v with
    | Throw e => Raises e
    | Ok n => parse_loop rest (set_threads c (wrap_uint n))
    end.
Proof. reflexivity. Qed.

End Flags.

(** X3.  A command line that gives every option its value, the numbers in
    decimal, is read as written: the configuration holds the two file names
    and the three numbers. *)
Theorem parse_args_reads_options (hardware_concurrency : Z)
    (program inputs outputs : string) (ts q t : Z) :
  inputs <> EmptyString -> outputs <> EmptyString ->
  (1 <= ts <= INT_MAX)%Z -> (1 <= q <= 100)%Z -> (1 <= t <= INT_MAX)%Z ->
  parse_args hardware_concurrency (full_command_line program inputs outputs ts q t)
  = Returns {| inputs_file := inputs; outputs_file := outputs; tile_size := ts;
               suffix := ".jpg"; jpeg_quality := q; threads := t;
               keep_tiles := false |}.
Proof.
  intros Hi Ho Hts Hq Ht. unfold parse_args, full_command_line.
  cbn [tail].
  rewrite parse_loop_inputs, parse_loop_outputs, parse_loop_tile_size.
  rewrite stoi_decimal by (unfold INT_MIN, INT_MAX in *; lia).
  destruct (Z.leb_spec ts 0); [lia|].
  rewrite parse_loop_jpeg_quality.
  rewrite stoi_decimal by (unfold INT_MIN, INT_MAX in *; lia).
  destruct (Z.ltb_spec q 1); [lia|]. destruct (Z.ltb_spec 100 q); [lia|].
  cbn [orb]. rewrite parse_loop_threads.
  rewrite stoi_decimal by (unfold INT_MIN, INT_MAX in *; lia).
  cbn [parse_loop].
  unfold set_threads, set_jpeg_quality, set_tile_size, set_outputs_file,
    set_inputs_file, default_config.
  cbn [inputs_file outputs_file tile_size suffix jpeg_quality threads keep_tiles].
  destruct inputs as [|a i]; [congruence|].
  destruct outputs as [|b o]; [congruence|]. cbn [empty].
  assert (Hwrap : wrap_uint t = t).
  { unfold wrap_uint, INT_MAX in *. rewrite Z.mod_small; lia. }
  rewrite Hwrap. destruct (Z.eqb_spec t 0); [lia|]. reflexivity.
Qed.

Lemma parse_args_reads_options_witness :
  parse_args 8 (full_command_line "image-tiler" "in.txt" "out.txt" 256 90 12)
  = Returns {| inputs_file := "in.txt"; outputs_file := "out.txt";
               tile_size := 256; suffix := ".jpg"; jpeg_quality := 90;
               threads := 12; keep_tiles := false |}.
Proof.
  apply (parse_args_reads_options 8 "image-tiler" "in.txt" "out.txt" 256 90 12).
  - discriminate.
  - discriminate.
  - vm_compute. split; discriminate.
  - lia.
  - vm_compute. split; discriminate.
Defined.

(* ================================================================= *)
(** ** Further properties of read_tasks *)

Section ReadTasksMore.

Lemma read_loop_grows fuel : forall inputs outputs idx tasks,
  length tasks <= length (read_loop fuel inputs outputs idx tasks).
Proof.
  induction fuel as [|fuel IH]; intros inputs outputs idx tasks; cbn [read_loop];
    [lia|].
  destruct (getline inputs) as [[l1 r1]|]; [|lia].
  destruct (getline outputs) as [[l2 r2]|]; [|lia].
  destruct (negb (empty l1) && negb (empty l2)); [|apply IH].
  etransitivity; [|apply IH]. rewrite length_app. cbn. lia.
Qed.

(** The loop numbers the tasks it makes from the number of tasks made so
    far, as long as the number of tasks fits [size_t]. *)
Lemma read_loop_indexes fuel : forall inputs outputs idx tasks,
  idx = Z.of_nat (length tasks) ->
  (Z.of_nat (length (read_loop fuel inputs outputs idx tasks)) <= SIZE_MAX)%Z ->
  (forall i t, tasks !! i = Some t -> index t = Z.of_nat i) ->
  forall i t, read_loop fuel inputs outputs idx tasks !! i = Some t ->
              index t = Z.of_nat i.
Proof.
  induction fuel as [|fuel IH]; intros inputs outputs idx tasks Hidx Hfit Htasks;
    cbn [read_loop] in *; [exact Htasks|].
  destruct (getline inputs) as [[l1 r1]|]; [|exact Htasks].
  destruct (getline outputs) as [[l2 r2]|]; [|exact Htasks].
  destruct (negb (empty l1) && negb (empty l2)); [|now apply IH].
  pose proof (read_loop_grows fuel r1 r2 (size_t_add idx 1)
                (tasks ++ [{| input_path := l1; output_path := l2; index := idx |}]))
    as Hgrow.
  rewrite length_app in Hgrow. cbn [length] in Hgrow.
  apply IH; [|exact Hfit|].
  - rewrite length_app. cbn [length].
    unfold size_t_add, wrap_size_t, SIZE_MAX in *.
    rewrite Z.mod_small; lia.
  - intros i t Hi. apply lookup_app_Some in Hi as [Hi|[Hge Hi]]; [now apply Htasks|].
    apply list_lookup_singleton_Some in Hi as [Hi <-]. cbn. lia.
Qed.

Lemma getlines_unlines lines :
  Forall no_newline lines -> getlines (unlines lines) = lines.
Proof.
  induction 1 as [|l lines Hl _ IH]; [reflexivity|].
  cbn [unlines foldr]. fold (unlines lines).
  unfold no_newline in Hl. induction l as [|c l IHl].
  - change (EmptyString +:+ nl +:+ unlines lines)
      with (String "010"%char (unlines lines)).
    cbn [getlines]. change (Ascii.eqb "010"%char "010"%char) with true.
    cbv iota. now rewrite IH.
  - cbn [string_all] in Hl. apply andb_prop in Hl as [Hc Hl].
    change (String c l +:+ nl +:+ unlines lines)
      with (String c (l +:+ nl +:+ unlines lines)).
    cbn [getlines]. apply negb_true_iff in Hc. rewrite Hc.
    now rewrite (IHl Hl).
Qed.

End ReadTasksMore.

(** X4.  The tasks that [read_tasks] returns are numbered 0, 1, 2, ... in
    the order of the list: a pair of lines that is skipped takes no number.
    The number of tasks is taken to fit [size_t]. *)
Theorem read_tasks_indexes (input_file output_file : string) (w w' : world)
    (tasks : list ImageTask) (i : nat) (t : ImageTask) :
  read_tasks input_file output_file w = (Ok tasks, w') ->
  (Z.of_nat (length tasks) <= SIZE_MAX)%Z ->
  tasks !! i = Some t ->
  index t = Z.of_nat i.
Proof.
  unfold read_tasks, bind, get_files.
  destruct (ifstream_open (files w) input_file) as [inputs|]; [|discriminate].
  destruct (ifstream_open (files w) output_file) as [outputs|]; [|discriminate].
  unfold ret. generalize (S (String.length inputs)). intros fuel [= <- <-] Hfit.
  apply read_loop_indexes; [reflexivity|exact Hfit|].
  intros j u Hj. rewrite lookup_nil in Hj. discriminate.
Qed.

(** X5.  Two files that hold one path per line, each line ended by a
    newline, are read as the pairs of their lines, in order, without the
    pairs that have an empty line, up to the end of the shorter file. *)
Theorem read_tasks_of_lines (input_file output_file : string) (w : world)
    (ins outs : list string) :
  Forall no_newline ins -> Forall no_newline outs ->
  fs_lookup (files w) (path_of_string input_file)
    = Some (File true (bytes (unlines ins))) ->
  fs_lookup (files w) (path_of_string output_file)
    = Some (File true (bytes (unlines outs))) ->
  exists tasks,
    read_tasks input_file output_file w = (Ok tasks, w) /\
    map task_paths tasks = filter both_nonempty (zip ins outs).
Proof.
  intros Hins Houts Hin Hout.
  destruct (read_tasks_pairs input_file output_file w (unlines ins) (unlines outs))
    as (tasks & Hrun & Hpairs & _).
  - unfold ifstream_open. rewrite Hin. unfold bytes.
    now rewrite string_of_list_byte_of_string.
  - unfold ifstream_open. rewrite Hout. unfold bytes.
    now rewrite string_of_list_byte_of_string.
  - exists tasks. split; [exact Hrun|].
    now rewrite Hpairs, !getlines_unlines.
Qed.

Lemma read_tasks_indexes_witness :
  index {| input_path := "/img/c.png"; output_path := "/out/c"; index := 1 |}
  = Z.of_nat 1.
Proof.
  apply (read_tasks_indexes "inputs.txt" "outputs.txt" gapped_world gapped_world
           gapped_tasks 1).
  - vm_compute. reflexivity.
  - vm_compute. discriminate.
  - reflexivity.
Defined.

Lemma read_tasks_of_lines_witness :
  exists tasks,
    read_tasks "inputs.txt" "outputs.txt" gapped_world = (Ok tasks, gapped_world) /\
    map task_paths tasks = filter both_nonempty (zip gapped_inputs gapped_outputs).
Proof.
  apply (read_tasks_of_lines "inputs.txt" "outputs.txt" gapped_world
           gapped_inputs gapped_outputs).
  - repeat constructor.
  - repeat constructor.
  - reflexivity.
  - reflexivity.
Defined.

(* ================================================================= *)
(** ** Further properties of write_metadata *)

Section Metadata.

Lemma append_empty_r (s : string) : s +:+ EmptyString = s.
Proof.
  induction s as [|c s IH]; [reflexivity|].
  change (String c (s +:+ EmptyString) = String c s). now rewrite IH.
Qed.

Lemma tiles_text_entries tiles : forall i,
  (0 <= i)%Z -> (i + vsize tiles <= SIZE_MAX)%Z ->
  tiles_text tiles i (i + vsize tiles) = entries_text tiles.
Proof.
  induction tiles as [|t rest IH]; intros i Hi Hfit; [reflexivity|].
  cbn [tiles_text]. rewrite vsize_cons in *.
  pose proof (vsize_nonneg rest) as Hrest.
  assert (Hnext : size_t_add i 1 = (i + 1)%Z).
  { unfold size_t_add, wrap_size_t, SIZE_MAX in *. rewrite Z.mod_small; lia. }
  assert (Hlast : size_t_sub (i + (1 + vsize rest)) 1 = (i + vsize rest)%Z).
  { unfold size_t_sub, wrap_size_t, SIZE_MAX in *.
    replace (i + (1 + vsize rest) - 1)%Z with (i + vsize rest)%Z by lia.
    rewrite Z.mod_small; lia. }
  rewrite Hnext.
  replace (i + (1 + vsize rest))%Z with ((i + 1) + vsize rest)%Z at 2 by lia.
  rewrite IH by lia. unfold tile_text. rewrite Hlast.
  destruct rest as [|t2 rest].
  - change (vsize []) with 0%Z. rewrite Z.add_0_r, Z.ltb_irrefl.
    unfold entries_text, tile_entry. cbn [map String.concat].
    now rewrite !append_assoc, !append_empty_r.
  - assert ((i <? i + vsize (t2 :: rest))%Z = true) as ->.
    { apply Z.ltb_lt. rewrite vsize_cons. pose proof (vsize_nonneg rest). lia. }
    unfold entries_text, tile_entry.
    cbn [map String.concat]. now rewrite !append_assoc.
Qed.

Lemma fs_alter_fails f fs p es :
  fs_lookup fs p = Some (Dir es) -> f es = None -> fs_alter f fs p = None.
Proof.
  intros Hat Hf. destruct (fs_alter f fs p) as [fs'|] eqn:E; [|reflexivity].
  apply fs_alter_inv in E as (es0 & es1 & Hat0 & Hf0 & _). congruence.
Qed.

Lemma ofstream_open_refused folder name w es :
  at_folder w folder es -> truncate_entry name es = None ->
  ofstream_open (folder ++ [name]) w = (Ok false, w).
Proof.
  intros Hat Htrunc. unfold ofstream_open.
  rewrite filename_snoc, parent_path_snoc.
  now rewrite (fs_alter_fails _ _ _ es Hat Htrunc).
Qed.

End Metadata.

(** X6.  The metadata file holds the header, the entries in the order of
    the list with a comma between two of them and none after the last, and
    the footer.  With no entry the header is followed by the footer: the
    bound [size - 1] of the comma test wraps around, and is not used. *)
Theorem metadata_text_entries (wd ht ts : Z) (tiles_map : list TileInfo) :
  (vsize tiles_map <= SIZE_MAX)%Z ->
  metadata_text wd ht ts tiles_map
  = metadata_header wd ht ts +:+ entries_text tiles_map +:+ metadata_footer.
Proof.
  intros Hfit. unfold metadata_text.
  now rewrite <- (tiles_text_entries tiles_map 0) by (cbn; lia).
Qed.

(** X7.  [write_metadata] replaces what [metadata.json] held by the text,
    or creates the file, and leaves every other entry of the folder and the
    counter as they were.  It throws, and changes nothing, exactly when
    [metadata.json] names a directory or a socket, the two kinds of node on
    which [std::ofstream] does not open; every regular file of the model can
    be written. *)
Theorem write_metadata_effect (folder : path) (wd ht ts : Z)
    (tiles_map : list TileInfo) (w : world) (es : list (string * node)) :
  at_folder w folder es ->
  match dir_lookup "metadata.json" es with
  | Some (Dir _) | Some Socket =>
      write_metadata folder wd ht ts tiles_map w
      = (Throw ("Cannot create metadata file: "
                +:+ path_string (folder ++ ["metadata.json"])), w)
  | _ =>
      exists w',
        write_metadata folder wd ht ts tiles_map w = (Ok tt, w') /\
        at_folder w' folder
          (dir_set "metadata.json"
             (File (created_mode "metadata.json" es)
                   (bytes (metadata_text wd ht ts tiles_map))) es) /\
        completed_count w' = completed_count w
  end.
Proof.
  intros Hat. unfold write_metadata, bind.
  destruct (truncate_entry "metadata.json" es) as [es1|] eqn:Htrunc.
  - destruct (ofstream_open_spec folder "metadata.json" w es es1 Hat Htrunc)
      as (w1 & -> & Hat1 & Hc1). cbn [negb].
    pose proof Htrunc as Hsome.
    apply truncate_entry_inv in Htrunc as [-> _].
    destruct (ofstream_write_spec folder "metadata.json"
                (list_byte_of_string (metadata_text wd ht ts tiles_map)) w1 _ _ []
                Hat1 (dir_lookup_set_eq _ _ _)) as (w2 & Hw & Hat2 & Hc2).
    rewrite dir_set_set in Hat2.
    assert (exists w', ofstream_write (folder ++ ["metadata.json"])
                         (list_byte_of_string (metadata_text wd ht ts tiles_map)) w1
                       = (Ok tt, w') /\
                       at_folder w' folder
                         (dir_set "metadata.json"
                            (File (created_mode "metadata.json" es)
                                  (bytes (metadata_text wd ht ts tiles_map))) es) /\
                       completed_count w' = completed_count w) as Hdone.
    { exists w2. split; [exact Hw|]. split; [exact Hat2|congruence]. }
    unfold truncate_entry in Hsome.
    destruct (dir_lookup "metadata.json" es) as [[r d|sub|]|];
      try discriminate; exact Hdone.
  - rewrite (ofstream_open_refused folder "metadata.json" w es Hat Htrunc).
    cbn [negb]. unfold truncate_entry in Htrunc.
    destruct (dir_lookup "metadata.json" es) as [[r d|sub|]|];
      try discriminate; reflexivity.
Qed.

Lemma metadata_text_entries_witness :
  metadata_text 1024 1024 512 pyramid_tiles
  = metadata_header 1024 1024 512 +:+ entries_text pyramid_tiles
    +:+ metadata_footer.
Proof.
  apply (metadata_text_entries 1024 1024 512 pyramid_tiles).
  vm_compute. discriminate.
Defined.

Lemma write_metadata_effect_witness :
  exists w',
    write_metadata ["out"] 1024 1024 512 pyramid_tiles pyramid_packed = (Ok tt, w') /\
    at_folder w' ["out"]
      (dir_set "metadata.json"
         (File true (bytes (metadata_text 1024 1024 512 pyramid_tiles)))
         pyramid_packed_entries) /\
    completed_count w' = completed_count pyramid_packed.
Proof.
  apply (write_metadata_effect ["out"] 1024 1024 512 pyramid_tiles pyramid_packed
           pyramid_packed_entries).
  vm_compute. reflexivity.
Defined.

(* ================================================================= *)
(** ** Further properties of merge_tiles_to_binary *)

Section Outcome.

Variable zlib : list byte -> deflate_outcome.
Variable folder : path.
Variable name : string.

(** The clean-up, whether it returns or throws. *)
Lemma remove_tiles_outcome w es :
  at_folder w folder es ->
  exists w',
    completed_count w' = completed_count w /\
    match dir_lookup "blank.png" (remove_level_dirs es) with
    | Some (Dir (_ :: _)) =>
        remove_tiles folder w
        = (Throw ("filesystem error: cannot remove: Directory not empty ["
                  +:+ path_string (folder ++ ["blank.png"]) +:+ "]"), w') /\
        at_folder w' folder (remove_level_dirs es)
    | _ =>
        remove_tiles folder w = (Ok tt, w') /\
        at_folder w' folder (clean_up es)
    end.
Proof.
  intros Hat. unfold remove_tiles, bind, directory_iterator, get_files.
  unfold at_folder in Hat. rewrite Hat.
  destruct (set_entries_spec folder w es (remove_level_dirs es) Hat)
    as (w1 & -> & Hat1 & Hc1).
  rewrite (lookup_in_folder folder w1 _ ["blank.png"] Hat1). cbn [fs_lookup].
  unfold clean_up.
  destruct (fs_remove_spec folder "blank.png" w1 _ Hat1) as (w2 & Hrm & Hat2 & Hc2).
  destruct (dir_lookup "blank.png" (remove_level_dirs es)) as [m|] eqn:Eb.
  - destruct m as [r d|[|e es']|].
    + exists w2. rewrite Hrm. split; [congruence|]. split; [reflexivity|exact Hat2].
    + exists w2. rewrite Hrm. split; [congruence|]. split; [reflexivity|exact Hat2].
    + exists w1. split; [exact Hc1|]. split; [reflexivity|exact Hat1].
    + exists w2. rewrite Hrm. split; [congruence|]. split; [reflexivity|exact Hat2].
  - exists w1. split; [exact Hc1|]. split; [reflexivity|].
    now rewrite dir_remove_absent.
Qed.

(** The packer acts on the tile folder as [merge_pure] says. *)
Lemma merge_outcome keep w es :
  at_folder w folder es ->
  NoDup (map fst es) ->
  exists w',
    merge_tiles_to_binary zlib folder name keep w
    = ((merge_pure zlib (read_all (files w)) folder name keep es).1, w') /\
    at_folder w' folder (merge_pure zlib (read_all (files w)) folder name keep es).2 /\
    completed_count w' = completed_count w.
Proof.
  intros Hat Hnd. unfold merge_pure, merge_tiles_to_binary.
  destruct (truncate_entry name es) as [es1|] eqn:Htrunc.
  - destruct (ofstream_open_spec folder name w es es1 Hat Htrunc)
      as (w1 & Hopen & Hat1 & Hc1).
    unfold bind at 1. rewrite Hopen. cbn [negb].
    apply truncate_entry_inv in Htrunc as (-> & Hname).
    unfold bind at 1. unfold directory_iterator.
    unfold at_folder in Hat1. rewrite Hat1.
    rewrite collect_levels_set_file by assumption.
    set (tile_files := sort_paths (collect_levels folder es)).
    assert (Hoff : forall p, p ∈ tile_files ->
                             exists l q, p = folder ++ l :: q /\ l <> name).
    { intros p Hp. subst tile_files. rewrite elem_of_sort_paths in Hp.
      eapply collected_off_blob; eassumption. }
    destruct (pack_tiles_run zlib folder name tile_files 0 [] w1 _ _ []
                Hat1 (dir_lookup_set_eq _ _ _) Hoff) as (w2 & Hrun & Hat2 & Hc2).
    rewrite (pack_pure_ext zlib name (read_all (files w1)) (read_all (files w)))
      in Hrun, Hat2.
    2,3: intros q Hq; destruct (Hoff q Hq) as (l & q' & -> & Hne);
         apply (read_all_frame folder w w1 es _ l q' Hat Hat1);
         now apply dir_lookup_set_ne.
    unfold bind at 1. rewrite Hrun.
    rewrite dir_set_set in Hat2. cbn [app] in Hat2.
    destruct (pack_pure zlib (read_all (files w)) name tile_files 0 [])
      as [[tm|e] blob]; cbn [fst snd] in *.
    + unfold bind. destruct keep; cbn [negb].
      * exists w2. split; [reflexivity|]. split; [exact Hat2|congruence].
      * destruct (remove_tiles_outcome w2 _ Hat2) as (w3 & Hc3 & Hrm).
        exists w3.
        destruct (dir_lookup "blank.png" (remove_level_dirs _)) as [[r d|[|e sub]|]|];
          destruct Hrm as [-> Hat3]; cbn [fst snd];
          (split; [reflexivity|]); (split; [exact Hat3|congruence]).
    + exists w2. split; [reflexivity|]. split; [exact Hat2|congruence].
  - unfold bind.
    rewrite (ofstream_open_refused folder name w es Hat Htrunc). cbn [negb].
    exists w. split; [reflexivity|]. split; [exact Hat|reflexivity].
Qed.

(** A [merge_pure] that returns has packed every tile, and has cleaned up
    unless the tiles are kept. *)
Lemma merge_pure_ok read (keep : bool) es tiles es' :
  merge_pure zlib read folder name keep es = (Ok tiles, es') ->
  exists blob,
    pack_pure zlib read name (sort_paths (collect_levels folder es)) 0 []
      = (Ok tiles, blob) /\
    es' = (let es2 := dir_set name (File (created_mode name es) blob) es in
           if keep then es2 else clean_up es2).
Proof.
  unfold merge_pure.
  destruct (truncate_entry name es); [|discriminate].
  destruct (pack_pure zlib read name _ 0 []) as [[tm|e] blob];
    cbn [fst snd]; [|discriminate].
  destruct keep.
  - intros [= <- <-]. eauto.
  - destruct (dir_lookup "blank.png" _) as [[r d|[|e sub]|]|];
      intros [= <- <-]; eauto.
Qed.

(** The loop throws what the compressor throws, and nothing else. *)
Lemma pack_pure_throws read tile_files : forall off tm e blob,
  pack_pure zlib read name tile_files off tm = (Throw e, blob) ->
  e = "Failed to initialize gzip compression" \/ e = "Failed to compress data".
Proof.
  induction tile_files as [|p rest IH]; intros off tm e blob; cbn [pack_pure];
    [discriminate|].
  unfold gzip_compress at 1. destruct (zlib (read p)) as [|c|].
  - intros [= <- _]. now left.
  - destruct (pack_pure zlib read name rest _ _) as [r blob'] eqn:Erest.
    intros [= -> _]. eapply IH, Erest.
  - intros [= <- _]. now right.
Qed.

End Outcome.

Section Slices.
Local Open Scope Z_scope.

Variable zlib : list byte -> deflate_outcome.

Lemma slice_head (c rest : list byte) : slice (c ++ rest) 0 (vsize c) = c.
Proof.
  unfold slice, vsize. rewrite Nat2Z.id. change (Z.to_nat 0) with 0%nat.
  rewrite drop_0. now rewrite take_app_length.
Qed.

Lemma slice_tail (c rest : list byte) off size :
  0 <= off -> slice (c ++ rest) (vsize c + off) size = slice rest off size.
Proof.
  intros Hoff. unfold slice, vsize. f_equal.
  rewrite Z2Nat.inj_add, Nat2Z.id by lia.
  now rewrite drop_app_add.
Qed.

(** Every entry the loop adds names the bytes the compressor gave for its
    tile: they are in the appended bytes at the offset of the entry, counted
    from the offset the loop started at. *)
Lemma pack_pure_slices read name tile_files :
  forall off tm tiles blob,
    pack_pure zlib read name tile_files off tm = (Ok tiles, blob) ->
    0 <= off -> off + vsize blob <= SIZE_MAX ->
    exists new,
      tiles = tm ++ new /\
      Forall2 (fun p t =>
                 key t = tile_key p /\ binary_name t = name /\
                 off <= start_offset t /\
                 zlib (read p)
                 = StreamEnd (slice blob (start_offset t - off) (byte_size t)))
              tile_files new.
Proof.
  induction tile_files as [|p rest IH]; intros off tm tiles blob; cbn [pack_pure].
  - intros [= <- <-] _ _. exists []. rewrite app_nil_r. split; [reflexivity|].
    constructor.
  - destruct (gzip_compress zlib (read p)) as [c|e] eqn:Ec; [|discriminate].
    destruct (pack_pure zlib read name rest _ _) as [r blob'] eqn:Erest.
    intros [= -> <-] Hoff Hfit.
    pose proof (vsize_nonneg c). pose proof (vsize_nonneg blob').
    rewrite vsize_app in Hfit.
    assert (Hnext : size_t_add off (vsize c) = off + vsize c).
    { unfold size_t_add, wrap_size_t, SIZE_MAX in *. rewrite Z.mod_small; lia. }
    rewrite Hnext in Erest.
    destruct (IH _ _ _ _ Erest) as (new & -> & Hall); [lia|lia|].
    eexists (_ :: new). rewrite <- app_assoc. split; [reflexivity|].
    constructor.
    + cbn [key binary_name start_offset byte_size].
      split; [reflexivity|]. split; [reflexivity|]. split; [lia|].
      rewrite Z.sub_diag, slice_head. now apply gzip_compress_ok.
    + eapply Forall2_impl; [exact Hall|].
      intros q t (Hk & Hn & Hstart & Hz). cbn beta.
      split; [exact Hk|]. split; [exact Hn|]. split; [lia|].
      rewrite Hz. f_equal.
      replace (start_offset t - off) with (vsize c + (start_offset t - (off + vsize c)))
        by lia.
      now rewrite slice_tail by lia.
Qed.

End Slices.

(** X8.  The index reads the blob back: after a call that returned, the
    entries are, in order, those of the sorted tile files, and each entry
    names the place of the blob file, [byte_size] bytes from [start_offset],
    that holds what the compressor gave for the tile of the entry.  The blob
    is taken to fit [size_t]. *)
Theorem blob_slices (zlib : list byte -> deflate_outcome) (folder : path)
    (name : string) (keep : bool) (w w' : world) (tiles : list TileInfo) :
  wfb (files w) = true ->
  name <> "blank.png" ->
  merge_tiles_to_binary zlib folder name keep w = (Ok tiles, w') ->
  (total_size tiles <= SIZE_MAX)%Z ->
  exists es rd blob,
    at_folder w folder es /\
    fs_lookup (files w') (folder ++ [name]) = Some (File rd blob) /\
    Forall2 (fun p t =>
               key t = tile_key p /\ binary_name t = name /\
               zlib (read_all (files w) p)
               = StreamEnd (slice blob (start_offset t) (byte_size t)))
            (sort_paths (collect_levels folder es)) tiles.
Proof.
  intros Hwf Hblank Hrun Hfit.
  destruct (merge_run zlib folder name keep w tiles w' Hwf Hrun)
    as (es & blob & Hat & _ & Hpure & Hat' & _).
  pose proof (blob_after_merge folder name keep w' es _ blob Hat') as Hblob.
  destruct (String.eqb_spec "blank.png" name) as [E|_]; [congruence|].
  rewrite andb_false_r in Hblob.
  destruct (pack_pure_ok zlib _ _ _ _ _ _ _ Hpure) as (new0 & E0 & _ & Hsize & _).
  cbn [app] in E0. subst new0.
  destruct (pack_pure_slices zlib _ _ _ _ _ _ _ Hpure) as (new & -> & Hall);
    [lia|lia|].
  exists es, (created_mode name es), blob.
  split; [exact Hat|]. split; [exact Hblob|].
  cbn [app]. eapply Forall2_impl; [exact Hall|].
  intros p t (Hk & Hn & _ & Hz). rewrite Z.sub_0_r in Hz. auto.
Qed.

(** X9.  The exceptions of the packer and what each leaves behind.  When the
    blob cannot be created nothing has changed.  When the compressor fails,
    the folder holds the blob, cut short, and every other entry as it was:
    no tile has been removed, kept or not.  When the removal of a
    [blank.png] that is a directory with entries fails, the level directories
    are gone and the blob is complete.  On the file system of the model,
    where every directory can be listed and removed, there is no other
    exception. *)
Theorem merge_failure_cases (zlib : list byte -> deflate_outcome) (folder : path)
    (name : string) (keep : bool) (w w' : world) (e : string) :
  wfb (files w) = true ->
  merge_tiles_to_binary zlib folder name keep w = (Throw e, w') ->
  (e = "Cannot create binary file: " +:+ path_string (folder ++ [name]) /\
   w' = w) \/
  ((e = "Failed to initialize gzip compression" \/ e = "Failed to compress data") /\
   exists es blob,
     at_folder w folder es /\
     at_folder w' folder (dir_set name (File (created_mode name es) blob) es)) \/
  (e = "filesystem error: cannot remove: Directory not empty ["
       +:+ path_string (folder ++ ["blank.png"]) +:+ "]" /\
   keep = false /\
   exists es blob,
     at_folder w folder es /\
     at_folder w' folder
       (remove_level_dirs (dir_set name (File (created_mode name es) blob) es))).
Proof.
  intros Hwf Hrun.
  destruct (ofstream_open_result (folder ++ [name]) w) as (good & w1 & Hopen).
  pose proof Hopen as Hinv. apply ofstream_open_inv in Hinv as [_ Hgood].
  destruct good.
  - destruct Hgood as (es & es1 & Hat & Htrunc & _).
    destruct (wfb_at_folder folder w es Hwf Hat) as [Hnd _].
    destruct (merge_outcome zlib folder name keep w es Hat Hnd)
      as (w2 & Hrun2 & Hat2 & _).
    rewrite Hrun in Hrun2. injection Hrun2 as He <-.
    unfold merge_pure in He, Hat2. rewrite Htrunc in He, Hat2.
    destruct (pack_pure zlib (read_all (files w)) name _ 0 [])
      as [[tm|e'] blob] eqn:Hpure; cbn [fst snd] in *.
    + destruct keep; [discriminate|].
      destruct (dir_lookup "blank.png" _) as [[r d|[|e0 sub]|]|];
        cbn [fst snd] in *; try discriminate.
      injection He as ->. right. right.
      split; [reflexivity|]. split; [reflexivity|]. eauto.
    + injection He as ->. right. left. split; [|eauto].
      eapply pack_pure_throws, Hpure.
  - subst w1. unfold merge_tiles_to_binary, bind in Hrun.
    rewrite Hopen in Hrun. cbn [negb] in Hrun. unfold throw in Hrun.
    injection Hrun as <- <-. left. auto.
Qed.

Lemma blob_slices_witness :
  exists es rd blob,
    at_folder pyramid_world ["out"] es /\
    fs_lookup (files pyramid_packed) (["out"] ++ ["tiles_000.binz"])
      = Some (File rd blob) /\
    Forall2 (fun p t =>
               key t = tile_key p /\ binary_name t = "tiles_000.binz" /\
               framing_deflate (read_all (files pyramid_world) p)
               = StreamEnd (slice blob (start_offset t) (byte_size t)))
            (sort_paths (collect_levels ["out"] es)) pyramid_tiles.
Proof.
  apply (blob_slices framing_deflate ["out"] "tiles_000.binz" false
           pyramid_world pyramid_packed pyramid_tiles).
  - vm_compute. reflexivity.
  - discriminate.
  - vm_compute. reflexivity.
  - vm_compute. discriminate.
Defined.

Lemma merge_failure_cases_witness :
  ("Failed to initialize gzip compression"
   = "Cannot create binary file: " +:+ path_string (["out"] ++ ["tiles_000.binz"]) /\
   pyramid_unpacked = pyramid_world) \/
  (("Failed to initialize gzip compression" = "Failed to initialize gzip compression"
    \/ "Failed to initialize gzip compression" = "Failed to compress data") /\
   exists es blob,
     at_folder pyramid_world ["out"] es /\
     at_folder pyramid_unpacked ["out"]
       (dir_set "tiles_000.binz"
          (File (created_mode "tiles_000.binz" es) blob) es)) \/
  ("Failed to initialize gzip compression"
   = "filesystem error: cannot remove: Directory not empty ["
     +:+ path_string (["out"] ++ ["blank.png"]) +:+ "]" /\
   false = false /\
   exists es blob,
     at_folder pyramid_world ["out"] es /\
     at_folder pyramid_unpacked ["out"]
       (remove_level_dirs
          (dir_set "tiles_000.binz"
             (File (created_mode "tiles_000.binz" es) blob) es))).
Proof.
  apply (merge_failure_cases failing_deflate ["out"] "tiles_000.binz" false
           pyramid_world pyramid_unpacked "Failed to initialize gzip compression").
  - vm_compute. reflexivity.
  - vm_compute. reflexivity.
Defined.

Section Repack.

Variable zlib : list byte -> deflate_outcome.
Variable folder : path.
Variable name : string.

Lemma nodup_names_filter (P : string * node -> bool) (es : list (string * node)) :
  NoDup (map fst es) -> NoDup (map fst (filter P es)).
Proof.
  induction es as [|[k c] es IH]; [intros _; constructor|].
  cbn [map fst]. intros [Hk Hnd]%NoDup_cons.
  destruct (P (k, c)) eqn:E.
  - rewrite filter_cons_True by now rewrite E.
    cbn [map fst]. apply NoDup_cons. split; [|now apply IH].
    intros Hin. apply Hk. apply list_elem_of_In, in_map_iff in Hin as ([k' c'] & <- & Hin).
    apply list_elem_of_In, list_elem_of_filter in Hin as [_ Hin].
    eapply elem_of_names, Hin.
  - rewrite filter_cons_False by now rewrite E. now apply IH.
Qed.

Lemma clean_up_nodup es : NoDup (map fst es) -> NoDup (map fst (clean_up es)).
Proof.
  intros Hnd. unfold clean_up, dir_remove, remove_level_dirs.
  now do 2 apply nodup_names_filter.
Qed.

(** Without a directory that has an all-digit name the loops find no
    tile. *)
Lemma collect_levels_none es :
  (forall n c, (n, c) ∈ es -> is_directory c && all_digits n = false) ->
  collect_levels folder es = [].
Proof.
  intros Hnone. apply elem_of_nil_inv. intros p Hp.
  apply elem_of_collect_levels in Hp as (l & rows & Hin & Hd & _).
  specialize (Hnone _ _ Hin). cbn in Hnone. congruence.
Qed.

Lemma at_folder_merge_run keep w w' es tiles :
  at_folder w folder es -> NoDup (map fst es) ->
  merge_tiles_to_binary zlib folder name keep w = (Ok tiles, w') ->
  exists blob,
    pack_pure zlib (read_all (files w)) name
      (sort_paths (collect_levels folder es)) 0 [] = (Ok tiles, blob) /\
    at_folder w' folder
      (let es2 := dir_set name (File (created_mode name es) blob) es in
       if keep then es2 else clean_up es2).
Proof.
  intros Hat Hnd Hrun.
  destruct (merge_outcome zlib folder name keep w es Hat Hnd)
    as (w2 & Hrun2 & Hat2 & _).
  rewrite Hrun in Hrun2. injection Hrun2 as He <-.
  destruct (merge_pure zlib (read_all (files w)) folder name keep es)
    as [r es'] eqn:Hpure. cbn [fst snd] in *. subst r.
  apply merge_pure_ok in Hpure as (blob & Hpack & ->). eauto.
Qed.

End Repack.

(** X10.  Packing a folder again after a packing that removed the tiles finds
    no tile: the call returns no entry and leaves the blob empty, so what
    the first call had packed is lost. *)
Theorem repack_after_clean_up (zlib : list byte -> deflate_outcome)
    (folder : path) (name : string) (keep : bool) (w w1 w2 : world)
    (tiles1 tiles2 : list TileInfo) :
  wfb (files w) = true ->
  name <> "blank.png" ->
  merge_tiles_to_binary zlib folder name false w = (Ok tiles1, w1) ->
  merge_tiles_to_binary zlib folder name keep w1 = (Ok tiles2, w2) ->
  tiles2 = [] /\
  exists rd, fs_lookup (files w2) (folder ++ [name]) = Some (File rd []).
Proof.
  intros Hwf Hblank Hrun1 Hrun2.
  destruct (merge_run zlib folder name false w tiles1 w1 Hwf Hrun1)
    as (es & blob & Hat & _ & _ & Hat1 & _).
  destruct (wfb_at_folder folder w es Hwf Hat) as [Hnd _].
  cbv zeta iota in Hat1.
  set (es1 := clean_up (dir_set name (File (created_mode name es) blob) es)) in *.
  assert (Hnd1 : NoDup (map fst es1)).
  { apply clean_up_nodup, dir_set_nodup, Hnd. }
  destruct (at_folder_merge_run zlib folder name keep w1 w2 es1 tiles2 Hat1 Hnd1 Hrun2)
    as (blob2 & Hpack & Hat2).
  rewrite (collect_levels_none folder es1) in Hpack.
  2: { intros n c Hin. eapply elem_of_clean_up, Hin. }
  change (sort_paths []) with (@nil path) in Hpack. cbn [pack_pure] in Hpack.
  injection Hpack as <- <-. split; [reflexivity|].
  pose proof (blob_after_merge folder name keep w2 es1 _ [] Hat2) as Hblob.
  destruct (String.eqb_spec "blank.png" name) as [E|_]; [congruence|].
  rewrite andb_false_r in Hblob. eauto.
Qed.

(** X11.  Packing a folder again after a packing that kept the tiles gives
    the same entries and the same blob: the blob of the first call is not
    taken for a tile, and is replaced by an equal one. *)
Theorem repack_kept_tiles (zlib : list byte -> deflate_outcome)
    (folder : path) (name : string) (keep : bool) (w w1 w2 : world)
    (tiles1 tiles2 : list TileInfo) :
  wfb (files w) = true ->
  name <> "blank.png" ->
  merge_tiles_to_binary zlib folder name true w = (Ok tiles1, w1) ->
  merge_tiles_to_binary zlib folder name keep w1 = (Ok tiles2, w2) ->
  tiles2 = tiles1 /\
  fs_lookup (files w2) (folder ++ [name]) = fs_lookup (files w1) (folder ++ [name]).
Proof.
  intros Hwf Hblank Hrun1 Hrun2.
  destruct (merge_run zlib folder name true w tiles1 w1 Hwf Hrun1)
    as (es & blob & Hat & Hname & Hpure & Hat1 & _).
  destruct (wfb_at_folder folder w es Hwf Hat) as [Hnd _].
  cbv zeta iota in Hat1.
  set (rd := created_mode name es) in *.
  set (es1 := dir_set name (File rd blob) es) in *.
  assert (Hnd1 : NoDup (map fst es1)) by apply dir_set_nodup, Hnd.
  destruct (at_folder_merge_run zlib folder name keep w1 w2 es1 tiles2 Hat1 Hnd1 Hrun2)
    as (blob2 & Hpack & Hat2).
  subst es1. rewrite collect_levels_set_file in Hpack by assumption.
  rewrite (pack_pure_ext zlib name (read_all (files w1)) (read_all (files w)))
    in Hpack.
  2: { intros q Hq. rewrite elem_of_sort_paths in Hq.
       destruct (collected_off_blob folder name es q Hnd Hname Hq)
         as (l & q' & -> & Hne).
       apply (read_all_frame folder w w1 es _ l q' Hat Hat1).
       now apply dir_lookup_set_ne. }
  rewrite Hpure in Hpack. injection Hpack as <- <-. split; [reflexivity|].
  pose proof (blob_after_merge folder name keep w2 _ _ blob Hat2) as Hblob2.
  pose proof (blob_after_merge folder name true w1 es rd blob Hat1) as Hblob1.
  destruct (String.eqb_spec "blank.png" name) as [E|_]; [congruence|].
  rewrite andb_false_r in Hblob2. cbn [negb andb] in Hblob1.
  rewrite Hblob1, Hblob2. unfold created_mode at 1.
  now rewrite dir_lookup_set_eq.
Qed.

Lemma repack_after_clean_up_witness :
  @nil TileInfo = [] /\
  exists rd,
    fs_lookup (files pyramid_repacked) (["out"] ++ ["tiles_000.binz"])
    = Some (File rd []).
Proof.
  apply (repack_after_clean_up framing_deflate ["out"] "tiles_000.binz" false
           pyramid_world pyramid_packed pyramid_repacked pyramid_tiles []).
  - vm_compute. reflexivity.
  - discriminate.
  - vm_compute. reflexivity.
  - vm_compute. reflexivity.
Defined.

Lemma repack_kept_tiles_witness :
  pyramid_tiles = pyramid_tiles /\
  fs_lookup (files pyramid_kept_again) (["out"] ++ ["tiles_000.binz"])
  = fs_lookup (files pyramid_kept) (["out"] ++ ["tiles_000.binz"]).
Proof.
  apply (repack_kept_tiles framing_deflate ["out"] "tiles_000.binz" false
           pyramid_world pyramid_kept pyramid_kept_again pyramid_tiles pyramid_tiles).
  - vm_compute. reflexivity.
  - discriminate.
  - vm_compute. reflexivity.
  - vm_compute. reflexivity.
Defined.

(* ================================================================= *)
(** ** Further properties of the loops of main *)

Section Drain.

Variable nthreads : Z.
Variable tasks : list ImageTask.

Lemma drain_inv_init : drain_inv tasks (sched_init tasks).
Proof.
  split; [reflexivity|]. split; [|exact I].
  intros j Hj. inversion Hj.
Qed.

Lemma drain_inv_step s s' :
  drain_inv tasks s -> main_step nthreads s s' -> drain_inv tasks s'.
Proof.
  intros (Hcount & Hsub & Hpos) Hstep.
  destruct Hstep; unfold drain_inv;
    cbn [pending futures running launched pos length] in *.
  - split; [lia|]. split.
    + intros j [->|Hj]%elem_of_cons; apply elem_of_app; [right; now left|].
      left. now apply Hsub.
    + now destruct fs.
  - split; [exact Hcount|]. split; [exact Hsub|exact I].
  - split; [exact Hcount|]. split; [|exact I].
    intros j Hj. specialize (Hsub j Hj).
    apply elem_of_cons in Hsub as [->|Hin]; [contradiction|exact Hin].
  - split; [exact Hcount|]. split.
    + intros k [_ Hk]%list_elem_of_filter. now apply Hsub.
    + destruct p; try exact Hpos.
      * destruct Hpos as [Hp Hpast]. split; [exact Hp|].
        intros k f Hk Hf [_ Hin]%list_elem_of_filter. eapply Hpast; eassumption.
      * destruct Hpos as [Hp Hrun]. split; [exact Hp|]. now rewrite Hrun.
  - split; [exact Hcount|]. split; [exact Hsub|].
    split; [reflexivity|]. intros k f Hk. lia.
  - destruct Hpos as [_ Hpast].
    split; [exact Hcount|]. split; [exact Hsub|].
    split; [reflexivity|]. intros k f' Hk Hf'.
    destruct (decide (k = i)) as [->|Hne].
    + congruence.
    + apply (Hpast k); [lia|exact Hf'].
  - destruct Hpos as [_ Hpast].
    split; [exact Hcount|]. split; [exact Hsub|].
    split; [reflexivity|].
    destruct rs as [|j rs]; [reflexivity|]. exfalso.
    assert (Hj : j ∈ fs) by (apply Hsub; now left).
    apply list_elem_of_lookup in Hj as [k Hk].
    apply (Hpast k j); [|exact Hk|now left].
    apply lookup_lt_Some in Hk. lia.
Qed.

Lemma reachable_drain_inv s : reachable nthreads tasks s -> drain_inv tasks s.
Proof.
  induction 1 as [|s s' _ IH Hstep]; [apply drain_inv_init|].
  eapply drain_inv_step; eassumption.
Qed.

End Drain.

(** X12.  When the two loops of [main] have ended, every task has been
    launched and every job has returned: the summary is printed after the
    last job. *)
Theorem scheduler_completes (nthreads : Z) (tasks : list ImageTask) (s : sched) :
  reachable nthreads tasks s ->
  pos s = Done ->
  pending s = [] /\ running s = [] /\ launched s = length tasks.
Proof.
  intros Hreach Hdone.
  destruct (reachable_drain_inv nthreads tasks s Hreach) as (Hcount & _ & Hpos).
  rewrite Hdone in Hpos. destruct Hpos as [Hp Hr].
  rewrite Hp in Hcount. cbn in Hcount. split; [exact Hp|]. split; [exact Hr|lia].
Qed.

(** X13.  The loops never block for good: until they have ended, either the
    main thread can take a step, or it is waiting, after a push or in the
    last loop, for a job that is still running. *)
Theorem scheduler_progress (nthreads : Z) (tasks : list ImageTask) (s : sched) :
  reachable nthreads tasks s ->
  pos s <> Done ->
  (exists s', main_step nthreads s s' /\ pos s' <> pos s) \/
  (exists j, j ∈ running s /\
             match pos s with
             | AfterPush => head (futures s) = Some j
             | Draining i => futures s !! i = Some j
             | _ => False
             end).
Proof.
  intros Hreach Hnot.
  destruct (reachable_drain_inv nthreads tasks s Hreach) as (_ & _ & Hpos).
  destruct s as [ts fs rs n p]. cbn [pos pending futures running] in *.
  destruct p as [| |i|]; [| | |congruence].
  - left. destruct ts as [|t rest].
    + eexists. split; [apply step_loop_exit|discriminate].
    + eexists. split; [apply step_launch|discriminate].
  - destruct (Z_ge_dec (vsize fs) nthreads) as [Hfull|Hbelow].
    + destruct fs as [|f fs]; [congruence|].
      destruct (decide (f ∈ rs)) as [Hin|Hout].
      * right. exists f. split; [exact Hin|reflexivity].
      * left. eexists. split; [now apply step_wait_front|discriminate].
    + left. eexists. split; [now apply step_below|discriminate].
  - destruct Hpos as [-> _].
    destruct (fs !! i) as [f|] eqn:Hf.
    + destruct (decide (f ∈ rs)) as [Hin|Hout].
      * right. exists f. split; [exact Hin|reflexivity].
      * left. eexists. split; [eapply step_drain_wait; eassumption|].
        cbn. intros [= E]. lia.
    + left. eexists.
      split; [apply step_drain_end; now apply lookup_ge_None|discriminate].
Qed.

Lemma one_task_running_reachable : reachable 2 one_task one_task_running.
Proof.
  eapply reach_step; [eapply reach_step; [eapply reach_step|]|].
  - apply reach_init.
  - apply step_launch.
  - apply step_below. vm_compute. intros H. apply H. reflexivity.
  - apply step_loop_exit.
Qed.

Lemma one_task_done_reachable : reachable 2 one_task one_task_done.
Proof.
  eapply reach_step; [eapply reach_step; [eapply reach_step|]|].
  - apply one_task_running_reachable.
  - apply (step_job_returns 2 [] [0] [0] 1 (Draining 0) 0). now left.
  - apply (step_drain_wait 2 [0] [] 1 0 0); [reflexivity|]. intros H. inversion H.
  - apply step_drain_end. cbn. lia.
Qed.

Lemma scheduler_completes_witness :
  pending one_task_done = [] /\ running one_task_done = [] /\
  launched one_task_done = length one_task.
Proof.
  apply (scheduler_completes 2 one_task one_task_done).
  - exact one_task_done_reachable.
  - reflexivity.
Defined.

Lemma scheduler_progress_witness :
  (exists s', main_step 2 one_task_running s' /\ pos s' <> pos one_task_running) \/
  (exists j, j ∈ running one_task_running /\
             futures one_task_running !! 0 = Some j).
Proof.
  apply (scheduler_progress 2 one_task one_task_running).
  - exact one_task_running_reachable.
  - discriminate.
Defined.

(* ================================================================= *)
(** ** Further properties of the keys *)

Section KeyParts.

Lemma isdigit_underscore : isdigit "_"%char = false.
Proof. reflexivity. Qed.

(** A run of digits before an underscore is read back from the text. *)
Lemma digits_prefix_inj a : forall b x y,
  all_digits a = true -> all_digits b = true ->
  a +:+ "_" +:+ x = b +:+ "_" +:+ y -> a = b /\ x = y.
Proof.
  unfold all_digits.
  induction a as [|c a IH]; intros [|d b] x y Ha Hb; cbn [string_all] in *.
  - intros E. injection E as E. auto.
  - intros E. injection E as E _. subst d.
    rewrite isdigit_underscore in Hb. discriminate.
  - intros E. injection E as E _. subst c.
    rewrite isdigit_underscore in Ha. discriminate.
  - apply andb_prop in Ha as [_ Ha]. apply andb_prop in Hb as [_ Hb].
    intros E. injection E as -> E.
    destruct (IH b x y Ha Hb E) as [-> ->]. auto.
Qed.

Lemma tile_key_parts (folder : path) l r f :
  tile_key (folder ++ [l; r; f]) = l +:+ "_" +:+ r +:+ "_" +:+ stem f.
Proof.
  unfold tile_key.
  change (folder ++ [l; r; f]) with (folder ++ [l] ++ [r] ++ [f]).
  rewrite !app_assoc.
  now rewrite !filename_snoc, !parent_path_snoc, !filename_snoc.
Qed.

End KeyParts.

(** X14.  The key tells the level, the row and the stem of a tile whenever
    the rows have all-digit names, as the levels always do: two tiles found
    in the folder get the same key only if they lie in the same row of the
    same level and their file names differ in the extension alone. *)
Theorem tile_key_collision (folder : path) (es : list (string * node))
    (p q : path) :
  p ∈ collect_levels folder es ->
  q ∈ collect_levels folder es ->
  all_digits (filename (parent_path p)) = true ->
  all_digits (filename (parent_path q)) = true ->
  tile_key p = tile_key q ->
  parent_path p = parent_path q /\ stem (filename p) = stem (filename q).
Proof.
  intros (l1 & rows1 & r1 & tiles1 & f1 & c1 & _ & Hl1 & _ & _ & _ & _ & ->)
    %collect_levels_inv.
  intros (l2 & rows2 & r2 & tiles2 & f2 & c2 & _ & Hl2 & _ & _ & _ & _ & ->)
    %collect_levels_inv.
  rewrite !tile_key_parts.
  change (folder ++ [l1; r1; f1]) with (folder ++ [l1; r1] ++ [f1]).
  change (folder ++ [l2; r2; f2]) with (folder ++ [l2; r2] ++ [f2]).
  rewrite !app_assoc, !parent_path_snoc, !filename_snoc.
  change (folder ++ [l1; r1]) with (folder ++ [l1] ++ [r1]).
  change (folder ++ [l2; r2]) with (folder ++ [l2] ++ [r2]).
  rewrite !app_assoc, !filename_snoc.
  intros Hr1 Hr2 Hkey.
  apply digits_prefix_inj in Hkey as [-> Hkey]; [|assumption..].
  apply digits_prefix_inj in Hkey as [-> Hkey]; [|assumption..].
  auto.
Qed.

Lemma tile_key_collision_witness :
  parent_path ["out"; "0"; "0"; "2.jpg"] = parent_path ["out"; "0"; "0"; "2.png"] /\
  stem (filename ["out"; "0"; "0"; "2.jpg"]) = stem (filename ["out"; "0"; "0"; "2.png"]).
Proof.
  apply (tile_key_collision ["out"] twin_rows).
  - vm_compute. right. left.
  - vm_compute. left.
  - reflexivity.
  - reflexivity.
  - reflexivity.
Defined.

(* ================================================================= *)
(** ** The counter of completed jobs *)

Section Counter.

Lemma keeps_count_ret {A} (a : A) : keeps_count (ret a).
Proof. intros w r w' [= _ <-]. reflexivity. Qed.

Lemma keeps_count_throw {A} (e : string) : keeps_count (@throw A e).
Proof. intros w r w' [= _ <-]. reflexivity. Qed.

Lemma keeps_count_lift {A} (x : result A) : keeps_count (lift_result x).
Proof. intros w r w' [= _ <-]. reflexivity. Qed.

Lemma keeps_count_bind {A B} (m : io A) (k : A -> io B) :
  keeps_count m -> (forall a, keeps_count (k a)) -> keeps_count (bind m k).
Proof.
  intros Hm Hk w r w'. unfold bind.
  destruct (m w) as [[a|e] w1] eqn:E.
  - intros Hrun. rewrite (Hk a w1 r w' Hrun). eapply Hm, E.
  - intros [= _ <-]. eapply Hm, E.
Qed.

Lemma keeps_count_get_files : keeps_count get_files.
Proof. intros w r w' [= _ <-]. reflexivity. Qed.

Lemma keeps_count_ofstream_open p : keeps_count (ofstream_open p).
Proof.
  intros w r w'. unfold ofstream_open.
  destruct (fs_alter _ _ _); intros [= _ <-]; reflexivity.
Qed.

Lemma keeps_count_ofstream_write p data : keeps_count (ofstream_write p data).
Proof.
  intros w r w'. unfold ofstream_write.
  destruct (fs_alter _ _ _); intros [= _ <-]; reflexivity.
Qed.

Lemma keeps_count_read_all p : keeps_count (ifstream_read_all p).
Proof. intros w r w' [= _ <-]. reflexivity. Qed.

Lemma keeps_count_directory_iterator p : keeps_count (directory_iterator p).
Proof.
  intros w r w'. unfold directory_iterator.
  destruct (fs_lookup _ _) as [[| |]|]; intros [= _ <-]; reflexivity.
Qed.

Lemma keeps_count_set_entries p es : keeps_count (set_entries p es).
Proof.
  intros w r w'. unfold set_entries.
  destruct (fs_alter _ _ _); intros [= _ <-]; reflexivity.
Qed.

Lemma keeps_count_fs_remove p : keeps_count (fs_remove p).
Proof.
  intros w r w'. unfold fs_remove.
  destruct (fs_alter _ _ _); intros [= _ <-]; reflexivity.
Qed.

Lemma keeps_count_remove_tiles folder : keeps_count (remove_tiles folder).
Proof.
  unfold remove_tiles.
  apply keeps_count_bind; [apply keeps_count_directory_iterator|]. intros es.
  apply keeps_count_bind; [apply keeps_count_set_entries|]. intros _.
  apply keeps_count_bind; [apply keeps_count_get_files|]. intros fs.
  destruct (fs_lookup fs _) as [[|[|e sub]|]|];
    auto using keeps_count_fs_remove, keeps_count_ret, keeps_count_throw.
  all: first [apply keeps_count_fs_remove | apply keeps_count_ret
             | apply keeps_count_throw].
Qed.

Lemma keeps_count_write_metadata folder wd ht ts tiles :
  keeps_count (write_metadata folder wd ht ts tiles).
Proof.
  unfold write_metadata.
  apply keeps_count_bind; [apply keeps_count_ofstream_open|].
  intros [|]; cbn [negb];
    [apply keeps_count_ofstream_write|apply keeps_count_throw].
Qed.

Variable zlib : list byte -> deflate_outcome.

Lemma keeps_count_pack_tiles binary_path name tile_files : forall off tm,
  keeps_count (pack_tiles zlib binary_path name tile_files off tm).
Proof.
  induction tile_files as [|p rest IH]; intros off tm; cbn [pack_tiles].
  - apply keeps_count_ret.
  - apply keeps_count_bind; [apply keeps_count_read_all|]. intros data.
    apply keeps_count_bind; [apply keeps_count_lift|]. intros c.
    apply keeps_count_bind; [apply keeps_count_ofstream_write|]. intros _.
    apply IH.
Qed.

Lemma keeps_count_merge folder name (keep : bool) :
  keeps_count (merge_tiles_to_binary zlib folder name keep).
Proof.
  unfold merge_tiles_to_binary.
  apply keeps_count_bind; [apply keeps_count_ofstream_open|].
  intros [|]; cbn [negb]; [|apply keeps_count_throw].
  apply keeps_count_bind; [apply keeps_count_directory_iterator|]. intros es.
  apply keeps_count_bind; [apply keeps_count_pack_tiles|]. intros tiles.
  apply keeps_count_bind; [|intros _; apply keeps_count_ret].
  destruct keep; cbn [negb]; [apply keeps_count_ret|apply keeps_count_remove_tiles].
Qed.

(** The steps after the tiler count the job when they all return, and
    only then. *)
Lemma tile_and_pack_counts task config target_size w r w' :
  tile_and_pack zlib task config target_size w = (r, w') ->
  completed_count w' =
    match r with
    | Ok _ => size_t_add (completed_count w) 1
    | Throw _ => completed_count w
    end.
Proof.
  unfold tile_and_pack. unfold bind at 1.
  destruct (merge_tiles_to_binary _ _ _ _ w) as [[tiles|e] w1] eqn:E1.
  2: { intros [= <- <-]. eapply keeps_count_merge, E1. }
  apply keeps_count_merge in E1.
  unfold bind at 1.
  destruct (write_metadata _ _ _ _ tiles w1) as [[[]|e] w2] eqn:E2.
  2: { intros [= <- <-]. apply keeps_count_write_metadata in E2. congruence. }
  apply keeps_count_write_metadata in E2.
  unfold bind, incr_completed, ret. intros [= <- <-]. cbn. congruence.
Qed.

End Counter.

(** X15.  A job leaves [completed_count] as it is or adds one to it; a job
    that changed the counter reports [success] without a message and a
    square image.  The libraries are taken not to touch the counter. *)
Theorem process_image_counts (zlib : list byte -> deflate_outcome)
    (vnew : string -> io VImage)
    (vsave : string -> Z -> string -> Z -> string -> option Z -> io unit)
    (fuel : nat) (task : ImageTask) (config : Config) (total : Z)
    (w w' : world) (r : ProcessResult) :
  (forall name, keeps_count (vnew name)) ->
  (forall input size output ts sfx q,
     keeps_count (vsave input size output ts sfx q)) ->
  process_image zlib vnew vsave fuel task config total w = Some (r, w') ->
  (completed_count w' = completed_count w \/
   completed_count w' = size_t_add (completed_count w) 1) /\
  (completed_count w' <> completed_count w ->
   success r = true /\ error_message r = EmptyString /\ width r = height r).
Proof.
  intros Hnew Hsave. unfold process_image.
  destruct (vnew (input_path task) w) as [[image|e] w1] eqn:E1.
  2: { intros [= <- <-]. apply Hnew in E1. split; [now left|contradiction]. }
  apply Hnew in E1.
  destruct (next_power_of_2 fuel _) as [target_size|]; [|discriminate].
  destruct (vsave _ _ _ _ _ _ w1) as [[[]|e] w2] eqn:E2.
  2: { intros [= <- <-]. apply Hsave in E2.
       split; [left; congruence|]. intros H. destruct H. congruence. }
  apply Hsave in E2.
  destruct (tile_and_pack zlib task config target_size w2) as [[[]|e] w3] eqn:E3;
    apply tile_and_pack_counts in E3; intros [= <- <-].
  - split; [right; congruence|]. intros _. cbn. auto.
  - split; [left; congruence|]. intros H. destruct H. congruence.
Qed.

Lemma process_image_counts_witness :
  (completed_count counted_world = completed_count empty_output_world \/
   completed_count counted_world
   = size_t_add (completed_count empty_output_world) 1) /\
  (completed_count counted_world <> completed_count empty_output_world ->
   success counted_result = true /\ error_message counted_result = EmptyString /\
   width counted_result = height counted_result).
Proof.
  apply (process_image_counts framing_deflate (fixed_image 1000 800)
           (fixed_tiler pyramid) 31 sample_task sample_config 1).
  - intros name. apply keeps_count_ret.
  - intros input size output ts sfx q. apply keeps_count_set_entries.
  - vm_compute. reflexivity.
Defined.

(* ================================================================= *)
(** ** From the command line to the loops of main *)

Lemma two_in_flight_reachable : reachable 2 three_tasks two_in_flight.
Proof.
  eapply reach_step; [eapply reach_step; [eapply reach_step|]|].
  - apply reach_init.
  - apply step_launch.
  - apply step_below. vm_compute. intros H. apply H. reflexivity.
  - apply step_launch.
Qed.

(** X16.  Whatever command line [parse_args] accepts, the loops of [main] run
    with a worker count of at least one, and so never have more jobs in
    flight than the configuration says. *)
Theorem accepted_config_limits_jobs (hardware_concurrency : Z)
    (argv : list string) (config : Config) (tasks : list ImageTask) (s : sched) :
  (0 <= hardware_concurrency <= UINT_MAX)%Z ->
  parse_args hardware_concurrency argv = Returns config ->
  reachable (threads config) tasks s ->
  (in_flight s <= threads config)%Z.
Proof.
  intros Hhw Hrun Hreach.
  destruct (parse_args_returns hardware_concurrency argv config Hhw Hrun)
    as (_ & _ & (_ & _ & _ & Hth) & Hne).
  assert (Hpos : (1 <= threads config)%Z) by lia.
  pose proof (reachable_inv (threads config) Hpos tasks s Hreach) as Hinv.
  pose proof (sched_inv_bound (threads config) s Hinv).
  pose proof (sched_inv_limit (threads config) s Hinv). lia.
Qed.

Lemma accepted_config_limits_jobs_witness :
  (in_flight two_in_flight <= threads two_workers_config)%Z.
Proof.
  apply (accepted_config_limits_jobs 8 two_workers_argv two_workers_config
           three_tasks two_in_flight).
  - vm_compute. split; discriminate.
  - vm_compute. reflexivity.
  - exact two_in_flight_reachable.
Defined.

(* ================================================================= *)
(** ** What a job leaves alone *)

Section Frame.

Lemma apart_cons c p q : apart (c :: p) (c :: q) -> apart p q.
Proof.
  intros [H1 H2]. split; intros [rest ->].
  - apply H1. now exists rest.
  - apply H2. now exists rest.
Qed.

Lemma fs_alter_apart f p : forall fs fs' q,
  fs_alter f fs p = Some fs' -> apart p q -> fs_lookup fs' q = fs_lookup fs q.
Proof.
  induction p as [|c p IH]; intros fs fs' q Halter Hapart.
  - destruct Hapart as [H _]. destruct H. now exists q.
  - cbn [fs_alter] in Halter. destruct fs as [| es |]; try discriminate.
    destruct (dir_lookup c es) as [m|] eqn:Ec; [|discriminate].
    destruct (fs_alter f m p) as [m'|] eqn:Em; [|discriminate].
    injection Halter as <-.
    destruct q as [|d q].
    + destruct Hapart as [_ H]. destruct H. now exists (c :: p).
    + cbn [fs_lookup]. destruct (String.eqb_spec c d) as [<-|Hne].
      * rewrite dir_lookup_set_eq, Ec. eapply IH; [exact Em|].
        now apply apart_cons in Hapart.
      * now rewrite dir_lookup_set_ne.
Qed.

Variable folder : path.

Lemma keeps_outside_ret {A} (a : A) : keeps_outside folder (ret a).
Proof. intros w r w' q [= _ <-] _. reflexivity. Qed.

Lemma keeps_outside_throw {A} (e : string) : keeps_outside folder (@throw A e).
Proof. intros w r w' q [= _ <-] _. reflexivity. Qed.

Lemma keeps_outside_lift {A} (x : result A) : keeps_outside folder (lift_result x).
Proof. intros w r w' q [= _ <-] _. reflexivity. Qed.

Lemma keeps_outside_bind {A B} (m : io A) (k : A -> io B) :
  keeps_outside folder m -> (forall a, keeps_outside folder (k a)) ->
  keeps_outside folder (bind m k).
Proof.
  intros Hm Hk w r w' q. unfold bind.
  destruct (m w) as [[a|e] w1] eqn:E.
  - intros Hrun Hq. rewrite (Hk a w1 r w' q Hrun Hq). eapply Hm; eassumption.
  - intros [= _ <-] Hq. eapply Hm; eassumption.
Qed.

Lemma keeps_outside_get_files : keeps_outside folder get_files.
Proof. intros w r w' q [= _ <-] _. reflexivity. Qed.

Lemma keeps_outside_incr : keeps_outside folder incr_completed.
Proof. intros w r w' q [= _ <-] _. reflexivity. Qed.

Lemma keeps_outside_read_all p : keeps_outside folder (ifstream_read_all p).
Proof. intros w r w' q [= _ <-] _. reflexivity. Qed.

Lemma keeps_outside_directory_iterator p :
  keeps_outside folder (directory_iterator p).
Proof.
  intros w r w' q. unfold directory_iterator.
  destruct (fs_lookup _ _) as [[| |]|]; intros [= _ <-] _; reflexivity.
Qed.

Lemma keeps_outside_ofstream_open name :
  keeps_outside folder (ofstream_open (folder ++ [name])).
Proof.
  intros w r w' q. unfold ofstream_open. rewrite parent_path_snoc.
  destruct (fs_alter _ _ _) as [n|] eqn:E; intros [= _ <-] Hq; [|reflexivity].
  eapply fs_alter_apart; eassumption.
Qed.

Lemma keeps_outside_ofstream_write name data :
  keeps_outside folder (ofstream_write (folder ++ [name]) data).
Proof.
  intros w r w' q. unfold ofstream_write. rewrite parent_path_snoc.
  destruct (fs_alter _ _ _) as [n|] eqn:E; intros [= _ <-] Hq; [|reflexivity].
  eapply fs_alter_apart; eassumption.
Qed.

Lemma keeps_outside_fs_remove name :
  keeps_outside folder (fs_remove (folder ++ [name])).
Proof.
  intros w r w' q. unfold fs_remove. rewrite parent_path_snoc.
  destruct (fs_alter _ _ _) as [n|] eqn:E; intros [= _ <-] Hq; [|reflexivity].
  eapply fs_alter_apart; eassumption.
Qed.

Lemma keeps_outside_set_entries es : keeps_outside folder (set_entries folder es).
Proof.
  intros w r w' q. unfold set_entries.
  destruct (fs_alter _ _ _) as [n|] eqn:E; intros [= _ <-] Hq; [|reflexivity].
  eapply fs_alter_apart; eassumption.
Qed.

Lemma keeps_outside_remove_tiles : keeps_outside folder (remove_tiles folder).
Proof.
  unfold remove_tiles.
  apply keeps_outside_bind; [apply keeps_outside_directory_iterator|]. intros es.
  apply keeps_outside_bind; [apply keeps_outside_set_entries|]. intros _.
  apply keeps_outside_bind; [apply keeps_outside_get_files|]. intros fs.
  destruct (fs_lookup fs _) as [[|[|e sub]|]|];
    first [apply keeps_outside_fs_remove | apply keeps_outside_ret
          | apply keeps_outside_throw].
Qed.

Lemma keeps_outside_write_metadata wd ht ts tiles :
  keeps_outside folder (write_metadata folder wd ht ts tiles).
Proof.
  unfold write_metadata.
  apply keeps_outside_bind; [apply keeps_outside_ofstream_open|].
  intros [|]; cbn [negb];
    [apply keeps_outside_ofstream_write|apply keeps_outside_throw].
Qed.

Variable zlib : list byte -> deflate_outcome.

Lemma keeps_outside_pack_tiles name tile_files : forall off tm,
  keeps_outside folder (pack_tiles zlib (folder ++ [name]) name tile_files off tm).
Proof.
  induction tile_files as [|p rest IH]; intros off tm; cbn [pack_tiles].
  - apply keeps_outside_ret.
  - apply keeps_outside_bind; [apply keeps_outside_read_all|]. intros data.
    apply keeps_outside_bind; [apply keeps_outside_lift|]. intros c.
    apply keeps_outside_bind; [apply keeps_outside_ofstream_write|]. intros _.
    apply IH.
Qed.

Lemma keeps_outside_merge name (keep : bool) :
  keeps_outside folder (merge_tiles_to_binary zlib folder name keep).
Proof.
  unfold merge_tiles_to_binary.
  apply keeps_outside_bind; [apply keeps_outside_ofstream_open|].
  intros [|]; cbn [negb]; [|apply keeps_outside_throw].
  apply keeps_outside_bind; [apply keeps_outside_directory_iterator|]. intros es.
  apply keeps_outside_bind; [apply keeps_outside_pack_tiles|]. intros tiles.
  apply keeps_outside_bind; [|intros _; apply keeps_outside_ret].
  destruct keep; cbn [negb];
    [apply keeps_outside_ret|apply keeps_outside_remove_tiles].
Qed.

End Frame.

Lemma keeps_outside_tile_and_pack zlib task config target_size :
  keeps_outside (path_of_string (output_path task))
    (tile_and_pack zlib task config target_size).
Proof.
  unfold tile_and_pack.
  apply keeps_outside_bind; [apply keeps_outside_merge|]. intros tiles.
  apply keeps_outside_bind; [apply keeps_outside_write_metadata|]. intros _.
  apply keeps_outside_bind; [apply keeps_outside_incr|]. intros _.
  apply keeps_outside_ret.
Qed.

(** X17.  A job changes nothing apart from its output folder: whatever it
    returns, every path that is neither in the output folder nor on the way
    to it leads to what it led to before.  The libvips calls are taken to
    write below the output folder only. *)
Theorem process_image_frame (zlib : list byte -> deflate_outcome)
    (vnew : string -> io VImage)
    (vsave : string -> Z -> string -> Z -> string -> option Z -> io unit)
    (fuel : nat) (task : ImageTask) (config : Config) (total : Z)
    (w w' : world) (r : ProcessResult) (q : path) :
  (forall name, keeps_outside (path_of_string (output_path task)) (vnew name)) ->
  (forall input size ts sfx quality,
     keeps_outside (path_of_string (output_path task))
       (vsave input size (output_path task) ts sfx quality)) ->
  process_image zlib vnew vsave fuel task config total w = Some (r, w') ->
  apart (path_of_string (output_path task)) q ->
  fs_lookup (files w') q = fs_lookup (files w) q.
Proof.
  intros Hnew Hsave Hrun Hq. unfold process_image in Hrun.
  destruct (vnew (input_path task) w) as [[image|e] w1] eqn:E1.
  2: { injection Hrun as _ <-. eapply Hnew; eassumption. }
  apply (Hnew _ _ _ _ q) in E1; [|exact Hq].
  destruct (next_power_of_2 fuel _) as [target_size|]; [|discriminate].
  destruct (vsave _ _ _ _ _ _ w1) as [[[]|e] w2] eqn:E2.
  2: { injection Hrun as _ <-. apply (Hsave _ _ _ _ _ _ _ _ q) in E2; congruence. }
  apply (Hsave _ _ _ _ _ _ _ _ q) in E2; [|exact Hq].
  destruct (tile_and_pack zlib task config target_size w2) as [[[]|e] w3] eqn:E3;
    apply (keeps_outside_tile_and_pack _ _ _ _ _ _ _ q) in E3; try exact Hq;
    injection Hrun as _ <-; congruence.
Qed.

Lemma process_image_frame_witness :
  fs_lookup (files shared_world_after) ["img"; "a.png"]
  = fs_lookup (files shared_world) ["img"; "a.png"].
Proof.
  apply (process_image_frame framing_deflate (fixed_image 1000 800)
           (fixed_tiler pyramid) 31 sample_task sample_config 1
           shared_world shared_world_after shared_result).
  - intros name. apply keeps_outside_ret.
  - intros input size ts sfx quality. apply keeps_outside_set_entries.
  - vm_compute. reflexivity.
  - split; intros [rest H]; discriminate.
Defined.

(* ================================================================= *)
(** ** What the packer keeps, and the job that goes through *)

Section Kept.

Variable zlib : list byte -> deflate_outcome.
Variable folder : path.
Variable name : string.

Lemma dir_lookup_remove_level_dirs_kept n c es :
  dir_lookup n es = Some c -> is_directory c && all_digits n = false ->
  dir_lookup n (remove_level_dirs es) = Some c.
Proof.
  intros Hl Hc. unfold remove_level_dirs.
  induction es as [|[k c'] es IH]; [discriminate|].
  cbn [dir_lookup] in Hl.
  destruct (is_directory c' && all_digits k) eqn:E.
  - rewrite filter_cons_False by (cbn [fst snd]; now rewrite E).
    destruct (String.eqb_spec n k) as [->|Hne]; [|now apply IH].
    injection Hl as ->. congruence.
  - rewrite filter_cons_True by (cbn [fst snd]; now rewrite E).
    cbn [dir_lookup]. destruct (String.eqb n k); [assumption|now apply IH].
Qed.

(** An entry that is not the blob, not [blank.png] and not a level
    directory is in every list of entries the packer can leave. *)
Lemma merge_pure_keeps read (keep : bool) es n c :
  dir_lookup n es = Some c ->
  n <> name -> n <> "blank.png" ->
  is_directory c && all_digits n = false ->
  dir_lookup n (merge_pure zlib read folder name keep es).2 = Some c.
Proof.
  intros Hl Hname Hblank Hc. unfold merge_pure.
  destruct (truncate_entry name es); [|exact Hl].
  set (es2 := dir_set name _ es).
  assert (H2 : dir_lookup n es2 = Some c).
  { subst es2. rewrite dir_lookup_set_ne by congruence. exact Hl. }
  assert (H3 : dir_lookup n (remove_level_dirs es2) = Some c)
    by now apply dir_lookup_remove_level_dirs_kept.
  destruct (pack_pure zlib read name _ 0 []).1; [|exact H2].
  destruct keep; [exact H2|].
  destruct (dir_lookup "blank.png" (remove_level_dirs es2)) as [[r d|[|e sub]|]|];
    cbn [snd]; try exact H3;
    unfold clean_up; rewrite dir_lookup_remove_ne by congruence; exact H3.
Qed.

(** What a name that is free, or taken by a file, leads to after a packing
    that returned. *)
Lemma lookup_after_packing (keep : bool) es rd blob n :
  NoDup (map fst es) ->
  (forall c, dir_lookup n es = Some c -> is_directory c = false) ->
  n <> name -> n <> "blank.png" ->
  dir_lookup n (let es2 := dir_set name (File rd blob) es in
                if keep then es2 else clean_up es2)
  = dir_lookup n es.
Proof.
  intros Hnd Hfile Hname Hblank. cbv zeta.
  set (es2 := dir_set name (File rd blob) es).
  assert (H2 : dir_lookup n es2 = dir_lookup n es).
  { subst es2. now rewrite dir_lookup_set_ne by congruence. }
  destruct keep; [exact H2|].
  unfold clean_up. rewrite dir_lookup_remove_ne by congruence.
  destruct (dir_lookup n es) as [c|] eqn:E.
  - apply dir_lookup_remove_level_dirs_kept; [exact H2|].
    now rewrite (Hfile c eq_refl).
  - destruct (dir_lookup n (remove_level_dirs es2)) as [c'|] eqn:E';
      [|reflexivity].
    apply dir_lookup_remove_level_dirs_inv in E'.
    apply (dir_lookup_nodup _ _ _ (dir_set_nodup name _ es Hnd)) in E'.
    subst es2. congruence.
Qed.

End Kept.

(** X18.  The packer removes and changes nothing but the blob, [blank.png]
    and the directories with an all-digit name: whatever it returns or
    throws, every other entry of the tile folder is what it was. *)
Theorem merge_keeps_other_entries (zlib : list byte -> deflate_outcome)
    (folder : path) (name : string) (keep : bool) (w w' : world)
    (r : result (list TileInfo)) (es : list (string * node)) :
  wfb (files w) = true ->
  at_folder w folder es ->
  merge_tiles_to_binary zlib folder name keep w = (r, w') ->
  exists es',
    at_folder w' folder es' /\
    forall n c,
      dir_lookup n es = Some c ->
      n <> name -> n <> "blank.png" ->
      is_directory c && all_digits n = false ->
      dir_lookup n es' = Some c.
Proof.
  intros Hwf Hat Hrun.
  destruct (wfb_at_folder folder w es Hwf Hat) as [Hnd _].
  destruct (merge_outcome zlib folder name keep w es Hat Hnd)
    as (w2 & Hrun2 & Hat2 & _).
  rewrite Hrun in Hrun2. injection Hrun2 as _ <-.
  eexists. split; [exact Hat2|].
  intros n c. apply merge_pure_keeps.
Qed.

Lemma merge_keeps_other_entries_witness :
  exists es',
    at_folder mixed_packed ["out"] es' /\
    forall n c,
      dir_lookup n mixed_entries = Some c ->
      n <> "tiles_000.binz" -> n <> "blank.png" ->
      is_directory c && all_digits n = false ->
      dir_lookup n es' = Some c.
Proof.
  apply (merge_keeps_other_entries framing_deflate ["out"] "tiles_000.binz" false
           mixed_world mixed_packed
           (Ok (tiles_of (run_merge false mixed_world)))).
  - vm_compute. reflexivity.
  - reflexivity.
  - vm_compute. reflexivity.
Defined.

(** X19.  The job that goes through.  When the image is at most [2 ^ 30]
    wide and high, the loader and the tiler return and leave the counter as
    it is, the tiler leaves a well-formed tree in which the output folder is
    a directory and the names of the blob, of the metadata file and of
    [blank.png] are free or taken by regular files, and the compressor does
    not fail, then the job returns [success] without a message, the side of
    its square is the least power of two that holds the image, and the job
    is counted.  The packer has returned one entry for every tile file the
    tiler left, in sorted order; the output folder holds the blob, as long
    as the sizes of these entries add up to, and the metadata file written
    for that side and these entries. *)
Theorem process_image_succeeds (zlib : list byte -> deflate_outcome)
    (vnew : string -> io VImage)
    (vsave : string -> Z -> string -> Z -> string -> option Z -> io unit)
    (fuel : nat) (task : ImageTask) (config : Config) (total : Z)
    (w w1 w2 : world) (image : VImage) (es : list (string * node)) :
  (forall data, exists c, zlib data = StreamEnd c) ->
  (31 <= fuel)%nat ->
  (Z.max (image_width image) (image_height image) <= 2 ^ 30)%Z ->
  vnew (input_path task) w = (Ok image, w1) ->
  (forall size,
     next_power_of_2 fuel (Z.max (image_width image) (image_height image))
       = Some size ->
     vsave (input_path task) size (output_path task) (tile_size config)
       (suffix config) (quality_option config) w1 = (Ok tt, w2)) ->
  completed_count w2 = completed_count w ->
  wfb (files w2) = true ->
  at_folder w2 (path_of_string (output_path task)) es ->
  (forall n c, n ∈ ["tiles_000.binz"; "metadata.json"; "blank.png"] ->
               dir_lookup n es = Some c -> is_regular_file c = true) ->
  exists r w' side tiles w3 rd blob rm,
    process_image zlib vnew vsave fuel task config total w = Some (r, w') /\
    success r = true /\ error_message r = EmptyString /\
    width r = side /\ height r = side /\
    least_power_of_2_ge
      (Z.max (image_width image) (image_height image)) side /\
    completed_count w' = size_t_add (completed_count w) 1 /\
    merge_tiles_to_binary zlib (path_of_string (output_path task))
      "tiles_000.binz" (keep_tiles config) w2 = (Ok tiles, w3) /\
    map key tiles
    = map tile_key
        (sort_paths (collect_levels (path_of_string (output_path task)) es)) /\
    fs_lookup (files w') (path_of_string (output_path task) ++ ["tiles_000.binz"])
    = Some (File rd blob) /\
    total_size tiles = vsize blob /\
    fs_lookup (files w') (path_of_string (output_path task) ++ ["metadata.json"])
    = Some (File rm (bytes (metadata_text side side (tile_size config) tiles))).
Proof.
  intros Hzlib Hfuel Hdim Hnew Hsave Hcount Hwf Hat Hfiles.
  set (out := path_of_string (output_path task)) in *.
  destruct (next_power_of_2_least fuel _ Hdim Hfuel) as (side & Hside & Hleast & _).
  assert (Hreg : forall n c, n ∈ ["tiles_000.binz"; "metadata.json"; "blank.png"] ->
                   dir_lookup n es = Some c -> is_directory c = false).
  { intros n c Hn Hc. specialize (Hfiles n c Hn Hc). now destruct c. }
  destruct (merge_returns zlib out "tiles_000.binz" Hzlib (keep_tiles config) w2 es
              Hwf Hat) as (tiles & w3 & Hmerge).
  { intros c. apply Hfiles. now left. }
  { intros c. apply Hreg. now do 2 right; left. }
  destruct (merge_run zlib out "tiles_000.binz" (keep_tiles config) w2 tiles w3
              Hwf Hmerge) as (es0 & blob & Hat0 & _ & Hpure & Hat3 & Hc3).
  rewrite <- (at_folder_inj out w2 es es0 Hat Hat0) in *.
  destruct (wfb_at_folder out w2 es Hwf Hat) as [Hnd _].
  destruct (pack_pure_ok zlib _ _ _ _ _ _ _ Hpure) as (new & Enew & Hkeys & Hsize & _).
  cbn [app] in Enew. subst new.
  pose proof (blob_after_merge out "tiles_000.binz" (keep_tiles config) w3 es _ blob
                Hat3) as Hblob.
  change (String.eqb "blank.png" "tiles_000.binz") with false in Hblob.
  rewrite andb_false_r in Hblob.
  rewrite (lookup_in_folder out w3 _ ["tiles_000.binz"] Hat3) in Hblob.
  cbn [fs_lookup] in Hblob.
  pose proof (write_metadata_effect out side side (tile_size config) tiles w3 _ Hat3)
    as Hwrite.
  rewrite (lookup_after_packing "tiles_000.binz" (keep_tiles config) es _ blob
             "metadata.json" Hnd) in Hwrite; try discriminate.
  2: { intros c. apply Hreg. now right; left. }
  match type of Hat3 with
  | at_folder _ _ ?entries => set (es3 := entries) in *
  end.
  assert (exists w4 rm,
             write_metadata out side side (tile_size config) tiles w3 = (Ok tt, w4) /\
             at_folder w4 out
               (dir_set "metadata.json"
                  (File rm (bytes (metadata_text side side (tile_size config)
                                     tiles))) es3) /\
             completed_count w4 = completed_count w3)
    as (w4 & rm & Hw & Hat4 & Hc4).
  { destruct (dir_lookup "metadata.json" es) as [c|] eqn:Em.
    - assert (Hc : is_regular_file c = true).
      { apply (Hfiles "metadata.json" c); [now right; left|exact Em]. }
      destruct c as [rd d|sub|]; try discriminate Hc.
      destruct Hwrite as (w4 & Hw & Hat4 & Hc4). eauto.
    - destruct Hwrite as (w4 & Hw & Hat4 & Hc4). eauto. }
  destruct (dir_lookup "tiles_000.binz" es3) as [[rd blob'| |]|] eqn:Eb;
    try discriminate Hblob.
  injection Hblob as Hrd ->.
  eexists _, (World (files w4) (size_t_add (completed_count w4) 1)), side, tiles,
    w3, rd, blob, rm.
  split.
  { unfold process_image. rewrite Hnew, Hside, (Hsave side Hside).
    unfold tile_and_pack. fold out. unfold bind at 1. rewrite Hmerge.
    unfold bind at 1. rewrite Hw. reflexivity. }
  cbn [success error_message width height completed_count files].
  split; [reflexivity|]. split; [reflexivity|]. split; [reflexivity|].
  split; [reflexivity|]. split; [exact Hleast|]. split; [congruence|].
  split; [exact Hmerge|]. split; [exact Hkeys|].
  unfold at_folder in Hat4. rewrite !fs_lookup_app, Hat4. cbn [fs_lookup].
  rewrite dir_lookup_set_ne by discriminate. rewrite Eb.
  split; [reflexivity|]. split; [exact Hsize|].
  now rewrite dir_lookup_set_eq.
Qed.

Lemma process_image_succeeds_witness :
  exists r w' side tiles w3 rd blob rm,
    process_image framing_deflate (fixed_image 1000 800) (fixed_tiler pyramid)
      31 sample_task sample_config 1 empty_output_world = Some (r, w') /\
    success r = true /\ error_message r = EmptyString /\
    width r = side /\ height r = side /\
    least_power_of_2_ge (Z.max 1000 800) side /\
    completed_count w' = size_t_add (completed_count empty_output_world) 1 /\
    merge_tiles_to_binary framing_deflate (path_of_string "out")
      "tiles_000.binz" false tiled_world = (Ok tiles, w3) /\
    map key tiles
    = map tile_key (sort_paths (collect_levels (path_of_string "out") pyramid)) /\
    fs_lookup (files w') (path_of_string "out" ++ ["tiles_000.binz"])
    = Some (File rd blob) /\
    total_size tiles = vsize blob /\
    fs_lookup (files w') (path_of_string "out" ++ ["metadata.json"])
    = Some (File rm (bytes (metadata_text side side 512 tiles))).
Proof.
  apply (process_image_succeeds framing_deflate (fixed_image 1000 800)
           (fixed_tiler pyramid) 31 sample_task sample_config 1
           empty_output_world empty_output_world tiled_world
           {| image_width := 1000; image_height := 800 |} pyramid).
  - intros data. eexists. reflexivity.
  - lia.
  - vm_compute. discriminate.
  - reflexivity.
  - intros size _. reflexivity.
  - reflexivity.
  - vm_compute. reflexivity.
  - reflexivity.
  - intros n c Hn. vm_compute in Hn.
    repeat (apply elem_of_cons in Hn as [->|Hn]); [| | |inversion Hn];
      vm_compute; intros [= <-]; reflexivity.
Defined.
